(** * disaggregator.utils: trace aggregation, concatenation, splitting,
      ordering and windowing

    A shallow embedding of [disaggregator/utils.py].  The module is Python 2
    code over pandas [Series] objects, which are mutable and shared by
    reference: an [ApplianceTrace] holds a reference to its series, and
    [aggregate_traces] accumulates with [+=], which pandas (from 0.15 on)
    carries out in the series object of the first trace.  Series objects
    therefore live in a store and traces hold locations; functions are
    computations in a state-and-exception monad.  Two traits of the
    libraries that changed between releases are parameters: whether [+=]
    works in place, and the cut-off of numpy's quicksort. *)

From Stdlib Require Import ZArith Lia.
From stdpp Require Import base option list sorting strings gmap.

Local Open Scope string_scope.
Local Open Scope list_scope.
Local Open Scope nat_scope.

(** ** Python values shared by the whole module *)

(** Timestamps of a timezone-naive [DatetimeIndex]: nanoseconds since the
    epoch. *)
Definition Timestamp : Type := Z.

(** Values stored in a metadata dict. *)
Inductive mval : Type :=
  | MNone
  | MInt (n : Z)
  | MStr (s : string).

#[global] Instance mval_eq_dec : EqDecision mval.
Proof. solve_decision. Defined.

(** A metadata mapping: a dict with string keys. *)
Abbreviation dict := (gmap string mval).

(** Exception classes the module can meet, and the classes derived from
    them: [Derived name base] is a class [name] whose base class is [base]
    (the built-in [UnicodeError] and the [OutOfBoundsDatetime] of pandas
    both derive from [ValueError]).  None of the six classes named here
    derives from another of them. *)
Inductive exc_class : Type :=
  | IndexError
  | ValueError
  | NameError
  | ZeroDivisionError
  | NotImplementedError
  | SampleError
  | Derived (name : string) (base : exc_class).

#[global] Instance exc_class_eq_dec : EqDecision exc_class.
Proof. solve_decision. Defined.

(** [issubclass(c, cls)]: [c] is [cls], or derives from it through its
    bases. *)
Fixpoint issubclass (c cls : exc_class) : bool :=
  bool_decide (c = cls)
  || match c with
     | Derived _ base => issubclass base cls
     | _ => false
     end.

(** A raised exception: its class and its argument (message, or the value it
    carries). *)
Inductive exn : Type :=
  | Exc (c : exc_class) (arg : string).

#[global] Instance exn_eq_dec : EqDecision exn.
Proof. solve_decision. Defined.

(** How a call ends.  [OutOfModel] marks what the embedding does not cover
    (a dangling reference, pandas re-indexing of misaligned operands). *)
Inductive outcome (A : Type) : Type :=
  | Returns (a : A)
  | Raises (e : exn)
  | OutOfModel.
Arguments Returns {A} a.
Arguments Raises {A} e.
Arguments OutOfModel {A}.

(** Locations of series objects in the store. *)
Definition loc : Type := nat.

(** Modelled from the spec: [appliance.ApplianceTrace] is declared in
    [appliance.py]; a trace is one series plus a metadata mapping.  The
    series is held by reference. *)
Record ApplianceTrace : Type := mkTrace {
  series : loc;
  metadata : dict
}.

(** Modelled from the spec: [appliance.ApplianceInstance], an ordered
    sequence of traces plus metadata. *)
Record ApplianceInstance : Type := mkInstance {
  traces : list ApplianceTrace;
  instance_metadata : dict
}.

(** What [aggregate_traces] and [aggregate_instances] can hand back: a
    hierarchy object, or the exception class itself. *)
Inductive pyobj : Type :=
  | PTrace (t : ApplianceTrace)
  | PInstance (i : ApplianceInstance)
  | PClass (c : exc_class).

Section Store.

(** The numeric type of the samples (int, float or [decimal.Decimal]),
    kept abstract. *)
Context {V : Type}.

(** A pandas Series: time-indexed rows and a name. *)
Record Series : Type := mkSeries {
  rows : list (Timestamp * V);
  name : option string
}.

Definition index (s : Series) : list Timestamp := (rows s).*1.
Definition values (s : Series) : list V := (rows s).*2.

(** The interpreter state: the series objects, and what was printed. *)
Record world : Type := mkWorld {
  store : list Series;
  stdout : list string
}.

Definition Py (A : Type) : Type := world → outcome A * world.

Definition ret {A} (a : A) : Py A := λ w, (Returns a, w).

Definition bind {A B} (m : Py A) (k : A → Py B) : Py B :=
  λ w, match m w with
       | (Returns a, w') => k a w'
       | (Raises e, w') => (Raises e, w')
       | (OutOfModel, w') => (OutOfModel, w')
       end.

Definition raise {A} (e : exn) : Py A := λ w, (Raises e, w).

Definition out_of_model {A} : Py A := λ w, (OutOfModel, w).

(** [try: body except cls: handler]: the handler takes every exception
    whose class is [cls] or derives from it. *)
Definition try_except {A} (body : Py A) (cls : exc_class) (handler : Py A)
    : Py A :=
  λ w, match body w with
       | (Raises (Exc c arg), w') =>
           if issubclass c cls then handler w' else (Raises (Exc c arg), w')
       | r => r
       end.

(** Dereference a series. *)
Definition read (l : loc) : Py Series :=
  λ w, match store w !! l with
       | Some s => (Returns s, w)
       | None => (OutOfModel, w)
       end.

(** Overwrite a series object in place. *)
Definition write (l : loc) (s : Series) : Py () :=
  λ w, (Returns (), mkWorld (<[l := s]> (store w)) (stdout w)).

(** A freshly constructed series object. *)
Definition alloc (s : Series) : Py loc :=
  λ w, (Returns (length (store w)), mkWorld (store w ++ [s]) (stdout w)).

(** The [print] statement. *)
Definition print (line : string) : Py () :=
  λ w, (Returns (), mkWorld (store w) (stdout w ++ [line])).

End Store.

Arguments Series : clear implicits.
Arguments world : clear implicits.
Arguments Py : clear implicits.

Notation "'let*' x ':=' m 'in' k" := (bind m (λ x, k))
  (at level 10, x name, m at level 100, k at level 200).
Notation "m ;; k" := (bind m (λ _, k))
  (at level 100, k at level 200, right associativity).

(** ** numpy: argsort *)

(** [np.argsort(a)] with the default [kind='quicksort'], after numpy's
    [npysort/quicksort.c.src] ([aquicksort]): [tosort] starts as
    [0, 1, ..., num-1] and is permuted in place.  Ranges longer than
    [SMALL_QUICKSORT] are partitioned around a median of three, the larger
    part is pushed on a stack; short ranges are insertion-sorted.  [pl],
    [pr], [pi], [pj], [pk], [pm] are positions in [tosort].  The sort is not
    stable.  A read outside the array or an exhausted loop budget is
    [None].  (From numpy 1.12 on the loop also switches to heapsort once
    more than 2 log2(num) partitions are nested; that depth limit is left
    out.) *)
Section Argsort.

(** The cut-off below which a range is insertion-sorted: numpy defines
    [SMALL_QUICKSORT] as 15 up to version 1.11 and as 16 since. *)
Variable SMALL_QUICKSORT : nat.

(** The keys being sorted. *)
Variable v : list Z.

(** [v[*p]] *)
Definition key_at (tosort : list nat) (p : nat) : option Z :=
  i ← tosort !! p; v !! i.

(** [INTP_SWAP] of the cells at [p] and [q] *)
Definition intp_swap (tosort : list nat) (p q : nat) : option (list nat) :=
  a ← tosort !! p; b ← tosort !! q; Some (<[q := a]> (<[p := b]> tosort)).

(** [INTP_SWAP] of the cells at [p] and [q] when [v[*p] < v[*q]] *)
Definition swap_if_lt (tosort : list nat) (p q : nat) : option (list nat) :=
  a ← key_at tosort p; b ← key_at tosort q;
  if (a <? b)%Z then intp_swap tosort p q else Some tosort.

(** [do ++pi; while (LT(v[*pi], vp));] *)
Fixpoint scan_up (budget : nat) (tosort : list nat) (vp : Z) (pi : nat)
    : option nat :=
  match budget with
  | 0 => None
  | S budget' =>
      k ← key_at tosort (S pi);
      if (k <? vp)%Z then scan_up budget' tosort vp (S pi) else Some (S pi)
  end.

(** [do --pj; while (LT(vp, v[*pj]));] *)
Fixpoint scan_down (tosort : list nat) (vp : Z) (pj : nat) : option nat :=
  match pj with
  | 0 => None
  | S pj' =>
      k ← key_at tosort pj';
      if (vp <? k)%Z then scan_down tosort vp pj' else Some pj'
  end.

(** The [for (;;)] loop of the partition. *)
Fixpoint partition_loop (budget : nat) (tosort : list nat) (vp : Z)
    (pi pj : nat) : option (list nat * nat) :=
  match budget with
  | 0 => None
  | S budget' =>
      pi ← scan_up (length tosort) tosort vp pi;
      pj ← scan_down tosort vp pj;
      if decide (pj ≤ pi) then Some (tosort, pi)
      else tosort ← intp_swap tosort pi pj;
           partition_loop budget' tosort vp pi pj
  end.

(** One partition of [pl..pr]; yields the array and the pivot's final
    position [pi]. *)
Definition partition (tosort : list nat) (pl pr : nat)
    : option (list nat * nat) :=
  let pm := pl + (pr - pl) `div` 2 in
  tosort ← swap_if_lt tosort pm pl;
  tosort ← swap_if_lt tosort pr pm;
  tosort ← swap_if_lt tosort pm pl;
  vp ← key_at tosort pm;
  let pi := pl in
  let pj := pr - 1 in
  tosort ← intp_swap tosort pm pj;
  '(tosort, pi) ← partition_loop (length tosort) tosort vp pi pj;
  let pk := pr - 1 in
  tosort ← intp_swap tosort pi pk;
  Some (tosort, pi).

(** [while (pj > pl && LT(vp, v[*pk])) *pj-- = *pk--;] with [pk = pj - 1] *)
Fixpoint shift_up (tosort : list nat) (vp : Z) (pl pj : nat)
    : option (list nat * nat) :=
  match pj with
  | 0 => Some (tosort, 0)
  | S pk =>
      if decide (pl < pj) then
        x ← tosort !! pk; k ← v !! x;
        if (vp <? k)%Z then shift_up (<[pj := x]> tosort) vp pl pk
        else Some (tosort, pj)
      else Some (tosort, pj)
  end.

(** [for (pi = pl + 1; pi <= pr; ++pi)], with [n] iterations left. *)
Fixpoint insertion_sort (n : nat) (tosort : list nat) (pl pi : nat)
    : option (list nat) :=
  match n with
  | 0 => Some tosort
  | S n' =>
      vi ← tosort !! pi; vp ← v !! vi;
      '(tosort, pj) ← shift_up tosort vp pl pi;
      insertion_sort n' (<[pj := vi]> tosort) pl (S pi)
  end.

(** The outer [while (1)]: partition while the range is long, then
    insertion-sort it and pop the next range. *)
Fixpoint quicksort_loop (budget : nat) (tosort : list nat) (pl pr : nat)
    (stack : list (nat * nat)) : option (list nat) :=
  match budget with
  | 0 => None
  | S budget' =>
      if decide (SMALL_QUICKSORT < pr - pl) then
        '(tosort, pi) ← partition tosort pl pr;
        if decide (pi - pl < pr - pi) then
          quicksort_loop budget' tosort pl (pi - 1) ((pi + 1, pr) :: stack)
        else
          quicksort_loop budget' tosort (pi + 1) pr ((pl, pi - 1) :: stack)
      else
        tosort ← insertion_sort (pr - pl) tosort pl (pl + 1);
        match stack with
        | [] => Some tosort
        | (pl, pr) :: stack' => quicksort_loop budget' tosort pl pr stack'
        end
  end.

Definition np_argsort : option (list nat) :=
  let num := length v in
  quicksort_loop (2 * num + 1) (seq 0 num) 0 (num - 1) [].

End Argsort.

Section Utils.

Context {V : Type}.

(** [+] of the sample type. *)
Variable add : V → V → V.

(** [l[i]] on a Python list. *)
Definition getitem {A} (l : list A) (i : nat) : Py V A :=
  match l !! i with
  | Some a => ret a
  | None => raise (Exc IndexError "list index out of range")
  end.

(** [[f x for x in l]] *)
Fixpoint comprehension {A B} (f : A → Py V B) (l : list A) : Py V (list B) :=
  match l with
  | [] => ret []
  | x :: l' =>
      let* y := f x in
      let* ys := comprehension f l' in
      ret (y :: ys)
  end.

(** *** pandas: arithmetic on aligned series *)

(** [a + b] for two series with identical indexes: the rows are added
    position by position.  With different indexes pandas re-indexes to the
    union of the labels, which is outside the strict-alignment contract and
    not modelled. *)
Definition series_add (a b : Series V) : option (Series V) :=
  if decide (index a = index b) then
    Some (mkSeries (zip_with (λ r x, (r.1, add r.2 x)) (rows a) (values b))
                   (name a))
  else None.

(** Whether the augmented assignments of pandas work in place.  They do
    from pandas 0.15 on; in the releases before, [s += x] bound [s] to a new
    object, as [s = s + x] does. *)
Variable inplace_ops : bool.

(** [self += other] on Series, as [Series.__iadd__]: in place, the sum
    replaces the data of [self], the very object, which is also what the
    name on the left is bound to afterwards; otherwise the name is bound to
    a new series. *)
Definition iadd (self other : loc) : Py V loc :=
  let* a := read self in
  let* b := read other in
  match series_add a b with
  | Some s => if inplace_ops then write self s ;; ret self else alloc s
  | None => out_of_model
  end.

(** ** aggregate_traces *)

(** [for trace in rest: summed_series += trace.series]; the loop hands back
    what [summed_series] is bound to at its end. *)
Fixpoint sum_loop (summed_series : loc) (rest : list ApplianceTrace)
    : Py V loc :=
  match rest with
  | [] => ret summed_series
  | trace :: rest' =>
      let* summed_series := iadd summed_series (series trace) in
      sum_loop summed_series rest'
  end.

Definition aggregate_traces (traces : list ApplianceTrace) (metadata : dict)
    (how : string) : Py V pyobj :=
  if decide (how = "strict") then
    let* t0 := getitem traces 0 in
    let summed_series := series t0 in
    let* summed_series := sum_loop summed_series (drop 1 traces) in
    ret (PTrace (mkTrace summed_series metadata))
  else
    ret (PClass NotImplementedError).

(** ** aggregate_instances *)

(** [zip] over the unpacked list of lists: the transpose, cut at the
    shortest list. *)
Fixpoint zip_rows {A} (n : nat) (ls : list (list A)) : list (list A) :=
  match n with
  | 0 => []
  | S n' =>
      match mapM head ls with
      | Some hs => hs :: zip_rows n' (tail <$> ls)
      | None => []
      end
  end.

Definition zip_star {A} (ls : list (list A)) : list (list A) :=
  match ls with
  | [] => []
  | l :: _ => zip_rows (length l) ls
  end.

Definition aggregate_instances (instances : list ApplianceInstance)
    (metadata : dict) (how : string) : Py V pyobj :=
  if decide (how = "strict") then
    let traces := traces <$> instances in
    let traces := zip_star traces in
    let* traces :=
      comprehension
        (λ t, let* r := aggregate_traces t ∅ "strict" in
              match r with
              | PTrace tr => ret tr
              | _ => out_of_model  (* not reached: the mode is "strict" *)
              end) traces in
    ret (PInstance (mkInstance traces metadata))
  else
    ret (PClass NotImplementedError).

(** ** concatenate_traces *)

(** The name pandas gives a concatenation: the common name, if any. *)
Definition consensus_name (ss : list (Series V)) : option string :=
  match ss with
  | [] => None
  | s :: ss' =>
      if forallb (λ s', bool_decide (name s' = name s)) ss' then name s
      else None
  end.

(** [pd.concat(objs)] on a list of series: a new series with the rows of
    the inputs one after the other, in the order given. *)
Definition pd_concat (objs : list (Series V)) : Py V loc :=
  match objs with
  | [] => raise (Exc ValueError "No objects to concatenate")
  | _ => alloc (mkSeries (concat (rows <$> objs)) (consensus_name objs))
  end.

(** Truth value of the [metadata] argument: [None] and the empty dict are
    false. *)
Definition truthy (metadata : option dict) : bool :=
  match metadata with
  | None => false
  | Some m => bool_decide (m ≠ ∅)
  end.

(** [traces[0].metadata] *)
Definition first_metadata (traces : list ApplianceTrace) : Py V dict :=
  let* t0 := getitem traces 0 in ret (metadata t0).

Definition concatenate_traces (traces : list ApplianceTrace)
    (metadata : option dict) (how : string) : Py V ApplianceTrace :=
  let* metadata :=
    match metadata with
    | Some m => if truthy metadata then ret m else first_metadata traces
    | None => first_metadata traces
    end in
  if decide (how = "strict") then
    let* objs := comprehension (λ t, read (series t)) traces in
    let* s := pd_concat objs in
    ret (mkTrace s metadata)
  else
    raise (Exc NotImplementedError "").

(** ** split_trace_into_rate *)

(** *** pandas: calendar fields of a DatetimeIndex *)

Definition NS_PER_DAY : Z := 86400000000000.

(** [index.date]: the calendar date of a timestamp, as its day number
    (days since 1970-01-01); dates compare as their day numbers do. *)
Definition date_of (t : Timestamp) : Z := (t / NS_PER_DAY)%Z.

(** Year of a day number in the proleptic Gregorian calendar. *)
Definition year_of_day (d : Z) : Z :=
  (let z := d + 719468 in
   let era := z / 146097 in
   let doe := z - era * 146097 in
   let yoe := (doe - doe / 1460 + doe / 36524 - doe / 146096) / 365 in
   let doy := doe - (365 * yoe + yoe / 4 - yoe / 100) in
   let mp := (5 * doy + 2) / 153 in
   yoe + era * 400 + (if mp <? 10 then 0 else 1))%Z.

(** Day number of January 1st of a year. *)
Definition jan1 (y : Z) : Z :=
  (let p := y - 1 in 365 * p + p / 4 - p / 100 + p / 400 - 719162)%Z.

(** [index.week]: the ISO 8601 week number, which is the week of the year
    of the Thursday in the same Monday-to-Sunday week. *)
Definition week_of (t : Timestamp) : Z :=
  (let d := date_of t in
   let weekday := (d + 3) mod 7 in
   let thursday := d - weekday + 3 in
   (thursday - jan1 (year_of_day thursday)) / 7 + 1)%Z.

(** *** pandas: groupby *)

Fixpoint insert_key (k : Z) (ks : list Z) : list Z :=
  match ks with
  | [] => [k]
  | x :: ks' =>
      if (k <? x)%Z then k :: ks
      else if (k =? x)%Z then ks
      else x :: insert_key k ks'
  end.

(** The distinct group keys, ascending. *)
Definition group_keys (keys : list Z) : list Z := foldr insert_key [] keys.

(** The rows of [s] whose key is [k]; [keys] runs parallel to the rows. *)
Definition group_rows (keys : list Z) (s : Series V) (k : Z)
    : list (Timestamp * V) :=
  (filter (λ kr, kr.1 = k) (zip keys (rows s))).*2.

(** Iterating [s.groupby(keys)]: one [(key, sub-series)] pair per distinct
    key, by ascending key, each sub-series keeping the rows in their
    original order. *)
Definition groupby (s : Series V) (keys : list Z) : list (Z * Series V) :=
  (λ k, (k, mkSeries (group_rows keys s k) (name s))) <$> group_keys keys.

(** The loop body shared by the two branches:
    [for i, group in enumerate(groups)], appending to [traces]. *)
Fixpoint split_loop (trace : ApplianceTrace) (i : nat)
    (groups : list (Z * Series V)) (traces : list ApplianceTrace)
    : Py V (list ApplianceTrace) :=
  match groups with
  | [] => ret traces
  | group :: groups' =>
      let metadata := metadata trace in            (* dict.copy *)
      let metadata := <["trace_num" := MInt (Z.of_nat i)]> metadata in
      let* l := alloc group.2 in
      split_loop trace (S i) groups' (traces ++ [mkTrace l metadata])
  end.

Definition split_trace_into_rate (trace : ApplianceTrace) (rate : string)
    : Py V (list ApplianceTrace) :=
  let traces := [] in
  if decide (rate = "D") then
    let* s := read (series trace) in
    split_loop trace 0 (groupby s (date_of <$> index s)) traces
  else if decide (rate = "W") then
    let* s := read (series trace) in
    split_loop trace 0 (groupby s (week_of <$> index s)) traces
  else
    print "Looking for 'week' or 'day'" ;;
    ret traces.

(** ** resample_trace *)

(** [float(x)] and [decimal.Decimal(x)] on a sample. *)
Variable as_float : V → V.
Variable to_decimal : V → V.

(** [Series.resample(rule, how='mean')] of pandas, kept abstract: it yields
    the resampled series or raises. *)
Variable pd_resample_mean : string → Series V → exn + Series V.

Definition map_values (f : V → V) (s : Series V) : Series V :=
  mkSeries (prod_map id f <$> rows s) (name s).

Definition set_name (n : option string) (s : Series V) : Series V :=
  mkSeries (rows s) n.

(** Names bound at module level: the imports and the functions. *)
Definition module_globals : list string :=
  ["appliance"; "pd"; "np"; "os"; "pickle"; "sys"; "decimal"; "random";
   "aggregate_instances"; "aggregate_traces"; "bootstrap_appliance_set";
   "create_datetimeindex"; "get_common_ids"; "get_train_valid_test_indices";
   "split_trace_into_rate"; "split_instance_traces_into_rate";
   "split_type_traces_into_rate"; "concatenate_traces";
   "concatenate_traces_lists"; "resample_trace"; "resample_instance_traces";
   "resample_type_traces"; "order_traces"; "pickle_object";
   "generate_random_appliance_sets"; "get_trace_windows"].

(** Built-in names: the exception classes, and the functions the module
    calls. *)
Definition builtins : list string :=
  ["ArithmeticError"; "AssertionError"; "AttributeError"; "BaseException";
   "BufferError"; "EOFError"; "EnvironmentError"; "Exception";
   "FloatingPointError"; "GeneratorExit"; "IOError"; "ImportError";
   "IndentationError"; "IndexError"; "KeyError"; "KeyboardInterrupt";
   "LookupError"; "MemoryError"; "NameError"; "NotImplementedError";
   "OSError"; "OverflowError"; "ReferenceError"; "RuntimeError";
   "StandardError"; "StopIteration"; "SyntaxError"; "SystemError";
   "SystemExit"; "TabError"; "TypeError"; "UnboundLocalError";
   "UnicodeDecodeError"; "UnicodeEncodeError"; "UnicodeError";
   "UnicodeTranslateError"; "ValueError"; "Warning"; "ZeroDivisionError";
   "dict"; "enumerate"; "int"; "list"; "open"; "range"; "set"; "sorted";
   "xrange"; "zip"].

(** Looking a name up from inside a function: locals, then module
    globals, then built-ins. *)
Definition load_name (locals : list string) (n : string) : Py V () :=
  if decide (n ∈ locals ++ module_globals ++ builtins) then ret ()
  else raise (Exc NameError ("global name '" +:+ n +:+ "' is not defined")).

Definition resample_trace (trace : ApplianceTrace) (sample_rate : string)
    : Py V ApplianceTrace :=
  let locals := ["trace"; "sample_rate"; "new_series"] in
  try_except
    (let* s := read (series trace) in
     let* new_series := alloc (map_values as_float s) in
     let* s := read new_series in
     let* new_series :=
       match pd_resample_mean sample_rate s with
       | inl e => raise e
       | inr s' => alloc s'
       end in
     let* s := read new_series in
     let* new_series := alloc (map_values to_decimal s) in
     let* s := read new_series in
     let* s0 := read (series trace) in
     write new_series (set_name (name s0) s) ;;
     ret (mkTrace new_series (metadata trace)))
    ValueError
    ((* raise SampleError(self.sample_rate) *)
     load_name locals "SampleError" ;;
     load_name locals "self" ;;
     raise (Exc SampleError "self.sample_rate")).

(** ** order_traces *)

(** The cut-off of the numpy at hand, see [np_argsort]. *)
Variable SMALL_QUICKSORT : nat.

(** [t.series.index[0]] *)
Definition first_timestamp (t : ApplianceTrace) : Py V Timestamp :=
  let* s := read (series t) in
  match index s with
  | ts :: _ => ret ts
  | [] => raise (Exc IndexError "index 0 is out of bounds for axis 0 with size 0")
  end.

Definition order_traces (traces : list ApplianceTrace)
    : Py V (list ApplianceTrace) :=
  let* keys := comprehension first_timestamp traces in
  match np_argsort SMALL_QUICKSORT keys with
  | Some order =>
      let* new_traces := comprehension (λ i, getitem traces i) order in
      ret new_traces
  | None => out_of_model
  end.

(** ** get_trace_windows *)

(** [a / b] on Python 2 ints: floor division. *)
Definition int_div (a b : Z) : Py V Z :=
  if decide (b = 0%Z) then
    raise (Exc ZeroDivisionError "integer division or modulo by zero")
  else ret (a / b)%Z.

(** [range(n)] *)
Definition range (n : Z) : list Z := Z.of_nat <$> seq 0 (Z.to_nat n).

(** [l[start:stop]]: negative bounds count from the end, and bounds are
    clipped to the list. *)
Definition slice {A} (l : list A) (start stop : Z) : list A :=
  (let len := Z.of_nat (length l) in
   let clip x := if x <? 0 then Z.max (x + len) 0 else Z.min x len in
   take (Z.to_nat (clip stop - clip start)) (drop (Z.to_nat (clip start)) l))%Z.

(** [np.array(windows, dtype=np.float)]: the rows must have one length. *)
Definition np_array_float (windows : list (list V)) : Py V (list (list V)) :=
  match windows with
  | [] => ret []
  | row :: _ =>
      if forallb (λ r, bool_decide (length r = length row)) windows then
        ret (map (map as_float) windows)
      else raise (Exc ValueError "setting an array element with a sequence.")
  end.

Definition get_trace_windows (trace : ApplianceTrace)
    (window_length window_step : Z) : Py V (list (list V)) :=
  let* s := read (series trace) in
  let total_length := Z.of_nat (length (values s)) in
  let* n_steps := int_div (total_length - window_length) window_step in
  let windows :=
    (λ step, let start := (step * window_step)%Z in
             slice (values s) start (start + window_length)%Z)
    <$> range n_steps in
  np_array_float windows.

End Utils.

(** ** Observations on a world, used to state the properties *)

Section Observations.

Context {V : Type}.

(** The series a trace refers to. *)
Definition series_of (w : world V) (t : ApplianceTrace)
    : option (Series V) :=
  store w !! series t.

(** The sample of a trace at a position. *)
Definition sample_at (w : world V) (t : ApplianceTrace) (j : nat)
    : option V :=
  s ← series_of w t; values s !! j.

(** The sum of a non-empty list of samples, taken left to right. *)
Definition total (add : V → V → V) (xs : list V) : option V :=
  match xs with
  | [] => None
  | x :: xs' => Some (foldl add x xs')
  end.

(** [ks] lists the distinct values of [keys] in ascending order. *)
Definition distinct_ascending (keys ks : list Z) : Prop :=
  StronglySorted Z.lt ks ∧ ∀ k, k ∈ ks ↔ k ∈ keys.

(** What splitting the series [s] of [trace] by a key of the timestamps
    yields from the world [w]: one trace per distinct key, by ascending key;
    trace number [i] refers to a new series object that holds, in their
    original order, the rows of [s] with that key, and carries a copy of the
    source metadata in which [trace_num] is [i]; the series objects of [w]
    are all still there, unchanged, and nothing is printed. *)
Definition splits_by (key : Timestamp → Z) (trace : ApplianceTrace)
    (s : Series V) (w : world V)
    (result : outcome (list ApplianceTrace) * world V) : Prop :=
  ∃ out w' ks,
    result = (Returns out, w')
    ∧ stdout w' = stdout w
    ∧ store w `prefix_of` store w'
    ∧ distinct_ascending (key <$> index s) ks
    ∧ Forall2 (λ t k, length (store w) ≤ series t
                      ∧ ∃ g, series_of w' t = Some g
                             ∧ rows g = filter (λ r, key r.1 = k) (rows s))
        out ks
    ∧ ∀ i t, out !! i = Some t →
             metadata t = <["trace_num" := MInt (Z.of_nat i)]> (metadata trace).

(** The first timestamp of a trace, when its series has one. *)
Definition first_ts (w : world V) (t : ApplianceTrace) : option Timestamp :=
  s ← series_of w t; head (index s).

End Observations.

#[global] Instance ApplianceTrace_inhabited : Inhabited ApplianceTrace :=
  populate (mkTrace 0 ∅).

(** The contract of [np.argsort]: [order] lists every position of [keys]
    once, and reading the keys in that order gives them ascending. *)
Definition sorts (keys : list Z) (order : list nat) : Prop :=
  order ≡ₚ seq 0 (length keys) ∧ Sorted Z.le ((λ i, keys !!! i) <$> order).

(** [np.argsort] meets its contract on [keys]. *)
Definition argsort_ok (SMALL_QUICKSORT : nat) (keys : list Z) : Prop :=
  ∃ order, np_argsort SMALL_QUICKSORT keys = Some order ∧ sorts keys order.

(** What the proof that the sort sorts speaks of. *)
Section ArgsortSpec.

Variable v : list Z.

(** The array holds every position of [v] once. *)
Definition is_order (tosort : list nat) : Prop :=
  tosort ≡ₚ seq 0 (length v).

(** The key behind the cell at position [p]. *)
Definition cell_key (tosort : list nat) (p : nat) : Z :=
  v !!! (tosort !!! p).

(** The array with the cells at [p] and [q] exchanged. *)
Definition swapped (tosort : list nat) (p q : nat) : list nat :=
  <[q := tosort !!! p]> (<[p := tosort !!! q]> tosort).

(** The keys at positions [pl..pr] are ascending. *)
Definition sorted_between (tosort : list nat) (pl pr : nat) : Prop :=
  ∀ a b, pl ≤ a → a ≤ b → b ≤ pr → (cell_key tosort a ≤ cell_key tosort b)%Z.

(** Positions [i] and [j] lie in one of the pending ranges. *)
Definition same_segment (segs : list (nat * nat)) (i j : nat) : Prop :=
  Exists (λ s, s.1 ≤ i ∧ j ≤ s.2) segs.

(** Any two cells that do not lie in one pending range are in order. *)
Definition ordered_outside (segs : list (nat * nat)) (tosort : list nat)
    : Prop :=
  ∀ i j, i < j → j < length v → ¬ same_segment segs i j →
         (cell_key tosort i ≤ cell_key tosort j)%Z.

(** The pending ranges are non-empty, inside the array and disjoint. *)
Fixpoint segments_ok (segs : list (nat * nat)) : Prop :=
  match segs with
  | [] => True
  | s :: segs' =>
      s.1 ≤ s.2 ∧ s.2 < length v
      ∧ Forall (λ s', s.2 < s'.1 ∨ s'.2 < s.1) segs'
      ∧ segments_ok segs'
  end.

(** Iterations of the outer loop that the pending ranges can take. *)
Fixpoint cost (segs : list (nat * nat)) : nat :=
  match segs with
  | [] => 0
  | s :: segs' => 2 * (s.2 - s.1) + 1 + cost segs'
  end.

End ArgsortSpec.

(** ** The other functions of the module *)

(** Modelled from the spec: [appliance.ApplianceType], an ordered sequence
    of instances plus metadata. *)
Record ApplianceType : Type := mkType {
  instances : list ApplianceInstance;
  type_metadata : dict
}.

(** Modelled from the spec: [appliance.ApplianceSet], an ordered sequence
    of instances plus metadata. *)
Record ApplianceSet : Type := mkSet {
  set_instances : list ApplianceInstance;
  set_metadata : dict
}.

(** How [generate_random_appliance_sets] ends: with its sets, with the
    [ValueError] of [random.randrange] on an empty range, or with the
    [UnboundLocalError] of reading [appliance_set] while it is unbound. *)
Inductive sampling : Type :=
  | Sampled (all_sets : list ApplianceSet)
  | EmptyRange
  | UnboundLocal.

Section MoreUtils.

Context {V : Type}.

(** *** get_common_ids *)

(** [sorted(l)] on a list of integers. *)
Definition sorted (l : list Z) : list Z := merge_sort Z.le l.

Definition get_common_ids (id_lists : list (list Z)) : Py V (list Z) :=
  let id_sets := (λ id_list, list_to_set id_list : gset Z) <$> id_lists in
  let* common_ids := getitem id_sets 0 in
  let common_ids :=
    foldl (λ common_ids id_set, common_ids ∩ id_set) common_ids
      (drop 1 id_sets) in
  ret (sorted (elements common_ids)).

(** *** get_train_valid_test_indices *)

(** [np.random.shuffle]: what the array holds afterwards. *)
Variable shuffle : list Z → list Z.

(** The result, or [None] for the [AssertionError] of the [assert].
    [indices[:a]] is [slice indices 0 a] and [indices[a:]] runs to the
    length of [indices]. *)
Definition get_train_valid_test_indices (n : Z)
    : option (list Z * list Z * list Z) :=
  let indices := shuffle (range n) in
  let n_train := (n / 2)%Z in
  let n_valid := (n / 4)%Z in
  let n_test := (n - n_train - n_valid)%Z in
  if decide (n = n_train + n_valid + n_test)%Z then
    Some (sorted (slice indices 0 n_train),
          sorted (slice indices n_train (n_train + n_valid)),
          sorted (slice indices (n_train + n_valid)
                    (Z.of_nat (length indices))))
  else None.

(** *** split_instance_traces_into_rate, split_type_traces_into_rate *)

(** [for trace in ts: traces.extend(split_trace_into_rate(trace, rate))] *)
Fixpoint split_traces_loop (ts : list ApplianceTrace) (rate : string)
    (traces : list ApplianceTrace) : Py V (list ApplianceTrace) :=
  match ts with
  | [] => ret traces
  | trace :: ts' =>
      let* new_traces := split_trace_into_rate trace rate in
      split_traces_loop ts' rate (traces ++ new_traces)
  end.

Definition split_instance_traces_into_rate
    (device_instance : ApplianceInstance) (rate : string)
    : Py V ApplianceInstance :=
  let* traces := split_traces_loop (traces device_instance) rate [] in
  ret (mkInstance traces (instance_metadata device_instance)).

Definition split_type_traces_into_rate (device_type : ApplianceType)
    (rate : string) : Py V ApplianceType :=
  let* instances :=
    comprehension (λ instance, split_instance_traces_into_rate instance rate)
      (instances device_type) in
  ret (mkType instances (type_metadata device_type)).

(** *** concatenate_traces_lists *)

(** [[trace.metadata for trace in traces[0]]] *)
Definition first_list_metadata (traces : list (list ApplianceTrace))
    : Py V (list dict) :=
  let* l := getitem traces 0 in ret (metadata <$> l).

Definition concatenate_traces_lists (traces : list (list ApplianceTrace))
    (metadata : option (list dict)) (how : string)
    : Py V (list ApplianceTrace) :=
  let* metadata :=
    match metadata with
    | Some (m :: ms) => ret (m :: ms)
    | _ => first_list_metadata traces
    end in
  if decide (how = "strict") then
    let traces := zip_star traces in
    let* traces :=
      comprehension (λ tm, concatenate_traces tm.1 (Some tm.2) "strict")
        (zip traces metadata) in
    ret traces
  else
    raise (Exc NotImplementedError "").

(** *** resample_instance_traces, resample_type_traces *)

Variable as_float : V → V.
Variable to_decimal : V → V.
Variable pd_resample_mean : string → Series V → exn + Series V.

Definition resample_instance_traces (device_instance : ApplianceInstance)
    (sample_rate : string) : Py V ApplianceInstance :=
  let* new_traces :=
    comprehension
      (λ trace, resample_trace as_float to_decimal pd_resample_mean trace
                  sample_rate)
      (traces device_instance) in
  ret (mkInstance new_traces (instance_metadata device_instance)).

Definition resample_type_traces (device_type : ApplianceType)
    (sample_rate : string) : Py V ApplianceType :=
  let* new_instances :=
    comprehension (λ instance, resample_instance_traces instance sample_rate)
      (instances device_type) in
  ret (mkType new_instances (type_metadata device_type)).

End MoreUtils.

#[global] Instance ApplianceInstance_inhabited : Inhabited ApplianceInstance :=
  populate (mkInstance [] ∅).

(** *** generate_random_appliance_sets *)

Section RandomSets.

(** The random source: call number [c] of [random.randrange(bound)] lands
    on [draws c mod bound]. *)
Variable draws : nat → nat.

(** [random.randrange(bound)]; [None] is the [ValueError] for an empty
    range. *)
Definition randrange (c : nat) (bound : nat) : option nat :=
  if decide (bound = 0) then None else Some (draws c `mod` bound).

(** The metadata every generated set gets. *)
Definition random_sample_metadata : dict :=
  {["name" := MNone; "source" := MStr "random sample"]}.

(** The inner loop, [for _ in xrange(k)], with [k] rounds to go; [c] counts
    the calls of [randrange], [appliance_set] is what the local variable of
    that name is bound to, [None] when it is unbound.  The result [None] is
    the [ValueError]. *)
Fixpoint sample_instances (all_instances : list ApplianceInstance) (k : nat)
    (c : nat) (instances : list ApplianceInstance)
    (appliance_set : option ApplianceSet)
    : option (option ApplianceSet * nat) :=
  match k with
  | 0 => Some (appliance_set, c)
  | S k' =>
      match randrange c (length all_instances) with
      | None => None
      | Some i =>
          match all_instances !! i with
          | Some instance =>
              let instances := instances ++ [instance] in
              let metadata := random_sample_metadata in
              let appliance_set := mkSet instances metadata in
              sample_instances all_instances k' (S c) instances
                (Some appliance_set)
          | None => None  (* not reached: the draw is below the length *)
          end
      end
  end.

(** The outer loop, [for _ in xrange(n)], with [n] rounds to go. *)
Fixpoint sample_sets (all_instances : list ApplianceInstance) (k n : nat)
    (c : nat) (appliance_set : option ApplianceSet)
    (all_sets : list ApplianceSet) : sampling :=
  match n with
  | 0 => Sampled all_sets
  | S n' =>
      match sample_instances all_instances k c [] appliance_set with
      | None => EmptyRange
      | Some (None, _) => UnboundLocal
      | Some (Some appliance_set, c') =>
          sample_sets all_instances k n' c' (Some appliance_set)
            (all_sets ++ [appliance_set])
      end
  end.

(** The list comprehension that builds [all_instances] runs in the scope
    of the function (Python 2): when it is done its loop variable
    [appliance_set] is still bound, to the last of the given sets, and it is
    unbound only if no set was given.  That is the local variable the loops
    assign and [all_sets.append(appliance_set)] reads. *)
Definition generate_random_appliance_sets
    (appliance_sets : list ApplianceSet) (k n : Z) : sampling :=
  let all_instances :=
    appliance_set ← appliance_sets; set_instances appliance_set in
  let appliance_set := last appliance_sets in
  sample_sets all_instances (Z.to_nat k) (Z.to_nat n) 0 appliance_set [].

(** The instances picked by [k] consecutive draws, from draw number [c]
    on. *)
Definition picks (pool : list ApplianceInstance) (c k : nat)
    : list ApplianceInstance :=
  (λ i, pool !!! (draws (c + i) `mod` length pool)) <$> seq 0 k.

End RandomSets.


(** ** More observations *)

Section MoreObservations.

Context {V : Type}.

(** The position-wise sum of a non-empty list of aligned series, taken
    left to right. *)
Definition sum_columns (add : V → V → V) (ss : list (Series V))
    : option (list V) :=
  match ss with
  | [] => None
  | s :: ss' => Some (foldl (zip_with add) (values s) (values <$> ss'))
  end.

(** [out] is the split of the series [s] of [trace] by a key of the
    timestamps, as found in the world [w']: one trace per distinct key, by
    ascending key, trace number [i] holding in their original order the
    rows of [s] with that key and carrying the source metadata with
    [trace_num] set to [i]. *)
Definition split_of (key : Timestamp → Z) (trace : ApplianceTrace)
    (s : Series V) (w' : world V) (out : list ApplianceTrace) : Prop :=
  ∃ ks,
    distinct_ascending (key <$> index s) ks
    ∧ Forall2 (λ t k, ∃ g, series_of w' t = Some g
                           ∧ rows g = filter (λ r, key r.1 = k) (rows s))
        out ks
    ∧ ∀ i t, out !! i = Some t →
             metadata t = <["trace_num" := MInt (Z.of_nat i)]> (metadata trace).

(** The key [split_trace_into_rate] groups by, for the two tokens it
    knows. *)
Definition rate_key (rate : string) : Timestamp → Z :=
  if decide (rate = "D") then date_of else week_of.

End MoreObservations.

(** ** Running computations *)

Section MonadFacts.

Context {V : Type}.
Implicit Types w : world V.

Lemma world_eta w : mkWorld (store w) (stdout w) = w.
Proof. by destruct w. Qed.

Lemma bind_returns {A B} (m : Py V A) (k : A → Py V B) w a w' :
  m w = (Returns a, w') → bind m k w = k a w'.
Proof. intros H. unfold bind. by rewrite H. Qed.

Lemma read_series_of w t s :
  series_of w t = Some s → read (series t) w = (Returns s, w).
Proof. unfold series_of, read. by intros ->. Qed.

Lemma comprehension_read w ts ss :
  Forall2 (λ t s, series_of w t = Some s) ts ss →
  comprehension (λ t, read (series t)) ts w = (Returns ss, w).
Proof.
  induction 1 as [|t s ts ss Hs _ IH]; [done|].
  cbn [comprehension].
  rewrite (bind_returns _ _ _ _ _ (read_series_of _ _ _ Hs)).
  by rewrite (bind_returns _ _ _ _ _ IH).
Qed.

End MonadFacts.

(** ** aggregate_traces: the strict sum *)

Section Aggregate.

Context {V : Type} (add : V → V → V).
Implicit Types w : world V.

Lemma series_add_index (a b s : Series V) :
  series_add add a b = Some s → index s = index a.
Proof.
  unfold series_add. case_decide as Hi; [|done]. intros [= <-].
  unfold index, values in *. cbn.
  apply (f_equal length) in Hi. rewrite !length_fmap in Hi.
  revert Hi. generalize (rows b). induction (rows a) as [|r ra IH];
    intros [|r' rb] Hl; simplify_eq/=; [done|]. f_equal. by apply IH.
Qed.

Lemma series_add_values (a b s : Series V) :
  series_add add a b = Some s → values s = zip_with add (values a) (values b).
Proof.
  unfold series_add. case_decide as Hi; [|done]. intros [= <-].
  unfold values. cbn. clear Hi. generalize (rows b).
  induction (rows a) as [|r ra IH]; intros [|r' rb]; cbn; [done..|].
  f_equal. apply IH.
Qed.

Lemma series_add_aligned (a b : Series V) :
  index a = index b → is_Some (series_add add a b).
Proof. intros H. unfold series_add. rewrite decide_True; eauto. Qed.

Lemma iadd_in_place (self other : loc) w (a b s : Series V) :
  store w !! self = Some a →
  store w !! other = Some b →
  series_add add a b = Some s →
  iadd add true self other w
  = (Returns self, mkWorld (<[self := s]> (store w)) (stdout w)).
Proof.
  intros Ha Hb Hs. unfold iadd, bind, read, write, ret.
  by rewrite Ha, Hb, Hs.
Qed.

Lemma iadd_rebinding (self other : loc) w (a b s : Series V) :
  store w !! self = Some a →
  store w !! other = Some b →
  series_add add a b = Some s →
  iadd add false self other w
  = (Returns (length (store w)), mkWorld (store w ++ [s]) (stdout w)).
Proof.
  intros Ha Hb Hs. unfold iadd, bind, read, alloc.
  by rewrite Ha, Hb, Hs.
Qed.

(** The accumulation loop in place: the object at [l0] ends up holding the
    running sum, every other object is left as it was. *)
Lemma sum_loop_in_place (l0 : loc) rest :
  ∀ ss acc w,
    store w !! l0 = Some acc →
    Forall2 (λ t s, series t ≠ l0 ∧ store w !! series t = Some s
                    ∧ index s = index acc) rest ss →
    ∃ acc',
      sum_loop add true l0 rest w
      = (Returns l0, mkWorld (<[l0 := acc']> (store w)) (stdout w))
      ∧ index acc' = index acc
      ∧ values acc' = foldl (zip_with add) (values acc) (values <$> ss).
Proof.
  induction rest as [|t rest IH]; intros ss acc w Hacc Hall.
  - inversion Hall; subst. exists acc. cbn.
    rewrite list_insert_id by done. by rewrite world_eta.
  - inversion Hall as [|? s ? ss' (Hne & Hs & Hidx) Hrest]; subst.
    destruct (series_add_aligned acc s) as [acc1 Hadd]; [done|].
    set (w1 := mkWorld (<[l0 := acc1]> (store w)) (stdout w)).
    assert (Hlt : l0 < length (store w)) by by eapply lookup_lt_Some.
    destruct (IH ss' acc1 w1) as (acc' & Hrun & Hi & Hv).
    { cbn. by apply list_lookup_insert_eq. }
    { eapply Forall2_impl; [exact Hrest|]. cbn.
      intros t' s' (Hne' & Hs' & Hidx'). split_and!; [done|..].
      - by rewrite list_lookup_insert_ne.
      - rewrite Hidx'. symmetry. by eapply series_add_index. }
    exists acc'. split_and!.
    + cbn [sum_loop].
      rewrite (bind_returns _ _ _ _ _
                 (iadd_in_place _ _ _ _ _ _ Hacc Hs Hadd)).
      fold w1. rewrite Hrun. cbn. by rewrite list_insert_insert_eq.
    + rewrite Hi. by eapply series_add_index.
    + rewrite Hv. cbn. f_equal. by apply series_add_values.
Qed.

(** The accumulation loop when [+=] rebinds: the running sums are new
    objects, the existing ones are all left as they were. *)
Lemma sum_loop_rebinding rest :
  ∀ ss l acc w,
    store w !! l = Some acc →
    Forall2 (λ t s, store w !! series t = Some s ∧ index s = index acc)
      rest ss →
    ∃ l' acc' fresh,
      sum_loop add false l rest w
      = (Returns l', mkWorld (store w ++ fresh) (stdout w))
      ∧ (store w ++ fresh) !! l' = Some acc'
      ∧ index acc' = index acc
      ∧ values acc' = foldl (zip_with add) (values acc) (values <$> ss).
Proof.
  induction rest as [|t rest IH]; intros ss l acc w Hacc Hall.
  - inversion Hall; subst. exists l, acc, []. cbn.
    by rewrite !app_nil_r, world_eta.
  - inversion Hall as [|? s ? ss' (Hs & Hidx) Hrest]; subst.
    destruct (series_add_aligned acc s) as [acc1 Hadd]; [done|].
    set (w1 := mkWorld (store w ++ [acc1]) (stdout w)).
    destruct (IH ss' (length (store w)) acc1 w1)
      as (l' & acc' & fresh & Hrun & Hl' & Hi & Hv).
    { cbn. by apply list_lookup_middle. }
    { eapply Forall2_impl; [exact Hrest|]. cbn.
      intros t' s' (Hs' & Hidx'). split.
      - rewrite lookup_app_l; [done|]. by eapply lookup_lt_Some.
      - rewrite Hidx'. symmetry. by eapply series_add_index. }
    exists l', acc', (acc1 :: fresh). cbn in Hrun, Hl'.
    rewrite <- app_assoc in Hrun, Hl'. split_and!.
    + cbn [sum_loop].
      rewrite (bind_returns _ _ _ _ _
                 (iadd_rebinding _ _ _ _ _ _ Hacc Hs Hadd)).
      by fold w1.
    + done.
    + rewrite Hi. by eapply series_add_index.
    + rewrite Hv. cbn. f_equal. by apply series_add_values.
Qed.

(** Either way the loop ends bound to a series that holds the sum. *)
Lemma sum_loop_sum (inplace_ops : bool) (l0 : loc) rest ss acc w :
  store w !! l0 = Some acc →
  Forall2 (λ t s, (inplace_ops = true → series t ≠ l0)
                  ∧ store w !! series t = Some s
                  ∧ index s = index acc) rest ss →
  ∃ l' w' acc',
    sum_loop add inplace_ops l0 rest w = (Returns l', w')
    ∧ store w' !! l' = Some acc'
    ∧ index acc' = index acc
    ∧ values acc' = foldl (zip_with add) (values acc) (values <$> ss)
    ∧ (inplace_ops = false → store w `prefix_of` store w').
Proof.
  intros Hacc Hall. destruct inplace_ops.
  - destruct (sum_loop_in_place l0 rest ss acc w Hacc)
      as (acc' & Hrun & Hi & Hv).
    { eapply Forall2_impl; [exact Hall|]. cbn.
      intros t s (Hne & Hs & Hi). split; [by apply Hne|done]. }
    eexists _, _, acc'. split; [exact Hrun|]. cbn.
    split_and!; [|done..].
    apply list_lookup_insert_eq. by eapply lookup_lt_Some.
  - destruct (sum_loop_rebinding rest ss l0 acc w Hacc)
      as (l' & acc' & fresh & Hrun & Hl' & Hi & Hv).
    { eapply Forall2_impl; [exact Hall|]. cbn.
      intros t s (_ & Hs & Hi). by split. }
    eexists _, _, acc'. split; [exact Hrun|]. cbn.
    split_and!; [done..|]. intros _. by apply prefix_app_r.
Qed.

(** Position by position, folding [zip_with add] over aligned columns is
    folding [add] over the samples. *)
Lemma foldl_zip_with_lookup (j : nat) (yss : list (list V)) :
  ∀ xs x ys,
    xs !! j = Some x →
    Forall2 (λ col y, col !! j = Some y) yss ys →
    foldl (zip_with add) xs yss !! j = Some (foldl add x ys).
Proof.
  induction yss as [|col yss IH]; intros xs x ys Hx Hall;
    inversion Hall; subst; cbn; [done|].
  apply IH; [|done]. rewrite lookup_zip_with. by simplify_option_eq.
Qed.

Lemma values_length (s : Series V) : length (values s) = length (index s).
Proof. unfold values, index. by rewrite !length_fmap. Qed.

(** X25. For every non-empty list [t0 :: rest] of k temporally aligned
    traces (all series carry the same timestamps [idx], in the same order)
    and any metadata mapping, [aggregate_traces] with [how="strict"] returns
    one trace that carries the supplied metadata and whose series has the
    timestamps, hence the length, of the inputs, its sample at every
    position being the sum of the k input samples at that position,
    provided that, where [+=] works in place, the series object of the first
    trace is not the series object of a later one. *)
Theorem aggregate_traces_strict_sum
    (inplace_ops : bool) (t0 : ApplianceTrace) (rest : list ApplianceTrace)
    (md : dict) (idx : list Timestamp) w :
  Forall (λ t, ∃ s, series_of w t = Some s ∧ index s = idx) (t0 :: rest) →
  (inplace_ops = true → series t0 ∉ series <$> rest) →
  ∃ tr w' s',
    aggregate_traces add inplace_ops (t0 :: rest) md "strict" w
    = (Returns (PTrace tr), w')
    ∧ metadata tr = md
    ∧ series_of w' tr = Some s'
    ∧ index s' = idx
    ∧ length (values s') = length idx
    ∧ ∀ j, j < length idx →
        ∃ xs, mapM (λ t, sample_at w t j) (t0 :: rest) = Some xs
              ∧ length xs = length (t0 :: rest)
              ∧ values s' !! j = total add xs.
Proof.
  intros Hal Hdist.
  apply Forall_cons in Hal as [(s0 & Hs0 & Hi0) Hal].
  assert (∃ ss, Forall2 (λ t s, (inplace_ops = true → series t ≠ series t0)
                                ∧ store w !! series t = Some s
                                ∧ index s = index s0) rest ss)
    as [ss Hss].
  { clear Hs0. induction Hal as [|t rest (s & Hs & Hi) _ IH];
      [by exists []|].
    destruct IH as [ss Hss].
    - intros Hin ?. apply Hdist; [done|]. rewrite fmap_cons. by right.
    - exists (s :: ss). constructor; [|done]. split_and!; [|done|congruence].
      intros Hin Heq. apply Hdist; [done|]. rewrite fmap_cons, Heq. by left. }
  destruct (sum_loop_sum inplace_ops (series t0) rest ss s0 w Hs0 Hss)
    as (l' & w' & acc & Hrun & Hl' & Hi & Hv & _).
  exists (mkTrace l' md), w', acc.
  split_and!.
  - unfold aggregate_traces. rewrite decide_True by done.
    rewrite (bind_returns _ _ w t0 w) by done. cbn [drop].
    by rewrite (bind_returns _ _ _ _ _ Hrun).
  - done.
  - done.
  - congruence.
  - rewrite values_length. congruence.
  - intros j Hj.
    destruct (lookup_lt_is_Some_2 (values s0) j) as [x Hx].
    { rewrite values_length. congruence. }
    assert (∃ ys, Forall2 (λ col y, col !! j = Some y) (values <$> ss) ys
                  ∧ Forall2 (λ t y, sample_at w t j = Some y) rest ys)
      as (ys & Hcols & Hys).
    { clear Hrun Hv Hal Hdist.
      induction Hss as [|t s rest ss (_ & Hs & Hsi) _ IH].
      - exists []. by split; constructor.
      - destruct IH as (ys & ? & ?).
        destruct (lookup_lt_is_Some_2 (values s) j) as [y Hy].
        { rewrite values_length. congruence. }
        exists (y :: ys). split; constructor; try done.
        unfold sample_at, series_of. by rewrite Hs. }
    exists (x :: ys). split_and!.
    + apply mapM_Some_2. constructor; [|done].
      unfold sample_at. by rewrite Hs0.
    + cbn. f_equal. symmetry. by eapply Forall2_length.
    + rewrite Hv. cbn. by apply foldl_zip_with_lookup.
Qed.

(** Where [+=] rebinds, the inputs are all left as they were. *)
Lemma aggregate_traces_rebinding_keeps_inputs
    (t0 : ApplianceTrace) (rest : list ApplianceTrace) (md : dict)
    (idx : list Timestamp) w :
  Forall (λ t, ∃ s, series_of w t = Some s ∧ index s = idx) (t0 :: rest) →
  ∃ tr w',
    aggregate_traces add false (t0 :: rest) md "strict" w
    = (Returns (PTrace tr), w')
    ∧ ∀ t s, series_of w t = Some s → series_of w' t = Some s.
Proof.
  intros Hal. apply Forall_cons in Hal as [(s0 & Hs0 & Hi0) Hal].
  assert (∃ ss, Forall2 (λ t s, (false = true → series t ≠ series t0)
                                ∧ store w !! series t = Some s
                                ∧ index s = index s0) rest ss)
    as [ss Hss].
  { clear Hs0. induction Hal as [|t rest (s & Hs & Hi) _ [ss IH]];
      [by exists []|].
    exists (s :: ss). constructor; [|done]. split_and!; [done|done|congruence]. }
  destruct (sum_loop_sum false (series t0) rest ss s0 w Hs0 Hss)
    as (l' & w' & acc & Hrun & _ & _ & _ & Hpre).
  exists (mkTrace l' md), w'. split.
  - unfold aggregate_traces. rewrite decide_True by done.
    rewrite (bind_returns _ _ w t0 w) by done. cbn [drop].
    by rewrite (bind_returns _ _ _ _ _ Hrun).
  - intros t s Hs. unfold series_of in *.
    destruct (Hpre eq_refl) as [fresh ->]. by apply lookup_app_l_Some.
Qed.

End Aggregate.

(** Three aligned traces in three series objects. *)
Lemma aggregate_traces_strict_sum_witness :
  let w := mkWorld [mkSeries [(0, 1); (60, 2)]%Z None;
                    mkSeries [(0, 10); (60, 20)]%Z None;
                    mkSeries [(0, 100); (60, 200)]%Z None] [] in
  ∃ tr w' s',
    aggregate_traces Z.add true [mkTrace 0 ∅; mkTrace 1 ∅; mkTrace 2 ∅]
      {["name" := MStr "total"]} "strict" w
    = (Returns (PTrace tr), w')
    ∧ metadata tr = {["name" := MStr "total"]}
    ∧ series_of w' tr = Some s'
    ∧ index s' = [0; 60]%Z
    ∧ length (values s') = 2
    ∧ ∀ j, j < 2 →
        ∃ xs, mapM (λ t, sample_at w t j)
                [mkTrace 0 ∅; mkTrace 1 ∅; mkTrace 2 ∅] = Some xs
              ∧ length xs = 3
              ∧ values s' !! j = total Z.add xs.
Proof.
  intros w.
  apply (aggregate_traces_strict_sum Z.add true (mkTrace 0 ∅)
           [mkTrace 1 ∅; mkTrace 2 ∅] {["name" := MStr "total"]} [0; 60]%Z w).
  - repeat (constructor; [eexists; split; reflexivity|]). constructor.
  - intros _. cbn. rewrite !not_elem_of_cons. split_and!; [lia..|apply not_elem_of_nil].
Defined.

(** C1. With the in-place [+=] of pandas, [aggregate_traces] does not
    return the sum of its inputs when the series object of the first trace
    is also the series object of a later trace: the loop then adds the
    running sum to itself.  Of three aligned traces holding the samples
    [1, 2], [10, 20] and [1, 2], the first and the third sharing one series
    object, the sums are [12, 24]; the trace returned holds [22, 44].  The
    defect is the one of C2: the sum is accumulated in the series object of
    the first input. *)
Theorem aggregate_traces_shared_series_not_sum :
  let w := mkWorld [mkSeries [(0, 1); (60, 2)]%Z None;
                    mkSeries [(0, 10); (60, 20)]%Z None] [] in
  let t0 := mkTrace 0 {["name" := MStr "a"]} in
  let t1 := mkTrace 1 {["name" := MStr "b"]} in
  let t2 := mkTrace 0 {["name" := MStr "c"]} in
  Forall (λ t, ∃ s, series_of w t = Some s ∧ index s = [0; 60]%Z) [t0; t1; t2]
  ∧ mapM (λ j, mapM (λ t, sample_at w t j) [t0; t1; t2] ≫= total Z.add)
      [0; 1] = Some [12; 24]%Z
  ∧ ∃ tr w',
      aggregate_traces Z.add true [t0; t1; t2] ∅ "strict" w
      = (Returns (PTrace tr), w')
      ∧ values <$> series_of w' tr = Some [22; 44]%Z.
Proof.
  intros w t0 t1 t2. split_and!.
  - repeat (constructor; [eexists; split; reflexivity|]). constructor.
  - reflexivity.
  - exists (mkTrace 0 ∅),
           (mkWorld [mkSeries [(0, 22); (60, 44)]%Z None;
                     mkSeries [(0, 10); (60, 20)]%Z None] []).
    by split.
Qed.

(** C2. With the in-place [+=] of pandas, [aggregate_traces] does not
    leave its inputs unchanged: the sum is accumulated in the series object
    of the first trace.  After aggregating two aligned traces holding the
    samples [1, 2] and [10, 20], the first input trace holds [11, 22]; the
    returned trace is the same series object. *)
Theorem aggregate_traces_overwrites_first_input :
  let w := mkWorld [mkSeries [(0, 1); (60, 2)]%Z None;
                    mkSeries [(0, 10); (60, 20)]%Z None] [] in
  let t0 := mkTrace 0 ∅ in
  let t1 := mkTrace 1 ∅ in
  ∃ tr w',
    aggregate_traces Z.add true [t0; t1] ∅ "strict" w
    = (Returns (PTrace tr), w')
    ∧ values <$> series_of w t0 = Some [1; 2]%Z
    ∧ values <$> series_of w' t0 = Some [11; 22]%Z
    ∧ series tr = series t0.
Proof.
  exists (mkTrace 0 ∅),
         (mkWorld [mkSeries [(0, 11); (60, 22)]%Z None;
                   mkSeries [(0, 10); (60, 20)]%Z None] []).
  by split_and!.
Qed.

(** When the same trace object is passed three times and [+=] works in
    place, the loop reads the series it is writing, and the result is four
    times the input, not three times. *)
Example aggregate_traces_same_trace_three_times :
  let w := mkWorld [mkSeries [(0, 1); (60, 2)]%Z None] [] in
  let t := mkTrace 0 ∅ in
  ∃ tr w',
    aggregate_traces Z.add true [t; t; t] ∅ "strict" w
    = (Returns (PTrace tr), w')
    ∧ values <$> series_of w' tr = Some [4; 8]%Z.
Proof.
  exists (mkTrace 0 ∅), (mkWorld [mkSeries [(0, 4); (60, 8)]%Z None] []).
  by split_and!.
Qed.

(** ** concatenate_traces *)

Section Concatenate.

Context {V : Type}.
Implicit Types w : world V.



Lemma series_of_all w ts :
  Forall (λ t, is_Some (series_of w t)) ts →
  ∃ ss, Forall2 (λ t s, series_of w t = Some s) ts ss.
Proof.
  induction 1 as [|t ts [s Hs] _ [ss IH]]; [by exists []|].
  exists (s :: ss). by constructor.
Qed.

(** The strict branch, once the metadata is settled. *)
Lemma concatenate_strict_run w t0 rest md md' ss :
  Forall2 (λ t s, series_of w t = Some s) (t0 :: rest) ss →
  (match md with
   | Some m => if truthy md then ret m else first_metadata (t0 :: rest)
   | None => first_metadata (t0 :: rest)
   end) w = (Returns md', w) →
  concatenate_traces (t0 :: rest) md "strict" w
  = (Returns (mkTrace (length (store w)) md'),
     mkWorld (store w ++ [mkSeries (concat (rows <$> ss))
                                   (consensus_name ss)]) (stdout w)).
Proof.
  intros Hss Hmd. unfold concatenate_traces.
  rewrite (bind_returns _ _ _ _ _ Hmd). rewrite decide_True by done.
  rewrite (bind_returns _ _ _ _ _ (comprehension_read _ _ _ Hss)).
  inversion Hss; subst. done.
Qed.


(** C10. For every non-empty list of traces, [concatenate_traces] called
    with an explicitly supplied empty mapping as metadata behaves as when
    the argument is left out, and in strict mode it returns a trace
    carrying the metadata of the first input trace, not the empty mapping:
    the default is taken whenever the argument is false. *)
Theorem concatenate_traces_empty_metadata
    (t0 : ApplianceTrace) (rest : list ApplianceTrace) (how : string) w :
  Forall (λ t, is_Some (series_of w t)) (t0 :: rest) →
  concatenate_traces (t0 :: rest) (Some ∅) how w
  = concatenate_traces (t0 :: rest) None how w
  ∧ ∃ tr w',
      concatenate_traces (t0 :: rest) (Some ∅) "strict" w = (Returns tr, w')
      ∧ metadata tr = metadata t0.
Proof.
  intros Hall. split; [done|].
  destruct (series_of_all _ _ Hall) as [ss Hss].
  eexists _, _. split.
  - by apply (concatenate_strict_run w t0 rest (Some ∅) (metadata t0) ss).
  - done.
Qed.

(** A supplied non-empty mapping is the one carried. *)
Lemma concatenate_traces_given_metadata
    (t0 : ApplianceTrace) (rest : list ApplianceTrace) (m : dict) w :
  Forall (λ t, is_Some (series_of w t)) (t0 :: rest) →
  m ≠ ∅ →
  ∃ tr w',
    concatenate_traces (t0 :: rest) (Some m) "strict" w = (Returns tr, w')
    ∧ metadata tr = m.
Proof.
  intros Hall Hm. destruct (series_of_all _ _ Hall) as [ss Hss].
  eexists _, _. split.
  - apply (concatenate_strict_run w t0 rest (Some m) m ss); [done|].
    cbn. by rewrite bool_decide_true.
  - done.
Qed.

End Concatenate.

(** ** Modes other than "strict" *)

Section NotImplemented.

Context {V : Type} (add : V → V → V).
Implicit Types w : world V.

(** C9, as the code has it.  With a [how] other than ["strict"],
    [aggregate_traces] and [aggregate_instances] return the class
    [NotImplementedError] and touch nothing; [concatenate_traces] raises
    [NotImplementedError] and touches nothing, provided the list of traces
    is not empty or a non-empty metadata mapping was supplied (the
    metadata default is computed before the mode is looked at). *)
Theorem non_strict_not_implemented (how : string) :
  how ≠ "strict" →
  (∀ inplace_ops traces md w,
     aggregate_traces add inplace_ops traces md how w
     = (Returns (PClass NotImplementedError), w))
  ∧ (∀ inplace_ops instances md w,
       aggregate_instances add inplace_ops instances md how w
       = (Returns (PClass NotImplementedError), w))
  ∧ (∀ traces md w,
       traces ≠ [] ∨ truthy md = true →
       concatenate_traces traces md how w
       = (Raises (Exc NotImplementedError ""), w)).
Proof.
  intros Hhow. split_and!.
  - intros. unfold aggregate_traces. by rewrite decide_False.
  - intros. unfold aggregate_instances. by rewrite decide_False.
  - intros traces md w Hok. unfold concatenate_traces.
    assert (∃ m, (match md with
                  | Some m => if truthy md then ret m
                              else first_metadata traces
                  | None => first_metadata traces
                  end) w = (Returns m, w)) as [m Hm].
    { destruct md as [m|].
      - destruct (truthy (Some m)) eqn:Ht; [by exists m|].
        destruct Hok as [Hne|?]; [|done].
        destruct traces as [|t0 ?]; [done|]. by exists (metadata t0).
      - destruct Hok as [Hne|?]; [|done].
        destruct traces as [|t0 ?]; [done|]. by exists (metadata t0). }
    rewrite (bind_returns _ _ _ _ _ Hm). by rewrite decide_False.
Qed.

End NotImplemented.

Lemma non_strict_not_implemented_witness :
  (∀ inplace_ops traces md (w : world Z),
     aggregate_traces Z.add inplace_ops traces md "loose" w
     = (Returns (PClass NotImplementedError), w))
  ∧ (∀ inplace_ops instances md (w : world Z),
       aggregate_instances Z.add inplace_ops instances md "loose" w
       = (Returns (PClass NotImplementedError), w))
  ∧ (∀ traces md (w : world Z),
       traces ≠ [] ∨ truthy md = true →
       concatenate_traces traces md "loose" w
       = (Raises (Exc NotImplementedError ""), w)).
Proof. apply (non_strict_not_implemented Z.add "loose"). discriminate. Defined.

(** C9 as stated fails for [concatenate_traces]: with an empty list of
    traces and no metadata, [traces[0]] raises [IndexError] before the mode
    is looked at, and no [NotImplementedError] is signalled. *)
Lemma concatenate_traces_non_strict_empty_list :
  let w : world Z := mkWorld [] [] in
  concatenate_traces [] None "loose" w
  = (Raises (Exc IndexError "list index out of range"), w)
  ∧ ∀ arg, (concatenate_traces [] None "loose" w).1
           ≠ Raises (Exc NotImplementedError arg).
Proof. split; [done|]. intros arg. cbn. discriminate. Qed.


Lemma concatenate_traces_empty_metadata_witness :
  let w := mkWorld [mkSeries [(0, 1); (60, 2)]%Z (Some "use");
                    mkSeries [(120, 3)]%Z (Some "use")] [] in
  let t0 := mkTrace 0 {["name" := MStr "fridge"]} in
  let t1 := mkTrace 1 ∅ in
  concatenate_traces [t0; t1] (Some ∅) "strict" w
  = concatenate_traces [t0; t1] None "strict" w
  ∧ ∃ tr w',
      concatenate_traces [t0; t1] (Some ∅) "strict" w = (Returns tr, w')
      ∧ metadata tr = metadata t0.
Proof.
  intros w t0 t1. apply (concatenate_traces_empty_metadata t0 [t1] "strict" w).
  repeat (constructor; [by eexists|]). constructor.
Defined.

(** ** get_trace_windows *)

Section Windows.

Context {V : Type} (as_float : V → V).
Implicit Types w : world V.

Lemma slice_inside {A} (l : list A) (start len : Z) :
  (0 ≤ start)%Z → (0 ≤ len)%Z → (start + len ≤ Z.of_nat (length l))%Z →
  slice l start (start + len) = take (Z.to_nat len) (drop (Z.to_nat start) l).
Proof.
  intros Hs Hl Hle. unfold slice.
  rewrite (proj2 (Z.ltb_ge (start + len) 0)) by lia.
  rewrite (proj2 (Z.ltb_ge start 0)) by lia.
  rewrite !Z.min_l by lia. do 2 f_equal. lia.
Qed.

Lemma range_nat (n : Z) : range n = Z.of_nat <$> seq 0 (Z.to_nat n).
Proof. done. Qed.

(** Below the computed number of steps every window lies inside the
    series. *)
Lemma window_inside (L wl ws : Z) (i : nat) :
  (0 < ws)%Z → (0 < wl)%Z → i < Z.to_nat ((L - wl) / ws) →
  (Z.of_nat i * ws + wl ≤ L - ws)%Z.
Proof.
  intros Hws Hwl Hi.
  pose proof (Z.mul_div_le (L - wl) ws Hws) as Hq.
  assert (Z.of_nat i + 1 ≤ (L - wl) / ws)%Z as Hi' by lia.
  nia.
Qed.

Lemma np_array_float_rect (n : nat) (windows : list (list V)) w :
  Forall (λ r, length r = n) windows →
  np_array_float as_float windows w = (Returns (map (map as_float) windows), w).
Proof.
  intros Hall. unfold np_array_float. destruct windows as [|row rest]; [done|].
  assert (forallb (λ r, bool_decide (length r = length row)) (row :: rest)
          = true) as ->; [|done].
  apply forallb_forall. intros r Hr. apply bool_decide_eq_true.
  rewrite Forall_forall in Hall.
  rewrite (Hall r), (Hall row); [done|by left|by apply list_elem_of_In].
Qed.

(** C4. For every trace of series length L and positive integers
    [window_length] and [window_step], [get_trace_windows] returns, without
    failing and without touching the world, a 2D array whose number of rows
    is floor((L - window_length) / window_step), or zero when that number is
    zero or negative (the array is then empty); row i holds the
    [window_length] consecutive samples that start at offset
    i * window_step, converted to float. *)
Theorem get_trace_windows_rows
    (trace : ApplianceTrace) (s : Series V) (window_length window_step : Z) w :
  series_of w trace = Some s →
  (0 < window_length)%Z →
  (0 < window_step)%Z →
  let n_steps :=
    ((Z.of_nat (length (values s)) - window_length) / window_step)%Z in
  ∃ arr,
    get_trace_windows as_float trace window_length window_step w
    = (Returns arr, w)
    ∧ Z.of_nat (length arr) = Z.max 0 n_steps
    ∧ (n_steps ≤ 0 → arr = [])%Z
    ∧ ∀ i, i < length arr →
        arr !! i
        = Some (as_float <$> take (Z.to_nat window_length)
                               (drop (i * Z.to_nat window_step) (values s)))
        ∧ i * Z.to_nat window_step + Z.to_nat window_length
          ≤ length (values s).
Proof.
  intros Hs Hwl Hws n_steps.
  set (L := Z.of_nat (length (values s))) in *.
  set (windows :=
         (λ step, slice (values s) (step * window_step)
                    (step * window_step + window_length)%Z) <$> range n_steps).
  assert (Hwin : windows
                 = (λ i, take (Z.to_nat window_length)
                           (drop (i * Z.to_nat window_step) (values s)))
                   <$> seq 0 (Z.to_nat n_steps)).
  { unfold windows. rewrite range_nat, <- list_fmap_compose.
    apply Forall_fmap_ext, Forall_forall. intros i Hi. cbn.
    apply elem_of_seq in Hi.
    pose proof (window_inside L window_length window_step i Hws Hwl) as Hin.
    rewrite slice_inside by (fold L; lia).
    do 3 f_equal. lia. }
  assert (Hrows : ∀ i, i < Z.to_nat n_steps →
                       i * Z.to_nat window_step + Z.to_nat window_length
                       ≤ length (values s)).
  { intros i Hi.
    pose proof (window_inside L window_length window_step i Hws Hwl Hi).
    unfold L in *. nia. }
  assert (Hrect : Forall (λ r, length r = Z.to_nat window_length) windows).
  { rewrite Hwin. apply Forall_fmap, Forall_forall. intros i Hi. cbn.
    apply elem_of_seq in Hi. specialize (Hrows i).
    rewrite length_take, length_drop. lia. }
  exists (map (map as_float) windows). split_and!.
  - unfold get_trace_windows.
    rewrite (bind_returns _ _ _ _ _ (read_series_of _ _ _ Hs)).
    unfold int_div. rewrite decide_False by lia.
    rewrite (bind_returns _ _ w ((L - window_length) / window_step)%Z w)
      by done.
    by apply np_array_float_rect with (n := Z.to_nat window_length).
  - rewrite length_map, Hwin, length_fmap, length_seq. lia.
  - intros Hn. rewrite Hwin. replace (Z.to_nat n_steps) with 0 by lia. done.
  - intros i Hi. rewrite length_map, Hwin, length_fmap, length_seq in Hi.
    split; [|by apply Hrows].
    change (map (map as_float) windows)
      with ((λ r : list V, as_float <$> r) <$> windows).
    rewrite Hwin, list_lookup_fmap, list_lookup_fmap.
    by rewrite lookup_seq_lt.
Qed.

End Windows.

(** A series of ten samples, windows of three every two samples: three
    rows, starting at offsets 0, 2 and 4. *)
Lemma get_trace_windows_rows_witness :
  let s := mkSeries ((λ i, (i, 10 * i)) <$> range 10)%Z None in
  let w := mkWorld [s] [] in
  ∃ arr,
    get_trace_windows id (mkTrace 0 ∅) 3 2 w = (Returns arr, w)
    ∧ Z.of_nat (length arr) = 3%Z
    ∧ ((10 - 3) / 2 ≤ 0 → arr = [])%Z
    ∧ ∀ i, i < length arr →
        arr !! i = Some (id <$> take 3 (drop (i * 2) (values s)))
        ∧ i * 2 + 3 ≤ 10.
Proof.
  intros s w.
  apply (get_trace_windows_rows id (mkTrace 0 ∅) s 3 2 w); [done|lia|lia].
Defined.

Example get_trace_windows_ten_three_two :
  let s := mkSeries ((λ i, (i, 10 * i)) <$> range 10)%Z None in
  let w := mkWorld [s] [] in
  get_trace_windows id (mkTrace 0 ∅) 3 2 w
  = (Returns [[0; 10; 20]; [20; 30; 40]; [40; 50; 60]]%Z, w).
Proof. reflexivity. Qed.

(** ** resample_trace *)

Section Resample.

Context {V : Type} (as_float to_decimal : V → V).
Variable pd_resample_mean : string → Series V → exn + Series V.
Implicit Types w : world V.

(** C5. When pandas rejects the requested rate with a [ValueError], the
    handler of [resample_trace] evaluates [SampleError(self.sample_rate)];
    the module binds no name [SampleError] (and the function no [self]), so
    what reaches the caller is a [NameError], not a sampling error carrying
    the rate. *)
Theorem resample_trace_invalid_rate
    (trace : ApplianceTrace) (s : Series V) (sample_rate msg : string) w :
  series_of w trace = Some s →
  pd_resample_mean sample_rate (map_values as_float s)
  = inl (Exc ValueError msg) →
  ∃ w',
    resample_trace as_float to_decimal pd_resample_mean trace sample_rate w
    = (Raises (Exc NameError "global name 'SampleError' is not defined"), w')
    ∧ ∀ arg, (resample_trace as_float to_decimal pd_resample_mean trace
                sample_rate w).1 ≠ Raises (Exc SampleError arg).
Proof.
  intros Hs Hbad.
  assert (resample_trace as_float to_decimal pd_resample_mean trace
            sample_rate w
          = (Raises (Exc NameError "global name 'SampleError' is not defined"),
             mkWorld (store w ++ [map_values as_float s]) (stdout w))) as ->.
  { unfold resample_trace, try_except.
    rewrite (bind_returns _ _ _ _ _ (read_series_of _ _ _ Hs)).
    unfold bind at 1, alloc at 1. unfold bind at 1, read at 1. cbn.
    rewrite list_lookup_middle by done. rewrite Hbad.
    unfold bind at 1, raise at 1. cbn. done. }
  eexists. split; [done|]. intros arg. cbn. discriminate.
Qed.

End Resample.

(** A rate string that pandas cannot parse. *)
Lemma resample_trace_invalid_rate_witness :
  let w := mkWorld [mkSeries [(0, 1); (60, 2)]%Z None] [] in
  let pandas := λ (rule : string) (_ : Series Z),
                  inl (Exc ValueError ("Could not evaluate " +:+ rule)) in
  ∃ w',
    resample_trace id id pandas (mkTrace 0 ∅) "bogus" w
    = (Raises (Exc NameError "global name 'SampleError' is not defined"), w')
    ∧ ∀ arg, (resample_trace id id pandas (mkTrace 0 ∅) "bogus" w).1
             ≠ Raises (Exc SampleError arg).
Proof.
  intros w pandas.
  by apply (resample_trace_invalid_rate id id pandas (mkTrace 0 ∅)
              (mkSeries [(0, 1); (60, 2)]%Z None) "bogus"
              "Could not evaluate bogus" w).
Defined.

(** ** split_trace_into_rate *)

Section Split.

Context {V : Type}.
Implicit Types w : world V.

Lemma elem_of_insert_key (k x : Z) ks : x ∈ insert_key k ks ↔ x = k ∨ x ∈ ks.
Proof.
  induction ks as [|y ks IH]; cbn.
  - rewrite list_elem_of_singleton, elem_of_nil. tauto.
  - destruct (Z.ltb_spec k y); [by rewrite elem_of_cons|].
    destruct (Z.eqb_spec k y) as [->|].
    + rewrite elem_of_cons. tauto.
    + rewrite !elem_of_cons, IH. tauto.
Qed.

Lemma insert_key_sorted (k : Z) ks :
  StronglySorted Z.lt ks → StronglySorted Z.lt (insert_key k ks).
Proof.
  induction 1 as [|y ks Hs IH Hall]; cbn.
  - by repeat constructor.
  - destruct (Z.ltb_spec k y).
    + constructor; [by constructor|]. constructor; [done|].
      eapply Forall_impl; [exact Hall|]. cbn. lia.
    + destruct (Z.eqb_spec k y); [by constructor|].
      constructor; [done|]. apply Forall_forall. intros x Hx.
      apply elem_of_insert_key in Hx as [->|Hx]; [lia|].
      rewrite Forall_forall in Hall. by apply Hall.
Qed.

Lemma group_keys_distinct_ascending (keys : list Z) :
  distinct_ascending keys (group_keys keys).
Proof.
  unfold distinct_ascending, group_keys.
  induction keys as [|k keys [IHs IHe]]; cbn.
  - split; [constructor|done].
  - split; [by apply insert_key_sorted|].
    intros x. rewrite elem_of_insert_key, elem_of_cons, IHe. tauto.
Qed.

Lemma distinct_ascending_NoDup (keys ks : list Z) :
  distinct_ascending keys ks → NoDup ks.
Proof.
  intros [Hs _]. induction Hs as [|k ks _ IH Hall]; constructor; [|done].
  intros Hin. rewrite Forall_forall in Hall. specialize (Hall _ Hin). lia.
Qed.

(** The number of groups is the number of distinct keys. *)
Lemma group_keys_length (keys : list Z) :
  length (group_keys keys) = length (remove_dups keys).
Proof.
  apply Permutation_length, NoDup_Permutation.
  - eapply distinct_ascending_NoDup, group_keys_distinct_ascending.
  - apply NoDup_remove_dups.
  - intros k. rewrite elem_of_remove_dups.
    apply group_keys_distinct_ascending.
Qed.

Lemma group_rows_filter (key : Timestamp → Z) (s : Series V) (k : Z) :
  group_rows (key <$> index s) s k = filter (λ r, key r.1 = k) (rows s).
Proof.
  unfold group_rows, index. induction (rows s) as [|r rs IH]; [done|].
  rewrite !fmap_cons. cbn [zip zip_with]. rewrite !filter_cons. cbn [fst].
  case_decide; [rewrite fmap_cons; cbn [snd]|]; by rewrite IH.
Qed.

(** The loop allocates the groups in order, after the existing objects. *)
Lemma split_loop_run (trace : ApplianceTrace) groups :
  ∀ i acc w,
    split_loop trace i groups acc w
    = (Returns
         (acc ++ imap (λ j _, mkTrace (length (store w) + j)
                                (<["trace_num" := MInt (Z.of_nat (i + j))]>
                                   (metadata trace))) groups),
       mkWorld (store w ++ groups.*2) (stdout w)).
Proof.
  induction groups as [|g groups IH]; intros i acc w.
  - cbn. by rewrite !app_nil_r, world_eta.
  - cbn [split_loop]. unfold bind at 1, alloc at 1. rewrite IH. cbn.
    rewrite <- !app_assoc. cbn. rewrite !Nat.add_0_r. do 4 f_equal.
    apply imap_ext. intros j ? _. cbn. rewrite length_app. cbn.
    f_equal; [lia|]. do 3 f_equal. lia.
Qed.

Lemma split_by_key (key : Timestamp → Z) (trace : ApplianceTrace)
    (s : Series V) w :
  splits_by key trace s w
    (split_loop trace 0 (groupby s (key <$> index s)) [] w).
Proof.
  rewrite split_loop_run. cbn [app].
  set (keys := key <$> index s).
  eexists _, _, (group_keys keys). split; [done|]. cbn [store stdout].
  split_and!; [done|by apply prefix_app_r|
               by apply group_keys_distinct_ascending|..].
  - unfold groupby. rewrite imap_fmap, <- list_fmap_compose.
    generalize (group_keys keys) as ks. intros ks.
    assert (∀ n, Forall2
      (λ t k, length (store w) ≤ series t
              ∧ ∃ g, (store w ++ ((λ k, mkSeries (group_rows keys s k)
                                          (name s)) <$> ks)) !! series t
                     = Some g
                     ∧ rows g = filter (λ r, key r.1 = k) (rows s))
      (imap (λ j _, mkTrace (length (store w) + n + j)
               (<["trace_num" := MInt (Z.of_nat (0 + (n + j)))]>
                  (metadata trace))) (drop n ks)) (drop n ks)) as Hn.
    { intros n. remember (length ks - n) as m eqn:Hm.
      revert n Hm. induction m as [|m IH]; intros n Hm.
      - rewrite drop_ge by lia. constructor.
      - destruct (lookup_lt_is_Some_2 ks n) as [k Hk]; [lia|].
        rewrite (drop_S _ _ _ Hk). rewrite imap_cons. constructor.
        + cbn [series]. split; [lia|]. eexists. split.
          * rewrite lookup_app_r by lia.
            replace (length (store w) + n + 0 - length (store w)) with n
              by lia.
            by rewrite list_lookup_fmap, Hk.
          * apply group_rows_filter.
        + specialize (IH (S n)). 
          replace (imap _ (drop (S n) ks))
            with (imap (λ j _, mkTrace (length (store w) + S n + j)
                    (<["trace_num" := MInt (Z.of_nat (0 + (S n + j)))]>
                       (metadata trace))) (drop (S n) ks)).
          * apply IH. lia.
          * apply imap_ext. intros j ? _. cbn.
            f_equal; [lia|]. do 3 f_equal. lia. }
    specialize (Hn 0). rewrite drop_0 in Hn.
    unfold series_of. cbn [store].
    replace (imap _ ks)
      with (imap (λ j _, mkTrace (length (store w) + 0 + j)
              (<["trace_num" := MInt (Z.of_nat (0 + (0 + j)))]>
                 (metadata trace))) ks); [done|].
    apply imap_ext. intros j ? _. cbn. f_equal. lia.
  - intros i t Hi. rewrite list_lookup_imap in Hi.
    destruct (groupby s keys !! i); by simplify_eq/=.
Qed.

Lemma split_trace_into_rate_D (trace : ApplianceTrace) (s : Series V) w :
  series_of w trace = Some s →
  splits_by date_of trace s w (split_trace_into_rate trace "D" w).
Proof.
  intros Hs. unfold split_trace_into_rate. rewrite decide_True by done.
  rewrite (bind_returns _ _ _ _ _ (read_series_of _ _ _ Hs)).
  apply split_by_key.
Qed.

Lemma split_trace_into_rate_W (trace : ApplianceTrace) (s : Series V) w :
  series_of w trace = Some s →
  splits_by week_of trace s w (split_trace_into_rate trace "W" w).
Proof.
  intros Hs. unfold split_trace_into_rate.
  rewrite decide_False, decide_True by done.
  rewrite (bind_returns _ _ _ _ _ (read_series_of _ _ _ Hs)).
  apply split_by_key.
Qed.

(** C6, as the code has it.  [split_trace_into_rate] accepts exactly the
    granularity tokens ['D'] and ['W']: with ['D'] it groups the series by
    calendar date and with ['W'] by ISO week number, producing one new trace
    per group; for every other token, ['day'] and ['week'] included, it
    prints a diagnostic message and returns an empty list, raising
    nothing. *)
Theorem split_trace_into_rate_tokens
    (trace : ApplianceTrace) (s : Series V) w :
  series_of w trace = Some s →
  splits_by date_of trace s w (split_trace_into_rate trace "D" w)
  ∧ splits_by week_of trace s w (split_trace_into_rate trace "W" w)
  ∧ ∀ rate, rate ≠ "D" → rate ≠ "W" →
      split_trace_into_rate trace rate w
      = (Returns [],
         mkWorld (store w) (stdout w ++ ["Looking for 'week' or 'day'"])).
Proof.
  intros Hs. split_and!.
  - by apply split_trace_into_rate_D.
  - by apply split_trace_into_rate_W.
  - intros rate HD HW. unfold split_trace_into_rate.
    by rewrite !decide_False by done.
Qed.

Lemma splits_by_count (key : Timestamp → Z) trace (s : Series V) w out w' :
  splits_by key trace s w (Returns out, w') →
  length out = length (remove_dups (key <$> index s)).
Proof.
  intros (out' & w'' & ks & [= <- <-] & _ & _ & Hks & Hall & _).
  rewrite (Forall2_length _ _ _ Hall).
  apply Permutation_length, NoDup_Permutation.
  - by eapply distinct_ascending_NoDup.
  - apply NoDup_remove_dups.
  - intros k. rewrite elem_of_remove_dups. apply Hks.
Qed.

(** C7. For every trace whose series spans exactly 3 distinct calendar
    days, splitting by the day granularity (token ['D']) produces exactly 3
    traces; their metadata key [trace_num] is 0, 1 and 2 in output order,
    and every other metadata entry is that of the source trace. *)
Theorem split_trace_three_days
    (trace : ApplianceTrace) (s : Series V) w :
  series_of w trace = Some s →
  length (remove_dups (date_of <$> index s)) = 3 →
  ∃ t0 t1 t2 w',
    split_trace_into_rate trace "D" w = (Returns [t0; t1; t2], w')
    ∧ metadata t0 !! "trace_num" = Some (MInt 0)
    ∧ metadata t1 !! "trace_num" = Some (MInt 1)
    ∧ metadata t2 !! "trace_num" = Some (MInt 2)
    ∧ ∀ t k, t ∈ [t0; t1; t2] → k ≠ "trace_num" →
             metadata t !! k = metadata trace !! k.
Proof.
  intros Hs Hdays.
  pose proof (split_trace_into_rate_D trace s w Hs) as HD.
  pose proof HD as (out & w' & ks & Hrun & _ & _ & _ & _ & Hmd).
  rewrite Hrun in HD. apply splits_by_count in HD. rewrite Hdays in HD.
  destruct out as [|t0 [|t1 [|t2 [|]]]]; try done.
  exists t0, t1, t2, w'. split; [done|].
  pose proof (Hmd 0 t0 eq_refl) as H0.
  pose proof (Hmd 1 t1 eq_refl) as H1.
  pose proof (Hmd 2 t2 eq_refl) as H2.
  rewrite H0, H1, H2. split_and!; try apply lookup_insert_eq.
  intros t k Ht Hk. rewrite !elem_of_cons, elem_of_nil in Ht.
  destruct Ht as [->|[->|[->|[]]]]; rewrite ?H0, ?H1, ?H2;
    by apply lookup_insert_ne.
Qed.

End Split.

(** C6 as stated fails on the token ['day']: a trace with one sample is not
    split into its one calendar-date group; the message is printed and the
    result is empty. *)
Lemma split_trace_into_rate_day_token :
  let s := mkSeries [(0, 1)]%Z None in
  let w := mkWorld [s] [] in
  let trace := mkTrace 0 ∅ in
  split_trace_into_rate trace "day" w
  = (Returns [], mkWorld [s] ["Looking for 'week' or 'day'"])
  ∧ ¬ splits_by date_of trace s w (split_trace_into_rate trace "day" w).
Proof.
  intros s w trace. split; [done|].
  intros (out & w' & ks & Hrun & Hout & _). by injection Hrun as <- <-.
Qed.

(** Samples on the first, second and second day of 1970. *)
Lemma split_trace_into_rate_tokens_witness :
  let s := mkSeries [(0, 1); (86400000000000, 2); (86400000000060, 3)]%Z
             None in
  let w := mkWorld [s] [] in
  let trace := mkTrace 0 {["name" := MStr "fridge"]} in
  splits_by date_of trace s w (split_trace_into_rate trace "D" w)
  ∧ splits_by week_of trace s w (split_trace_into_rate trace "W" w)
  ∧ ∀ rate, rate ≠ "D" → rate ≠ "W" →
      split_trace_into_rate trace rate w
      = (Returns [],
         mkWorld (store w) (stdout w ++ ["Looking for 'week' or 'day'"])).
Proof.
  intros s w trace. by apply (split_trace_into_rate_tokens trace s w).
Defined.

(** Samples on three consecutive days. *)
Lemma split_trace_three_days_witness :
  let s := mkSeries [(0, 1); (86400000000000, 2); (86400000000060, 3);
                     (172800000000000, 4)]%Z None in
  let w := mkWorld [s] [] in
  let trace := mkTrace 0 {["name" := MStr "fridge"]} in
  ∃ t0 t1 t2 w',
    split_trace_into_rate trace "D" w = (Returns [t0; t1; t2], w')
    ∧ metadata t0 !! "trace_num" = Some (MInt 0)
    ∧ metadata t1 !! "trace_num" = Some (MInt 1)
    ∧ metadata t2 !! "trace_num" = Some (MInt 2)
    ∧ ∀ t k, t ∈ [t0; t1; t2] → k ≠ "trace_num" →
             metadata t !! k = metadata trace !! k.
Proof.
  intros s w trace. by apply (split_trace_three_days trace s w).
Defined.

(** ** numpy's argsort sorts *)

Section ArgsortCorrect.

Variable SMALL_QUICKSORT : nat.
Hypothesis cutoff_ge_2 : 2 ≤ SMALL_QUICKSORT.
Variable v : list Z.
Abbreviation n := (length v).
Abbreviation valid := (is_order v).
Abbreviation K := (cell_key v).

Lemma reindex_Permutation (t t' : list nat) (σ : nat → nat) :
  NoDup t → length t' = length t →
  (∀ x, x < length t → σ x < length t ∧ t' !!! x = t !!! σ x) →
  (∀ x y, x < length t → y < length t → σ x = σ y → x = y) →
  t' ≡ₚ t.
Proof.
  intros Hnd Hlen Hσ Hinj.
  assert (∀ i e, t' !! i = Some e → i < length t ∧ t !! σ i = Some e) as Hl.
  { intros i e Hi. assert (i < length t) as Hlt.
    { rewrite <- Hlen. by eapply lookup_lt_Some. }
    split; [done|]. destruct (Hσ i Hlt) as [Hs He].
    rewrite (list_lookup_total_correct _ _ _ Hi) in He. subst e.
    by apply list_lookup_lookup_total_lt. }
  apply submseteq_length_Permutation; [|lia]. apply NoDup_submseteq.
  - apply NoDup_alt. intros i j e Hi Hj.
    apply Hl in Hi as [? Hi]. apply Hl in Hj as [? Hj].
    apply Hinj; [done..|]. by eapply NoDup_lookup.
  - intros e [i Hi]%list_elem_of_lookup. apply Hl in Hi as [_ Hi].
    by eapply list_elem_of_lookup_2.
Qed.

Lemma valid_length t : valid t → length t = n.
Proof. intros ->. apply length_seq. Qed.

Lemma valid_NoDup t : valid t → NoDup t.
Proof. intros ->. apply NoDup_seq. Qed.

Lemma valid_lt t p : valid t → p < n → t !!! p < n.
Proof.
  intros Hv Hp.
  assert (t !!! p ∈ seq 0 n) as Hin.
  { rewrite <- Hv. apply list_elem_of_lookup_total_2. by rewrite valid_length. }
  apply elem_of_seq in Hin. lia.
Qed.

Lemma valid_lookup t p : valid t → p < n → t !! p = Some (t !!! p).
Proof. intros Hv Hp. apply list_lookup_lookup_total_lt. by rewrite valid_length. Qed.

Lemma key_at_valid t p : valid t → p < n → key_at v t p = Some (K t p).
Proof.
  intros Hv Hp. unfold key_at, cell_key. rewrite (valid_lookup t p) by done. cbn.
  apply list_lookup_lookup_total_lt. by apply valid_lt.
Qed.

Lemma swapped_length t p q : length (swapped t p q) = length t.
Proof. unfold swapped. by rewrite !length_insert. Qed.

Lemma swapped_lookup t p q x :
  p < length t → q < length t →
  swapped t p q !!! x
  = if decide (x = q) then t !!! p else if decide (x = p) then t !!! q
    else t !!! x.
Proof.
  intros Hp Hq. unfold swapped.
  rewrite !list_lookup_total_insert, length_insert.
  repeat case_decide; try done; lia.
Qed.

Lemma swapped_K t p q x :
  p < length t → q < length t →
  K (swapped t p q) x
  = if decide (x = q) then K t p else if decide (x = p) then K t q
    else K t x.
Proof.
  intros Hp Hq. unfold cell_key. rewrite swapped_lookup by done.
  by repeat case_decide.
Qed.

Lemma swapped_Permutation t p q :
  NoDup t → p < length t → q < length t → swapped t p q ≡ₚ t.
Proof.
  intros Hnd Hp Hq.
  apply (reindex_Permutation t (swapped t p q)
           (λ x, if decide (x = q) then p else if decide (x = p) then q
                 else x)); [done|apply swapped_length|..].
  - intros x Hx. rewrite swapped_lookup by done.
    repeat case_decide; by split.
  - intros x y _ _. repeat case_decide; lia.
Qed.

Lemma swapped_valid t p q : valid t → p < n → q < n → valid (swapped t p q).
Proof.
  intros Hv Hp Hq. unfold is_order. rewrite <- Hv.
  apply swapped_Permutation; [by apply valid_NoDup|by rewrite valid_length..].
Qed.

Lemma intp_swap_valid t p q :
  valid t → p < n → q < n → intp_swap t p q = Some (swapped t p q).
Proof.
  intros Hv Hp Hq. unfold intp_swap.
  by rewrite (valid_lookup t p), (valid_lookup t q).
Qed.

Lemma swap_if_lt_valid t p q :
  valid t → p < n → q < n →
  swap_if_lt v t p q
  = Some (if (K t p <? K t q)%Z then swapped t p q else t).
Proof.
  intros Hv Hp Hq. unfold swap_if_lt.
  rewrite !key_at_valid by done. cbn.
  destruct (K t p <? K t q)%Z; [by apply intp_swap_valid|done].
Qed.

(** Scanning up stops at the first cell whose key is not below the pivot,
    at the latest at a sentinel [s]. *)
Lemma scan_up_spec t vp s :
  valid t → s < n → ¬ (K t s < vp)%Z →
  ∀ budget pi, pi < s → s - pi ≤ budget →
    ∃ p, scan_up v budget t vp pi = Some p
         ∧ pi < p ≤ s ∧ ¬ (K t p < vp)%Z
         ∧ ∀ x, pi < x < p → (K t x < vp)%Z.
Proof.
  intros Hv Hs Hsent. induction budget as [|budget IH]; intros pi Hpi Hb;
    [lia|].
  cbn [scan_up]. rewrite key_at_valid by (done || lia). cbn.
  destruct (Z.ltb_spec (K t (S pi)) vp) as [Hlt|Hge].
  - assert (S pi ≠ s) by (intros <-; lia).
    destruct (IH (S pi)) as (p & Hrun & Hp & Hstop & Hbelow); [lia..|].
    exists p. split_and!; [done|lia|lia|done|].
    intros x Hx. destruct (decide (x = S pi)) as [->|]; [done|].
    apply Hbelow. lia.
  - exists (S pi). split_and!; [done|lia|lia|lia|]. intros x Hx. lia.
Qed.

(** Scanning down stops at the first cell whose key is not above the
    pivot, at the latest at a sentinel [s]. *)
Lemma scan_down_spec t vp s :
  valid t → ¬ (vp < K t s)%Z →
  ∀ pj, s < pj → pj ≤ n →
    ∃ p, scan_down v t vp pj = Some p
         ∧ s ≤ p < pj ∧ ¬ (vp < K t p)%Z
         ∧ ∀ y, p < y < pj → (vp < K t y)%Z.
Proof.
  intros Hv Hsent. induction pj as [|pj IH]; intros Hs Hn; [lia|].
  cbn [scan_down]. rewrite key_at_valid by (done || lia). cbn.
  destruct (Z.ltb_spec vp (K t pj)) as [Hlt|Hge].
  - assert (pj ≠ s) by (intros <-; lia).
    destruct IH as (p & Hrun & Hp & Hstop & Habove); [lia..|].
    exists p. split_and!; [done|lia|lia|done|].
    intros y Hy. destruct (decide (y = pj)) as [->|]; [done|].
    apply Habove. lia.
  - exists pj. split_and!; [done|lia|lia|lia|]. intros y Hy. lia.
Qed.

(** The partition loop: cells up to [pi] hold keys at most the pivot, cells
    from [pj] on hold keys at least the pivot, and the two scans meet. *)
Lemma partition_loop_spec (t0 : list nat) (vp : Z) (pl pr : nat) :
  pr < n →
  ∀ budget t pi pj,
    valid t → pl ≤ pi → pi < pj → pj ≤ pr - 1 → pj - pi ≤ budget →
    (∀ x, pl ≤ x ≤ pi → (K t x ≤ vp)%Z) →
    (∀ y, pj ≤ y ≤ pr → (vp ≤ K t y)%Z) →
    (∀ x, x ≤ pl ∨ pr - 1 ≤ x → t !!! x = t0 !!! x) →
    ∃ t' p,
      partition_loop v budget t vp pi pj = Some (t', p)
      ∧ valid t' ∧ pl < p ≤ pr - 1
      ∧ (∀ x, pl ≤ x < p → (K t' x ≤ vp)%Z)
      ∧ (vp ≤ K t' p)%Z
      ∧ (∀ y, p < y ≤ pr → (vp ≤ K t' y)%Z)
      ∧ (∀ x, x ≤ pl ∨ pr - 1 ≤ x → t' !!! x = t0 !!! x).
Proof.
  intros Hpr. induction budget as [|budget IH];
    intros t pi pj Hv Hpl Hlt Hpj Hb Hlow Hhigh Hframe; [lia|].
  cbn [partition_loop].
  destruct (scan_up_spec t vp pj Hv) with (budget := length t) (pi := pi)
    as (p1 & -> & Hp1 & Hstop1 & Hbelow); [lia| |done| |].
  { specialize (Hhigh pj). lia. }
  { rewrite valid_length by done. lia. }
  destruct (scan_down_spec t vp pi Hv) with (pj := pj)
    as (p2 & Hdown & Hp2 & Hstop2 & Habove); [|done|lia|].
  { specialize (Hlow pi). lia. }
  cbn. rewrite Hdown. cbn. case_decide as Hmeet.
  - exists t, p1. split_and!; [done|done|lia|lia| |lia| |done].
    + intros x Hx. destruct (decide (x ≤ pi)); [apply Hlow; lia|].
      assert (K t x < vp)%Z by (apply Hbelow; lia). lia.
    + intros y Hy. destruct (decide (pj ≤ y)); [apply Hhigh; lia|].
      assert (vp < K t y)%Z by (apply Habove; lia). lia.
  - assert (p1 < length t ∧ p2 < length t) as [Hl1 Hl2].
    { rewrite valid_length by done. lia. }
    rewrite intp_swap_valid by (done || lia). cbn.
    apply IH; [apply swapped_valid; (done || lia)|lia..| | |].
    + intros x Hx. rewrite swapped_K by done. repeat case_decide; subst.
      * lia.
      * lia.
      * destruct (decide (x ≤ pi)); [apply Hlow; lia|].
        assert (K t x < vp)%Z by (apply Hbelow; lia). lia.
    + intros y Hy. rewrite swapped_K by done. repeat case_decide; subst.
      * lia.
      * lia.
      * destruct (decide (pj ≤ y)); [apply Hhigh; lia|].
        assert (vp < K t y)%Z by (apply Habove; lia). lia.
    + intros x Hx. rewrite swapped_lookup by done.
      rewrite !decide_False by lia. by apply Hframe.
Qed.

Lemma swap_if_lt_spec t p q :
  valid t → p < n → q < n → p ≠ q →
  ∃ t',
    swap_if_lt v t p q = Some t'
    ∧ valid t'
    ∧ (K t' q ≤ K t' p)%Z
    ∧ (∀ x, x ≠ p → x ≠ q → t' !!! x = t !!! x)
    ∧ (K t' p = K t p ∧ K t' q = K t q ∨ K t' p = K t q ∧ K t' q = K t p).
Proof.
  intros Hv Hp Hq Hne. rewrite swap_if_lt_valid by done.
  assert (p < length t ∧ q < length t) as [Hlp Hlq].
  { rewrite valid_length by done. lia. }
  destruct (Z.ltb_spec (K t p) (K t q)) as [Hlt|Hge]; eexists;
    (split; [done|]).
  - assert (K (swapped t p q) p = K t q ∧ K (swapped t p q) q = K t p)
      as [Hkp Hkq].
    { rewrite !swapped_K by done. by repeat case_decide. }
    split_and!; [by apply swapped_valid|lia| |by right].
    intros x Hxp Hxq. rewrite swapped_lookup by done.
    by rewrite !decide_False by done.
  - split_and!; [done|lia|done|by left].
Qed.

(** One partition of a long range [pl..pr]: the pivot ends at [pi], keys
    before it are at most its key, keys after it at least its key, and cells
    outside the range are untouched. *)
Lemma partition_spec t pl pr :
  valid t → pl + 2 < pr → pr < n →
  ∃ t' pi,
    partition v t pl pr = Some (t', pi)
    ∧ valid t' ∧ pl < pi < pr
    ∧ (∀ x, x < pl ∨ pr < x → t' !!! x = t !!! x)
    ∧ (∀ x, pl ≤ x < pi → (K t' x ≤ K t' pi)%Z)
    ∧ (∀ y, pi < y ≤ pr → (K t' pi ≤ K t' y)%Z).
Proof.
  intros Hv Hd Hpr. unfold partition.
  set (pm := pl + (pr - pl) `div` 2).
  assert (pl < pm < pr - 1) as Hpm.
  { unfold pm. pose proof (Nat.div_mod_eq (pr - pl) 2).
    pose proof (Nat.mod_upper_bound (pr - pl) 2). lia. }
  destruct (swap_if_lt_spec t pm pl) as (t1 & -> & Hv1 & Ho1 & Hf1 & Hk1);
    [done|lia..|]. cbn.
  destruct (swap_if_lt_spec t1 pr pm) as (t2 & -> & Hv2 & Ho2 & Hf2 & Hk2);
    [done|lia..|]. cbn.
  destruct (swap_if_lt_spec t2 pm pl) as (t3 & -> & Hv3 & Ho3 & Hf3 & Hk3);
    [done|lia..|]. cbn.
  assert (K t2 pl = K t1 pl) as Hpl2.
  { unfold cell_key. rewrite Hf2 by lia. done. }
  assert (K t3 pr = K t2 pr) as Hpr3.
  { unfold cell_key. rewrite Hf3 by lia. done. }
  rewrite key_at_valid by (done || lia). cbn.
  set (vp := K t3 pm).
  assert (length t3 = n) as Hl3 by by apply valid_length.
  rewrite intp_swap_valid by (done || lia). cbn.
  set (t4 := swapped t3 pm (pr - 1)).
  assert (valid t4) as Hv4 by (apply swapped_valid; (done || lia)).
  assert (length t4 = n) as Hl4 by by apply valid_length.
  destruct (partition_loop_spec t4 vp pl pr Hpr (length t4) t4 pl (pr - 1))
    as (t5 & pi & -> & Hv5 & Hpi & Hlow & Hpiv & Hhigh & Hf5);
    [done|lia..| | |done|].
  { intros x Hx. assert (x = pl) as -> by lia. unfold t4.
    rewrite swapped_K by lia. rewrite !decide_False by lia. lia. }
  { intros y Hy. unfold t4. rewrite swapped_K by lia.
    case_decide; [done|]. assert (y = pr) as -> by lia.
    rewrite decide_False by lia. lia. }
  cbn. assert (length t5 = n) as Hl5 by by apply valid_length.
  rewrite intp_swap_valid by (done || lia). cbn.
  assert (K t5 (pr - 1) = vp) as Hlast.
  { unfold cell_key. rewrite Hf5 by lia. fold (K t4 (pr - 1)). unfold t4.
    rewrite swapped_K by lia. by rewrite decide_True. }
  exists (swapped t5 pi (pr - 1)), pi.
  assert (K (swapped t5 pi (pr - 1)) pi = vp) as Hkpi.
  { rewrite swapped_K by lia. case_decide as Hc; [by rewrite Hc|].
    by rewrite decide_True. }
  split_and!; [done|apply swapped_valid; (done || lia)|lia|lia|..].
  - intros x Hx. rewrite swapped_lookup by lia.
    rewrite !decide_False by lia. rewrite Hf5 by lia. unfold t4.
    rewrite swapped_lookup by lia. rewrite !decide_False by lia.
    rewrite Hf3, Hf2, Hf1 by lia. done.
  - intros x Hx. rewrite Hkpi. rewrite swapped_K by lia.
    rewrite !decide_False by lia. apply Hlow. lia.
  - intros y Hy. rewrite Hkpi. rewrite swapped_K by lia.
    case_decide; [lia|]. rewrite decide_False by lia. apply Hhigh. lia.
Qed.

(** Shifting: the cells [pj'..pj-1], whose keys are above [vp], move up by
    one; the cell at [pj'] keeps a stale copy. *)
Lemma shift_up_spec (vp : Z) (pl : nat) :
  ∀ pj t,
    pj < length t → Forall (λ i, i < n) t →
    ∃ t' pj',
      shift_up v t vp pl pj = Some (t', pj')
      ∧ pj' ≤ pj ∧ (pl ≤ pj → pl ≤ pj')
      ∧ length t' = length t
      ∧ (∀ x, t' !!! x
              = if decide (pj' < x ≤ pj) then t !!! (x - 1) else t !!! x)
      ∧ (∀ y, pj' ≤ y < pj → (vp < K t y)%Z)
      ∧ (pl < pj' → ¬ (vp < K t (pj' - 1))%Z).
Proof.
  induction pj as [|pk IH]; intros t Hlen Hok.
  - exists t, 0. cbn.
    split_and!; [done|lia|lia|done|..].
    + intros x. by rewrite decide_False by lia.
    + intros y Hy. lia.
    + intros ?. lia.
  - cbn [shift_up]. case_decide as Hpl.
    + rewrite (list_lookup_lookup_total_lt t pk) by lia. cbn.
      assert (t !!! pk < n) as Hx.
      { rewrite Forall_forall in Hok. apply Hok.
        apply list_elem_of_lookup_total_2. lia. }
      rewrite (list_lookup_lookup_total_lt v _ Hx). cbn.
      fold (K t pk).
      destruct (Z.ltb_spec vp (K t pk)) as [Hlt|Hge].
      * set (t1 := <[S pk := t !!! pk]> t).
        assert (∀ x, x ≤ pk → t1 !!! x = t !!! x) as Hsame.
        { intros x Hx'. unfold t1.
          by rewrite list_lookup_total_insert_ne by lia. }
        destruct (IH t1) as (t' & pj' & -> & Hle & Hge' & Hl' & Hlk & Hab & Hst).
        { unfold t1. rewrite length_insert. lia. }
        { unfold t1. apply Forall_insert; [done|]. done. }
        exists t', pj'. split_and!; [done|lia|lia| | | |].
        -- rewrite Hl'. unfold t1. by rewrite length_insert.
        -- intros x. rewrite Hlk. repeat case_decide; try lia.
           ++ apply Hsame. lia.
           ++ assert (x = S pk) as -> by lia. unfold t1.
              rewrite list_lookup_total_insert_eq by lia.
              by replace (S pk - 1) with pk by lia.
           ++ unfold t1. by rewrite list_lookup_total_insert_ne by lia.
        -- intros y Hy. destruct (decide (y = pk)) as [->|]; [done|].
           unfold cell_key. rewrite <- Hsame by lia. apply Hab. lia.
        -- intros Hpl'. unfold cell_key. rewrite <- Hsame by lia.
           by apply Hst.
      * exists t, (S pk).
        split_and!; [done|lia|lia|done|..].
        -- intros x. by rewrite decide_False by lia.
        -- intros y Hy. lia.
        -- intros _. replace (S pk - 1) with pk by lia. lia.
    + exists t, (S pk).
      split_and!; [done|lia|lia|done|..].
      * intros x. by rewrite decide_False by lia.
      * intros y Hy. lia.
      * intros ?. lia.
Qed.

Lemma valid_Forall t : valid t → Forall (λ i, i < n) t.
Proof.
  intros Hv. apply Forall_forall. intros i Hi.
  rewrite Hv in Hi. apply elem_of_seq in Hi. lia.
Qed.

(** One step of the insertion sort: the cell at [pi] is inserted into the
    ascending cells [pl..pi-1]. *)
Lemma insertion_step_spec t pl pi :
  valid t → pl < pi → pi < n → sorted_between v t pl (pi - 1) →
  ∃ t1 pj,
    shift_up v t (K t pi) pl pi = Some (t1, pj)
    ∧ valid (<[pj := t !!! pi]> t1)
    ∧ sorted_between v (<[pj := t !!! pi]> t1) pl pi
    ∧ ∀ x, x < pl ∨ pi < x → <[pj := t !!! pi]> t1 !!! x = t !!! x.
Proof.
  intros Hv Hpl Hpi Hs.
  assert (length t = n) as Hlen by by apply valid_length.
  destruct (shift_up_spec (K t pi) pl pi t)
    as (t1 & pj & Hrun & Hle & Hge & Hl1 & Hlk & Hab & Hst);
    [lia|by apply valid_Forall|].
  specialize (Hge ltac:(lia)).
  exists t1, pj. split; [done|].
  set (t2 := <[pj := t !!! pi]> t1).
  set (σ := λ x, if decide (x = pj) then pi
                 else if decide (pj < x ≤ pi) then x - 1 else x).
  assert (∀ x, t2 !!! x = t !!! σ x) as Hre.
  { intros x. unfold t2, σ. rewrite list_lookup_total_insert, Hlk.
    repeat case_decide; try done; lia. }
  assert (∀ x, K t2 x = K t (σ x)) as HK.
  { intros x. unfold cell_key. by rewrite Hre. }
  split_and!.
  - unfold is_order. rewrite <- Hv.
    apply (reindex_Permutation t t2 σ); [by apply valid_NoDup| | |].
    + unfold t2. rewrite length_insert. lia.
    + intros x Hx. split; [|apply Hre]. unfold σ. repeat case_decide; lia.
    + intros x y _ _. unfold σ. repeat case_decide; lia.
  - intros a b Ha Hab' Hb. rewrite !HK. unfold σ.
    repeat case_decide; try lia;
      first
        [ apply Hs; lia
        | assert (K t pi < K t (b - 1))%Z by (apply Hab; lia); lia
        | assert (K t a ≤ K t (pj - 1))%Z by (apply Hs; lia);
          assert (¬ (K t pi < K t (pj - 1))%Z) by (apply Hst; lia); lia ].
  - intros x Hx. rewrite Hre. unfold σ. repeat case_decide; try done; lia.
Qed.

Lemma insertion_sort_spec (pl : nat) :
  ∀ m t pi,
    valid t → pl < pi → pi + m ≤ n → sorted_between v t pl (pi - 1) →
    ∃ t',
      insertion_sort v m t pl pi = Some t'
      ∧ valid t'
      ∧ sorted_between v t' pl (pi + m - 1)
      ∧ ∀ x, x < pl ∨ pi + m - 1 < x → t' !!! x = t !!! x.
Proof.
  induction m as [|m IH]; intros t pi Hv Hpl Hpi Hs.
  - exists t. cbn. split_and!; try done.
    by replace (pi + 0 - 1) with (pi - 1) by lia.
  - cbn [insertion_sort].
    rewrite (valid_lookup t pi) by (done || lia). cbn.
    rewrite (list_lookup_lookup_total_lt v (t !!! pi))
      by (apply valid_lt; (done || lia)). cbn.
    fold (K t pi).
    destruct (insertion_step_spec t pl pi)
      as (t1 & pj & -> & Hv2 & Hs2 & Hf2); [done|lia|lia|done|]. cbn.
    destruct (IH (<[pj := t !!! pi]> t1) (S pi))
      as (t' & -> & Hv' & Hs' & Hf'); [done|lia|lia| |].
    { by replace (S pi - 1) with pi by lia. }
    exists t'. split_and!; [done|done| |].
    + by replace (pi + S m - 1) with (S pi + m - 1) by lia.
    + intros x Hx. rewrite Hf' by lia. apply Hf2. lia.
Qed.

Lemma segments_ok_disjoint segs s s' :
  segments_ok v segs → s ∈ segs → s' ∈ segs →
  s = s' ∨ s.2 < s'.1 ∨ s'.2 < s.1.
Proof.
  induction segs as [|s0 segs IH]; intros Hok Hs Hs'; [by inversion Hs|].
  destruct Hok as (_ & _ & Hall & Hok). rewrite Forall_forall in Hall.
  apply elem_of_cons in Hs as [->|Hs]; apply elem_of_cons in Hs' as [->|Hs'].
  - by left.
  - right. by apply Hall.
  - right. specialize (Hall _ Hs). lia.
  - by apply IH.
Qed.

Lemma segments_ok_elem segs s :
  segments_ok v segs → s ∈ segs → s.1 ≤ s.2 ∧ s.2 < n.
Proof.
  induction segs as [|s0 segs IH]; intros Hok Hs; [by inversion Hs|].
  destruct Hok as (? & ? & _ & Hok).
  apply elem_of_cons in Hs as [->|Hs]; [done|by apply IH].
Qed.

(** A cell of a rearranged range comes from the same range. *)
Lemma local_source t t' pl pr i :
  valid t → valid t' →
  (∀ x, x < pl ∨ pr < x → t' !!! x = t !!! x) →
  pl ≤ i ≤ pr → pr < n →
  ∃ x, pl ≤ x ≤ pr ∧ t' !!! i = t !!! x.
Proof.
  intros Hv Hv' Hf Hi Hpr.
  assert (t' !!! i ∈ t) as Hin.
  { rewrite Hv, <- Hv'. apply list_elem_of_lookup_total_2.
    rewrite valid_length by done. lia. }
  apply list_elem_of_lookup_total in Hin as (x & Hx & Hex).
  exists x. split; [|done].
  destruct (decide (pl ≤ x ≤ pr)) as [|Hout]; [done|]. exfalso.
  assert (x = i); [|lia].
  apply (NoDup_lookup t' x i (t' !!! i)); [by apply valid_NoDup|..].
  - rewrite <- Hex, <- Hf by lia. apply list_lookup_lookup_total_lt.
    rewrite valid_length in * by done. lia.
  - apply list_lookup_lookup_total_lt. rewrite valid_length by done. lia.
Qed.

Lemma ordered_outside_rearranged segs t t' pl pr :
  valid t → valid t' → segments_ok v segs → (pl, pr) ∈ segs →
  (∀ x, x < pl ∨ pr < x → t' !!! x = t !!! x) →
  ordered_outside v segs t → ordered_outside v segs t'.
Proof.
  intros Hv Hv' Hok Hin Hf Hord i j Hij Hj Hns.
  destruct (segments_ok_elem _ _ Hok Hin) as [Hle Hpr]. cbn in Hle, Hpr.
  destruct (decide (pl ≤ i ≤ pr)) as [Hi|Hi];
    destruct (decide (pl ≤ j ≤ pr)) as [Hj'|Hj'].
  - exfalso. apply Hns, Exists_exists. exists (pl, pr). cbn. split; [done|lia].
  - destruct (local_source t t' pl pr i) as (x & Hx & Hex); [done..|].
    unfold cell_key. rewrite Hex, Hf by lia.
    apply Hord; [lia|done|].
    intros (s & Hs & Hs1 & Hs2)%Exists_exists.
    destruct (segments_ok_disjoint _ _ _ Hok Hs Hin) as [->|Hd];
      cbn in *; lia.
  - destruct (local_source t t' pl pr j) as (x & Hx & Hex); [done..|].
    unfold cell_key. rewrite Hex, Hf by lia.
    apply Hord; [lia|lia|].
    intros (s & Hs & Hs1 & Hs2)%Exists_exists.
    destruct (segments_ok_disjoint _ _ _ Hok Hs Hin) as [->|Hd];
      cbn in *; lia.
  - unfold cell_key. rewrite !Hf by lia. by apply Hord.
Qed.

(** Dropping or narrowing pending ranges: what was in one range and no
    longer is must be in order. *)
Lemma ordered_outside_refine segs segs' t :
  ordered_outside v segs t →
  (∀ i j, i < j → j < n → same_segment segs i j →
          ¬ same_segment segs' i j → (K t i ≤ K t j)%Z) →
  ordered_outside v segs' t.
Proof.
  intros Hord Hnew i j Hij Hj Hns.
  destruct (decide (same_segment segs i j)); [by apply Hnew|by apply Hord].
Qed.

Lemma ordered_outside_split t pl pr pi stack segs' :
  ordered_outside v ((pl, pr) :: stack) t →
  pl < pi < pr →
  (∀ x, pl ≤ x < pi → (K t x ≤ K t pi)%Z) →
  (∀ y, pi < y ≤ pr → (K t pi ≤ K t y)%Z) →
  (∀ s, s ∈ (pl, pi - 1) :: (pi + 1, pr) :: stack → s ∈ segs') →
  ordered_outside v segs' t.
Proof.
  intros Hord Hpi Hlow Hhigh Hsub.
  apply (ordered_outside_refine _ _ _ Hord).
  intros i j Hij Hj Hs Hns. unfold same_segment in *.
  rewrite Exists_exists in Hns.
  apply Exists_cons in Hs as [[Hi Hj']|Hs]; cbn in *.
  - assert (¬ j ≤ pi - 1) as H1.
    { intros ?. apply Hns. exists (pl, pi - 1). split; [|done].
      apply Hsub. by left. }
    assert (¬ pi + 1 ≤ i) as H2.
    { intros ?. apply Hns. exists (pi + 1, pr). split; [|done].
      apply Hsub. right. by left. }
    destruct (decide (i = pi)) as [->|]; [apply Hhigh; lia|].
    destruct (decide (j = pi)) as [->|]; [apply Hlow; lia|].
    assert (K t i ≤ K t pi)%Z by (apply Hlow; lia).
    assert (K t pi ≤ K t j)%Z by (apply Hhigh; lia). lia.
  - exfalso. apply Exists_exists in Hs as (s & Hs & ?).
    apply Hns. exists s. split; [|done]. apply Hsub. by do 2 right.
Qed.

Lemma ordered_outside_pop t pl pr stack :
  ordered_outside v ((pl, pr) :: stack) t →
  sorted_between v t pl pr →
  ordered_outside v stack t.
Proof.
  intros Hord Hs. apply (ordered_outside_refine _ _ _ Hord).
  intros i j Hij Hj Hsame Hns. unfold same_segment in *.
  apply Exists_cons in Hsame as [[Hi Hj']|?]; [|done]. cbn in *.
  apply Hs; lia.
Qed.

Lemma segments_ok_split pl pr pi stack :
  segments_ok v ((pl, pr) :: stack) → pl < pi < pr →
  segments_ok v ((pl, pi - 1) :: (pi + 1, pr) :: stack)
  ∧ segments_ok v ((pi + 1, pr) :: (pl, pi - 1) :: stack).
Proof.
  intros (Hle & Hpr & Hall & Hok) Hpi. cbn in *.
  assert (Forall (λ s', pi - 1 < s'.1 ∨ s'.2 < pl) stack) as H1.
  { eapply Forall_impl; [exact Hall|]. cbn. lia. }
  assert (Forall (λ s', pr < s'.1 ∨ s'.2 < pi + 1) stack) as H2.
  { eapply Forall_impl; [exact Hall|]. cbn. lia. }
  split; (split_and!; [lia|lia| |lia|lia|done|done]);
    (constructor; [cbn; lia|done]).
Qed.

(** The outer loop sorts: once the pending ranges are done, all cells are
    in order. *)
Lemma quicksort_loop_spec :
  ∀ budget t pl pr stack,
    valid t →
    segments_ok v ((pl, pr) :: stack) →
    ordered_outside v ((pl, pr) :: stack) t →
    cost ((pl, pr) :: stack) ≤ budget →
    ∃ t', quicksort_loop SMALL_QUICKSORT v budget t pl pr stack = Some t'
          ∧ valid t' ∧ ordered_outside v [] t'.
Proof.
  induction budget as [|budget IH]; intros t pl pr stack Hv Hok Hord Hb;
    [cbn in Hb; lia|].
  pose proof Hok as (Hle & Hpr & Hall & Hok'). cbn in Hle, Hpr, Hb.
  cbn [quicksort_loop]. case_decide as Hlong.
  - destruct (partition_spec t pl pr)
      as (t1 & pi & -> & Hv1 & Hpi & Hf & Hlow & Hhigh); [done|lia|done|].
    cbn.
    assert (ordered_outside v ((pl, pr) :: stack) t1) as Hord1.
    { apply (ordered_outside_rearranged _ t t1 pl pr); try done. by left. }
    destruct (segments_ok_split pl pr pi stack Hok Hpi) as [Hok1 Hok2].
    case_decide.
    + apply IH; [done|done| |cbn; lia].
      apply (ordered_outside_split t1 pl pr pi stack); try done.
    + apply IH; [done|done| |cbn; lia].
      apply (ordered_outside_split t1 pl pr pi stack); try done.
      intros s. rewrite !elem_of_cons. tauto.
  - destruct (insertion_sort_spec pl (pr - pl) t (pl + 1))
      as (t1 & -> & Hv1 & Hs1 & Hf); [done|lia|lia| |].
    { intros a b Ha Hab Hb'. assert (a = b) as -> by lia. lia. }
    cbn. replace (pl + 1 + (pr - pl) - 1) with pr in * by lia.
    assert (ordered_outside v stack t1) as Hord1.
    { apply (ordered_outside_pop t1 pl pr); [|done].
      apply (ordered_outside_rearranged _ t t1 pl pr); try done. by left. }
    destruct stack as [|[pl' pr'] stack'].
    + by exists t1.
    + apply IH; [done|done|done|cbn in *; lia].
Qed.

Lemma ordered_sorted (ks : list Z) :
  (∀ i j x y, i < j → ks !! i = Some x → ks !! j = Some y → (x ≤ y)%Z) →
  Sorted Z.le ks.
Proof.
  intros H. apply StronglySorted_Sorted.
  induction ks as [|k ks IH]; constructor.
  - apply IH. intros i j x y Hij Hi Hj. by apply (H (S i) (S j)); [lia|..].
  - apply Forall_forall. intros y [j Hj]%list_elem_of_lookup.
    by apply (H 0 (S j)); [lia|..].
Qed.

(** [np.argsort] returns, for every list of keys, a permutation of the
    positions that reads the keys in ascending order. *)
Theorem np_argsort_sorts : argsort_ok SMALL_QUICKSORT v.
Proof.
  unfold argsort_ok, np_argsort.
  destruct (decide (n = 0)) as [Hn|Hn].
  - apply length_zero_iff_nil in Hn. rewrite Hn. exists []. cbn.
    split; [done|]. split; [done|constructor].
  - destruct (quicksort_loop_spec (2 * n + 1) (seq 0 n) 0 (n - 1) [])
      as (t' & Hrun & Hv' & Hord).
    + by unfold is_order.
    + cbn. split_and!; [lia|lia|constructor|done].
    + intros i j Hij Hj Hns. exfalso. apply Hns. constructor. cbn. lia.
    + cbn. lia.
    + exists t'. split; [done|]. split; [done|].
      apply ordered_sorted. intros i j x y Hij Hi Hj.
      rewrite list_lookup_fmap in Hi, Hj.
      destruct (t' !! i) as [a|] eqn:Ha; [|done].
      destruct (t' !! j) as [b|] eqn:Hb; [|done]. simplify_eq/=.
      assert (j < n).
      { rewrite <- (valid_length t') by done. by eapply lookup_lt_Some. }
      specialize (Hord i j Hij ltac:(done) ltac:(by intros ?%Exists_nil)).
      unfold cell_key in Hord.
      by rewrite (list_lookup_total_correct _ _ _ Ha),
                 (list_lookup_total_correct _ _ _ Hb) in Hord.
Qed.

End ArgsortCorrect.

(** ** order_traces: sorted, and idempotent on distinct timestamps *)

Section Order.

Context {V : Type}.
Variable SMALL_QUICKSORT : nat.
Hypothesis cutoff_ge_2 : 2 ≤ SMALL_QUICKSORT.
Implicit Types w : world V.

Lemma first_timestamp_run w t ts :
  first_ts w t = Some ts → first_timestamp t w = (Returns ts, w).
Proof.
  unfold first_ts, first_timestamp. intros H.
  destruct (series_of w t) as [s|] eqn:Hs; [|done]. cbn in H.
  rewrite (bind_returns _ _ _ _ _ (read_series_of _ _ _ Hs)).
  destruct (index s); by simplify_eq/=.
Qed.

Lemma comprehension_run {A B} (f : A → Py V B) (g : A → option B) w l k :
  (∀ x y, g x = Some y → f x w = (Returns y, w)) →
  mapM g l = Some k →
  comprehension f l w = (Returns k, w).
Proof.
  intros Hf Hk. apply mapM_Some_1 in Hk.
  induction Hk as [|x y l k Hxy _ IH]; [done|].
  cbn [comprehension]. rewrite (bind_returns _ _ _ _ _ (Hf _ _ Hxy)).
  by rewrite (bind_returns _ _ _ _ _ IH).
Qed.

Lemma gather_all {A} `{!Inhabited A} (l : list A) :
  (λ i, l !!! i) <$> seq 0 (length l) = l.
Proof.
  apply list_eq. intros i. rewrite list_lookup_fmap.
  destruct (decide (i < length l)) as [Hi|Hi].
  - rewrite lookup_seq_lt by done. cbn.
    by rewrite list_lookup_lookup_total_lt.
  - rewrite lookup_seq_ge by lia. by rewrite lookup_ge_None_2 by lia.
Qed.

Lemma gather_Permutation {A} `{!Inhabited A} (l : list A) order :
  order ≡ₚ seq 0 (length l) → (λ i, l !!! i) <$> order ≡ₚ l.
Proof. intros ->. by rewrite gather_all. Qed.

Lemma gather_mapM {A} `{!Inhabited A} (l : list A) order :
  order ≡ₚ seq 0 (length l) →
  mapM (λ i, l !! i) order = Some ((λ i, l !!! i) <$> order).
Proof.
  intros Hp. apply mapM_Some_2, Forall2_fmap_r, Forall_Forall2_diag.
  apply Forall_forall. intros i Hi. rewrite Hp in Hi.
  apply elem_of_seq in Hi. apply list_lookup_lookup_total_lt. lia.
Qed.

(** The keys of the gathered traces are the gathered keys. *)
Lemma gather_keys w traces keys order :
  mapM (first_ts w) traces = Some keys →
  order ≡ₚ seq 0 (length keys) →
  mapM (first_ts w) ((λ i, traces !!! i) <$> order)
  = Some ((λ i, keys !!! i) <$> order).
Proof.
  intros Hk Hp. apply mapM_Some_1 in Hk.
  apply mapM_Some_2, Forall2_fmap, Forall_Forall2_diag, Forall_forall.
  intros i Hi. rewrite Hp in Hi. apply elem_of_seq in Hi.
  destruct (lookup_lt_is_Some_2 keys i) as [k Hki]; [lia|].
  destruct (Forall2_lookup_r _ _ _ _ _ Hk Hki) as (t & Hti & Htk).
  by rewrite (list_lookup_total_correct _ _ _ Hti),
             (list_lookup_total_correct _ _ _ Hki).
Qed.

(** One run of [order_traces], given what [np.argsort] returned. *)
Lemma order_traces_run w traces keys order :
  mapM (first_ts w) traces = Some keys →
  np_argsort SMALL_QUICKSORT keys = Some order →
  order ≡ₚ seq 0 (length keys) →
  order_traces SMALL_QUICKSORT traces w
  = (Returns ((λ i, traces !!! i) <$> order), w).
Proof.
  intros Hk Ho Hp. unfold order_traces.
  rewrite (bind_returns _ _ _ _ _
             (comprehension_run _ _ _ _ _ (first_timestamp_run w) Hk)).
  rewrite Ho.
  assert (length traces = length keys) as Hlen.
  { apply mapM_Some_1 in Hk. by eapply Forall2_length. }
  rewrite <- Hlen in Hp.
  rewrite (bind_returns _ _ w ((λ i, traces !!! i) <$> order) w); [done|].
  apply (comprehension_run _ (λ i, traces !! i)); [|by apply gather_mapM].
  intros i t Hi. unfold getitem. by rewrite Hi.
Qed.

(** A permutation of the positions that reads pairwise distinct ascending
    keys in ascending order is the identity. *)
Lemma sorts_sorted_distinct (keys : list Z) order :
  Sorted Z.le keys → NoDup keys → sorts keys order →
  order = seq 0 (length keys).
Proof.
  intros Hs Hnd [Hp Hso].
  assert ((λ i, keys !!! i) <$> order = keys) as Heq.
  { apply (Sorted_unique Z.le); [done..|]. by apply gather_Permutation. }
  apply list_eq_same_length with (length keys).
  - by rewrite length_seq.
  - by rewrite Hp, length_seq.
  - intros i x y Hi Hx Hy. apply lookup_seq in Hy as [-> _]. cbn.
    apply (f_equal (λ l, l !! i)) in Heq.
    rewrite list_lookup_fmap, Hx in Heq. cbn in Heq.
    assert (x < length keys) as Hxlt.
    { apply list_elem_of_lookup_2 in Hx. rewrite Hp in Hx.
      apply elem_of_seq in Hx. lia. }
    rewrite <- (list_lookup_lookup_total_lt keys x Hxlt) in Heq.
    destruct (lookup_lt_is_Some_2 keys i Hi) as [k Hk].
    apply (NoDup_lookup keys x i k); congruence.
Qed.

(** C8, as the code has it.  For every list of traces that each have a
    first timestamp, [order_traces] returns the same traces sorted ascending
    by first timestamp and touches nothing, whichever numpy cut-off (at
    least 2; numpy has 15 or 16) is in force.  Applied to its own output it
    returns traces with the same sequence of first timestamps; it returns
    the output itself when no two traces share a first timestamp.  (Traces
    that share one may come back in another order: the sort is not
    stable.) *)
Theorem order_traces_sorted (traces : list ApplianceTrace) (keys : list Z) w :
  mapM (first_ts w) traces = Some keys →
  ∃ out keys',
    order_traces SMALL_QUICKSORT traces w = (Returns out, w)
    ∧ out ≡ₚ traces
    ∧ mapM (first_ts w) out = Some keys'
    ∧ Sorted Z.le keys'
    ∧ ∃ out2,
        order_traces SMALL_QUICKSORT out w = (Returns out2, w)
        ∧ mapM (first_ts w) out2 = Some keys'
        ∧ (NoDup keys → out2 = out).
Proof.
  intros Hk. destruct (np_argsort_sorts _ cutoff_ge_2 keys) as (order & Ho & Hp & Hs).
  assert (length traces = length keys) as Hlen.
  { apply mapM_Some_1 in Hk. by eapply Forall2_length. }
  set (out := (λ i, traces !!! i) <$> order).
  set (keys' := (λ i, keys !!! i) <$> order).
  assert (Hk' : mapM (first_ts w) out = Some keys') by by apply gather_keys.
  assert (Hpk : keys' ≡ₚ keys) by by apply gather_Permutation.
  exists out, keys'. split_and!.
  - by eapply order_traces_run.
  - apply gather_Permutation. by rewrite Hlen.
  - done.
  - done.
  - destruct (np_argsort_sorts _ cutoff_ge_2 keys') as (order2 & Ho2 & Hp2 & Hs2).
    exists ((λ i, out !!! i) <$> order2). split_and!.
    + by eapply order_traces_run.
    + rewrite (gather_keys _ _ _ _ Hk' Hp2). f_equal.
      apply (Sorted_unique Z.le); [done..|]. by apply gather_Permutation.
    + intros Hnd.
      rewrite (sorts_sorted_distinct keys' order2); [| |by rewrite Hpk|];
        try done.
      replace (length keys') with (length out); [apply gather_all|].
      unfold out, keys'. by rewrite !length_fmap.
Qed.

End Order.

(** Three traces starting at 5, 3 and 4, under numpy 1.8. *)
Lemma order_traces_sorted_witness :
  let w := mkWorld [mkSeries [(5, 1)]%Z None; mkSeries [(3, 1); (6, 1)]%Z None;
                    mkSeries [(4, 1)]%Z None] [] in
  let traces := [mkTrace 0 ∅; mkTrace 1 ∅; mkTrace 2 ∅] in
  ∃ out keys',
    order_traces 15 traces w = (Returns out, w)
    ∧ out ≡ₚ traces
    ∧ mapM (first_ts w) out = Some keys'
    ∧ Sorted Z.le keys'
    ∧ ∃ out2,
        order_traces 15 out w = (Returns out2, w)
        ∧ mapM (first_ts w) out2 = Some keys'
        ∧ (NoDup [5; 3; 4]%Z → out2 = out).
Proof.
  intros w traces.
  apply (order_traces_sorted 15 ltac:(lia) traces [5; 3; 4]%Z w).
  reflexivity.
Defined.

(** Equal keys are permuted.  Seventeen equal keys under the cut-off 15 of
    numpy 1.8, eighteen under either cut-off: *)
Example np_argsort_equal_keys :
  np_argsort 15 (replicate 17 0%Z)
  = Some [0; 14; 13; 12; 11; 10; 9; 15; 8; 6; 5; 4; 3; 2; 1; 7; 16]
  ∧ np_argsort 15 (replicate 18 0%Z)
    = Some [0; 15; 14; 13; 12; 11; 10; 9; 8; 7; 6; 5; 4; 3; 2; 1; 16; 17]
  ∧ np_argsort 16 (replicate 18 0%Z)
    = Some [0; 15; 14; 13; 12; 11; 10; 9; 8; 7; 6; 5; 4; 3; 2; 1; 16; 17].
Proof. split_and!; by vm_compute. Qed.

(** C8 as stated fails: [order_traces] is not idempotent.  Eighteen traces
    that all start at the same timestamp come back with the traces at
    positions 1 to 15 reversed, and ordering that output gives the original
    list back, not the output; so it is with the cut-off 15 and with the
    cut-off 16. *)
Lemma order_traces_not_idempotent :
  let w := mkWorld (replicate 18 (mkSeries [(0, 1)]%Z None)) [] in
  let traces := (λ i, mkTrace i ∅) <$> seq 0 18 in
  let out := (λ i, mkTrace i ∅)
               <$> [0; 15; 14; 13; 12; 11; 10; 9; 8; 7; 6; 5; 4; 3; 2; 1;
                    16; 17] in
  order_traces 15 traces w = (Returns out, w)
  ∧ order_traces 15 out w = (Returns traces, w)
  ∧ order_traces 16 traces w = (Returns out, w)
  ∧ order_traces 16 out w = (Returns traces, w)
  ∧ traces ≠ out.
Proof. intros w traces out. split_and!; [by vm_compute..|discriminate]. Qed.

(** * The rest of the module *)

(** ** get_common_ids *)

Section CommonIds.

Context {V : Type}.
Implicit Types w : world V.

Lemma elem_of_foldl_intersection (x : Z) (sets : list (gset Z)) :
  ∀ s0 : gset Z,
    x ∈ foldl (λ a b, a ∩ b) s0 sets ↔ x ∈ s0 ∧ Forall (λ s, x ∈ s) sets.
Proof.
  induction sets as [|s sets IH]; intros s0; cbn.
  - split; [by split|by intros [? _]].
  - rewrite IH, elem_of_intersection, Forall_cons. tauto.
Qed.

Lemma sorted_NoDup_strict (l : list Z) :
  Sorted Z.le l → NoDup l → StronglySorted Z.lt l.
Proof.
  intros Hs Hnd. apply (Sorted_StronglySorted Z.le) in Hs.
  induction Hs as [|x l _ IH Hall]; [constructor|].
  apply NoDup_cons in Hnd as [Hx Hnd]. constructor; [by apply IH|].
  rewrite Forall_forall in *. intros y Hy. specialize (Hall y Hy).
  destruct (decide (x = y)) as [->|]; [done|lia].
Qed.

Lemma strict_sorted_le (l : list Z) :
  StronglySorted Z.lt l → Sorted Z.le l ∧ NoDup l.
Proof.
  induction 1 as [|x l _ [IHs IHn] Hall]; [by split; constructor|].
  rewrite Forall_forall in Hall. split.
  - constructor; [done|]. destruct l as [|y l]; constructor.
    specialize (Hall y ltac:(by left)). lia.
  - constructor; [|done]. intros Hin. specialize (Hall x Hin). lia.
Qed.

(** What [get_common_ids] computes from a first list and the others. *)
Lemma get_common_ids_run (first : list Z) (others : list (list Z)) w :
  get_common_ids (first :: others) w
  = (Returns
       (sorted (elements
                  (foldl (λ a b, a ∩ b) (list_to_set first : gset Z)
                     ((λ l, list_to_set l : gset Z) <$> others)))), w).
Proof. done. Qed.

(** X1. For a non-empty list of id lists, [get_common_ids] returns, without
    touching anything, the ids that occur in every one of the lists, each
    once, in strictly ascending order, whatever the order of the ids in the
    lists and however often they are repeated there. *)
Theorem get_common_ids_intersection
    (first : list Z) (others : list (list Z)) w :
  ∃ common,
    get_common_ids (first :: others) w = (Returns common, w)
    ∧ StronglySorted Z.lt common
    ∧ ∀ x, x ∈ common ↔ Forall (λ id_list, x ∈ id_list) (first :: others).
Proof.
  eexists. split; [apply get_common_ids_run|]. unfold sorted. split.
  - apply sorted_NoDup_strict; [apply (Sorted_merge_sort Z.le)|].
    rewrite merge_sort_Permutation. apply NoDup_elements.
  - intros x. rewrite merge_sort_Permutation, elem_of_elements.
    rewrite elem_of_foldl_intersection, elem_of_list_to_set, Forall_cons.
    rewrite Forall_fmap. apply and_iff_compat_l.
    apply Forall_iff. intros l. cbn. apply elem_of_list_to_set.
Qed.

(** X2. The result of [get_common_ids] does not depend on the order in
    which the id lists are given. *)
Theorem get_common_ids_any_order (id_lists id_lists' : list (list Z)) w :
  id_lists ≡ₚ id_lists' →
  get_common_ids id_lists w = get_common_ids id_lists' w.
Proof.
  intros Hp.
  destruct id_lists as [|l ls].
  { apply Permutation_nil_l in Hp as <-. done. }
  destruct id_lists' as [|l' ls'].
  { by apply Permutation_nil_r in Hp. }
  destruct (get_common_ids_intersection l ls w) as (c & -> & Hs & Hc).
  destruct (get_common_ids_intersection l' ls' w) as (c' & -> & Hs' & Hc').
  apply strict_sorted_le in Hs as [Hs Hn], Hs' as [Hs' Hn'].
  do 2 f_equal. apply (Sorted_unique Z.le); [done..|].
  apply NoDup_Permutation; [done..|].
  intros x. rewrite Hc, Hc'. by rewrite Hp.
Qed.

End CommonIds.

Lemma get_common_ids_any_order_witness :
  let w : world Z := mkWorld [] [] in
  get_common_ids [[1; 2; 3]; [2; 3; 4]; [3; 4; 5]]%Z w
  = get_common_ids [[2; 3; 4]; [1; 2; 3]; [3; 4; 5]]%Z w.
Proof.
  intros w. apply (get_common_ids_any_order _ _ w). apply perm_swap.
Defined.

(** ** get_train_valid_test_indices *)

Section TrainValidTest.

Variable shuffle : list Z → list Z.

Lemma range_length (n : Z) : length (range n) = Z.to_nat n.
Proof. unfold range. by rewrite length_fmap, length_seq. Qed.

Lemma slice_whole_split (l : list Z) (a b : Z) :
  (0 ≤ a)%Z → (0 ≤ b)%Z → (a + b ≤ Z.of_nat (length l))%Z →
  slice l 0 a = take (Z.to_nat a) l
  ∧ slice l a (a + b) = take (Z.to_nat b) (drop (Z.to_nat a) l)
  ∧ slice l (a + b) (Z.of_nat (length l)) = drop (Z.to_nat (a + b)) l.
Proof.
  intros Ha Hb Hab. split_and!.
  - rewrite <- (Z.add_0_l a) at 1. by rewrite slice_inside by lia.
  - by rewrite slice_inside by lia.
  - replace (Z.of_nat (length l))
      with (a + b + (Z.of_nat (length l) - (a + b)))%Z at 1 by lia.
    rewrite slice_inside by lia. apply take_ge. rewrite length_drop. lia.
Qed.

(** X3. Whatever permutation of 0..n-1 the shuffle leaves, the [assert] of
    [get_train_valid_test_indices] passes and the three lists returned are
    each ascending and together hold every index 0..n-1 exactly once; for
    n >= 0 their lengths are n/2, n/4 and n - n/2 - n/4 (integer division),
    so the third list is longer than n/4 whenever n is not a multiple of
    4. *)
Theorem get_train_valid_test_indices_partition (n : Z) :
  shuffle (range n) ≡ₚ range n →
  ∃ train valid test,
    get_train_valid_test_indices shuffle n = Some (train, valid, test)
    ∧ train ++ valid ++ test ≡ₚ range n
    ∧ Sorted Z.le train ∧ Sorted Z.le valid ∧ Sorted Z.le test
    ∧ ((0 ≤ n)%Z →
       Z.of_nat (length train) = (n / 2)%Z
       ∧ Z.of_nat (length valid) = (n / 4)%Z
       ∧ Z.of_nat (length test) = (n - n / 2 - n / 4)%Z).
Proof.
  intros Hp. unfold get_train_valid_test_indices.
  rewrite decide_True by lia.
  set (indices := shuffle (range n)) in *.
  eexists _, _, _. split; [done|]. unfold sorted.
  split_and!; try apply (Sorted_merge_sort Z.le).
  - rewrite !merge_sort_Permutation, <- Hp.
    destruct (decide (0 ≤ n)%Z) as [Hn|Hn].
    + assert (length indices = Z.to_nat n) as Hlen.
      { by rewrite Hp, range_length. }
      pose proof (Z.div_pos n 2 Hn ltac:(lia)).
      pose proof (Z.div_pos n 4 Hn ltac:(lia)).
      pose proof (Z.mul_div_le n 2 ltac:(lia)).
      pose proof (Z.mul_div_le n 4 ltac:(lia)).
      destruct (slice_whole_split indices (n / 2) (n / 4))
        as (-> & -> & ->); [lia..|].
      rewrite Z2Nat.inj_add by lia.
      by rewrite app_assoc, take_take_drop, take_drop.
    + assert (indices = []) as ->.
      { apply Permutation_nil_r. rewrite Hp. unfold range.
        by replace (Z.to_nat n) with 0 by lia. }
      unfold slice. by rewrite !drop_nil, !take_nil.
  - intros Hn.
    assert (length indices = Z.to_nat n) as Hlen.
    { by rewrite Hp, range_length. }
    pose proof (Z.div_pos n 2 Hn ltac:(lia)).
    pose proof (Z.div_pos n 4 Hn ltac:(lia)).
    pose proof (Z.mul_div_le n 2 ltac:(lia)).
    pose proof (Z.mul_div_le n 4 ltac:(lia)).
    destruct (slice_whole_split indices (n / 2) (n / 4))
      as (-> & -> & ->); [lia..|].
    rewrite !merge_sort_Permutation.
    rewrite !length_take, !length_drop. lia.
Qed.

End TrainValidTest.

(** Seven indices left in reverse order by the shuffle. *)
Lemma get_train_valid_test_indices_partition_witness :
  ∃ train valid test,
    get_train_valid_test_indices reverse 7 = Some (train, valid, test)
    ∧ train ++ valid ++ test ≡ₚ range 7
    ∧ Sorted Z.le train ∧ Sorted Z.le valid ∧ Sorted Z.le test
    ∧ ((0 ≤ 7)%Z →
       Z.of_nat (length train) = (7 / 2)%Z
       ∧ Z.of_nat (length valid) = (7 / 4)%Z
       ∧ Z.of_nat (length test) = (7 - 7 / 2 - 7 / 4)%Z).
Proof.
  apply (get_train_valid_test_indices_partition reverse 7).
  apply reverse_Permutation.
Defined.

(** ** aggregate_traces: which objects it touches *)

Section AggregateFrame.

Context {V : Type} (add : V → V → V).
Implicit Types w : world V.

(** Where [+=] rebinds, every pass of the loop creates one series object,
    and the loop ends bound to the last one created. *)
Lemma sum_loop_rebinding_fresh rest :
  ∀ ss l acc w,
    store w !! l = Some acc →
    Forall2 (λ t s, store w !! series t = Some s ∧ index s = index acc)
      rest ss →
    ∃ fresh,
      sum_loop add false l rest w
      = (Returns (if rest is [] then l
                  else length (store w) + length rest - 1),
         mkWorld (store w ++ fresh) (stdout w))
      ∧ length fresh = length rest
      ∧ ∀ i, i < length rest →
          ∃ a, fresh !! i = Some a
               ∧ index a = index acc
               ∧ values a = foldl (zip_with add) (values acc)
                              (values <$> take (S i) ss).
Proof.
  induction rest as [|t rest IH]; intros ss l acc w Hacc Hall.
  - exists []. cbn. rewrite app_nil_r, world_eta. split_and!; [done..|].
    intros i Hi. lia.
  - inversion Hall as [|? s ? ss' (Hs & Hidx) Hrest]; subst.
    destruct (series_add_aligned add acc s) as [acc1 Hadd]; [done|].
    set (w1 := mkWorld (store w ++ [acc1]) (stdout w)).
    destruct (IH ss' (length (store w)) acc1 w1)
      as (fresh & Hrun & Hlen & Hsums).
    { cbn. by apply list_lookup_middle. }
    { eapply Forall2_impl; [exact Hrest|]. cbn.
      intros t' s' (Hs' & Hidx'). split.
      - rewrite lookup_app_l; [done|]. by eapply lookup_lt_Some.
      - rewrite Hidx'. symmetry. by eapply series_add_index. }
    exists (acc1 :: fresh). split_and!; [|by cbn; f_equal|].
    + cbn [sum_loop].
      rewrite (bind_returns _ _ _ _ _
                 (iadd_rebinding _ _ _ _ _ _ _ Hacc Hs Hadd)).
      fold w1. rewrite Hrun. cbn. rewrite <- app_assoc. cbn.
      do 2 f_equal. rewrite length_app. cbn. destruct rest; cbn; lia.
    + intros [|i] Hi.
      * exists acc1. split_and!; [done|by eapply series_add_index|].
        cbn. rewrite take_0. cbn. by apply series_add_values.
      * destruct (Hsums i) as (a & Ha & Hia & Hva); [cbn in Hi; lia|].
        exists a. split_and!; [done| |].
        -- rewrite Hia. by eapply series_add_index.
        -- rewrite Hva. cbn. f_equal. by apply series_add_values.
Qed.

Lemma aligned_with (P : ApplianceTrace → Prop) (idx : list Timestamp)
    (s0 : Series V) rest w :
  index s0 = idx →
  Forall (λ t, ∃ s, series_of w t = Some s ∧ index s = idx) rest →
  Forall P rest →
  ∃ ss, Forall2 (λ t s, P t ∧ store w !! series t = Some s
                        ∧ index s = index s0) rest ss.
Proof.
  intros Hi0 Hal HP.
  induction Hal as [|t rest (s & Hs & Hi) _ IH]; [by exists []|].
  apply Forall_cons in HP as [Ht HP]. destruct (IH HP) as [ss Hss].
  exists (s :: ss). constructor; [|done]. split_and!; [done|done|congruence].
Qed.

(** The strict branch on aligned traces, in either mode of [+=]: the
    result, and what is left as it was. *)
Lemma aggregate_traces_run (inplace_ops : bool) t0 rest md s0 ss w :
  store w !! series t0 = Some s0 →
  Forall2 (λ t s, (inplace_ops = true → series t ≠ series t0)
                  ∧ store w !! series t = Some s
                  ∧ index s = index s0) rest ss →
  ∃ l' w' acc',
    aggregate_traces add inplace_ops (t0 :: rest) md "strict" w
    = (Returns (PTrace (mkTrace l' md)), w')
    ∧ store w' !! l' = Some acc'
    ∧ index acc' = index s0
    ∧ values acc' = foldl (zip_with add) (values s0) (values <$> ss)
    ∧ stdout w' = stdout w
    ∧ (inplace_ops = true → l' = series t0)
    ∧ ∀ l s, (inplace_ops = true → l ≠ series t0) →
             store w !! l = Some s → store w' !! l = Some s.
Proof.
  intros Hs0 Hss.
  assert (∀ l' w',
    sum_loop add inplace_ops (series t0) rest w = (Returns l', w') →
    aggregate_traces add inplace_ops (t0 :: rest) md "strict" w
    = (Returns (PTrace (mkTrace l' md)), w')) as Hagg.
  { intros l' w' Hrun. unfold aggregate_traces. rewrite decide_True by done.
    rewrite (bind_returns _ _ w t0 w) by done. cbn [drop].
    by rewrite (bind_returns _ _ _ _ _ Hrun). }
  destruct inplace_ops.
  - destruct (sum_loop_in_place add (series t0) rest ss s0 w Hs0)
      as (acc' & Hrun & Hi & Hv).
    { eapply Forall2_impl; [exact Hss|]. cbn.
      intros t s (Hne & Hs & Hi). split; [by apply Hne|done]. }
    eexists _, _, acc'. split; [by apply Hagg|]. cbn.
    split_and!; [|done..|].
    + apply list_lookup_insert_eq. by eapply lookup_lt_Some.
    + intros l s Hne Hl. rewrite list_lookup_insert_ne; [done|].
      intros Heq. by apply Hne.
  - destruct (sum_loop_rebinding add rest ss (series t0) s0 w Hs0)
      as (l' & acc' & fresh & Hrun & Hl' & Hi & Hv).
    { eapply Forall2_impl; [exact Hss|]. cbn.
      intros t s (_ & Hs & Hi). by split. }
    eexists _, _, acc'. split; [by apply Hagg|]. cbn.
    split_and!; [done..|].
    intros l s _ Hl. by apply lookup_app_l_Some.
Qed.

(** X4. With the in-place [+=], [aggregate_traces] on aligned traces whose
    first series object is not also the series object of a later trace
    returns a trace that refers to the series object of the first input: no
    series object is created, the object of the first input is the only
    one written, and nothing is printed. *)
Theorem aggregate_traces_in_place_frame
    (t0 : ApplianceTrace) (rest : list ApplianceTrace) (md : dict)
    (idx : list Timestamp) w :
  Forall (λ t, ∃ s, series_of w t = Some s ∧ index s = idx) (t0 :: rest) →
  series t0 ∉ series <$> rest →
  ∃ s', aggregate_traces add true (t0 :: rest) md "strict" w
        = (Returns (PTrace (mkTrace (series t0) md)),
           mkWorld (<[series t0 := s']> (store w)) (stdout w))
        ∧ index s' = idx.
Proof.
  intros Hal Hdist.
  apply Forall_cons in Hal as [(s0 & Hs0 & Hi0) Hal].
  destruct (aligned_with (λ t, series t ≠ series t0) idx s0 rest w)
    as [ss Hss]; [done..| |].
  { apply Forall_forall. intros t Ht Heq. apply Hdist.
    rewrite <- Heq. by apply list_elem_of_fmap_2. }
  destruct (sum_loop_in_place add (series t0) rest ss s0 w Hs0 Hss)
    as (acc' & Hrun & Hi & _).
  exists acc'. split; [|congruence].
  unfold aggregate_traces. rewrite decide_True by done.
  rewrite (bind_returns _ _ w t0 w) by done. cbn [drop].
  by rewrite (bind_returns _ _ _ _ _ Hrun).
Qed.

(** X5. Where [+=] rebinds, [aggregate_traces] on k aligned traces leaves
    every existing series object as it was and creates k-1 new ones, the
    running sums: new object number i has the timestamps of the inputs and
    holds the position-wise sum of the first i+2 input series.  The trace
    returned refers to the last of them.  Given a single trace, in
    particular, nothing is created and the trace returned shares its series
    object with the input. *)
Theorem aggregate_traces_rebinding_fresh
    (t0 : ApplianceTrace) (rest : list ApplianceTrace) (md : dict)
    (idx : list Timestamp) w :
  Forall (λ t, ∃ s, series_of w t = Some s ∧ index s = idx) (t0 :: rest) →
  ∃ l' fresh ss,
    aggregate_traces add false (t0 :: rest) md "strict" w
    = (Returns (PTrace (mkTrace l' md)),
       mkWorld (store w ++ fresh) (stdout w))
    ∧ length fresh = length rest
    ∧ l' = (if rest is [] then series t0
            else length (store w) + length rest - 1)
    ∧ mapM (series_of w) (t0 :: rest) = Some ss
    ∧ ∀ i, i < length rest →
        ∃ a, fresh !! i = Some a
             ∧ index a = idx
             ∧ sum_columns add (take (S (S i)) ss) = Some (values a).
Proof.
  intros Hal.
  apply Forall_cons in Hal as [(s0 & Hs0 & Hi0) Hal].
  destruct (aligned_with (λ _, True) idx s0 rest w) as [ss Hss];
    [done..|by apply Forall_true|].
  destruct (sum_loop_rebinding_fresh rest ss (series t0) s0 w Hs0)
    as (fresh & Hrun & Hlen & Hsums).
  { eapply Forall2_impl; [exact Hss|]. cbn. by intros t s (_ & ? & ?). }
  eexists _, fresh, (s0 :: ss). split_and!; [|done|done| |].
  - unfold aggregate_traces. rewrite decide_True by done.
    rewrite (bind_returns _ _ w t0 w) by done. cbn [drop].
    by rewrite (bind_returns _ _ _ _ _ Hrun).
  - apply mapM_Some_2. constructor; [done|].
    eapply Forall2_impl; [exact Hss|]. cbn. by intros t s (_ & ? & _).
  - intros i Hi. destruct (Hsums i Hi) as (a & Ha & Hia & Hva).
    exists a. split_and!; [done|congruence|]. cbn. by rewrite Hva.
Qed.

End AggregateFrame.

Lemma aggregate_traces_in_place_frame_witness :
  let w := mkWorld [mkSeries [(0, 1); (60, 2)]%Z None;
                    mkSeries [(0, 10); (60, 20)]%Z None;
                    mkSeries [(0, 100); (60, 200)]%Z None] [] in
  ∃ s', aggregate_traces Z.add true [mkTrace 0 ∅; mkTrace 1 ∅; mkTrace 2 ∅]
          {["name" := MStr "total"]} "strict" w
        = (Returns (PTrace (mkTrace 0 {["name" := MStr "total"]})),
           mkWorld (<[0 := s']> (store w)) (stdout w))
        ∧ index s' = [0; 60]%Z.
Proof.
  intros w.
  apply (aggregate_traces_in_place_frame Z.add (mkTrace 0 ∅)
           [mkTrace 1 ∅; mkTrace 2 ∅] {["name" := MStr "total"]}
           [0; 60]%Z w).
  - repeat (constructor; [eexists; split; reflexivity|]). constructor.
  - cbn. rewrite !not_elem_of_cons.
    split_and!; [lia..|apply not_elem_of_nil].
Defined.

Lemma aggregate_traces_rebinding_fresh_witness :
  let w := mkWorld [mkSeries [(0, 1); (60, 2)]%Z None;
                    mkSeries [(0, 10); (60, 20)]%Z None;
                    mkSeries [(0, 100); (60, 200)]%Z None] [] in
  let traces := [mkTrace 0 ∅; mkTrace 1 ∅; mkTrace 2 ∅] in
  ∃ l' fresh ss,
    aggregate_traces Z.add false traces ∅ "strict" w
    = (Returns (PTrace (mkTrace l' ∅)),
       mkWorld (store w ++ fresh) (stdout w))
    ∧ length fresh = 2
    ∧ l' = 3 + 2 - 1
    ∧ mapM (series_of w) traces = Some ss
    ∧ ∀ i, i < 2 →
        ∃ a, fresh !! i = Some a
             ∧ index a = [0; 60]%Z
             ∧ sum_columns Z.add (take (S (S i)) ss) = Some (values a).
Proof.
  intros w traces.
  apply (aggregate_traces_rebinding_fresh Z.add (mkTrace 0 ∅)
           [mkTrace 1 ∅; mkTrace 2 ∅] ∅ [0; 60]%Z w).
  repeat (constructor; [eexists; split; reflexivity|]). constructor.
Defined.

(** ** aggregate_instances *)

Section AggregateInstances.

Context {V : Type} (add : V → V → V) (inplace_ops : bool).
Implicit Types w : world V.

Lemma submseteq_NoDup {A} (l k : list A) : l ⊆+ k → NoDup k → NoDup l.
Proof.
  intros Hsub Hk. apply submseteq_Permutation in Hsub as [k' Hk'].
  rewrite Hk' in Hk. by apply NoDup_app in Hk as (? & _ & _).
Qed.

Lemma mapM_fmap {A B C} (f : B → option C) (g : A → B) (l : list A) :
  mapM f (g <$> l) = mapM (λ x, f (g x)) l.
Proof. induction l as [|x l IH]; [done|]. cbn. by rewrite IH. Qed.

Lemma elem_of_concat {A} (x : A) l ls : x ∈ l → l ∈ ls → x ∈ concat ls.
Proof.
  intros Hx Hl. induction ls as [|l' ls IH]; [by apply elem_of_nil in Hl|].
  cbn. rewrite elem_of_app.
  apply elem_of_cons in Hl as [->|Hl]; [by left|right; by apply IH].
Qed.

(** *** The transpose *)

Lemma mapM_head_concat {A} (ls : list (list A)) hs :
  mapM head ls = Some hs → concat ls ≡ₚ hs ++ concat (tail <$> ls).
Proof.
  intros H. apply mapM_Some in H.
  induction H as [|r h ls hs Hh _ IH]; [done|].
  destruct r as [|x tl]; simplify_eq/=. rewrite IH. constructor.
  rewrite !app_assoc. f_equiv. apply Permutation_app_comm.
Qed.

Lemma zip_rows_submseteq {A} n (ls : list (list A)) :
  concat (zip_rows n ls) ⊆+ concat ls.
Proof.
  revert ls. induction n as [|n IH]; intros ls; cbn;
    [apply submseteq_nil_l|].
  destruct (mapM head ls) as [hs|] eqn:Hhs; [|apply submseteq_nil_l].
  cbn. rewrite (mapM_head_concat ls hs Hhs).
  apply submseteq_app; [done|apply IH].
Qed.

Lemma zip_star_submseteq {A} (ls : list (list A)) :
  concat (zip_star ls) ⊆+ concat ls.
Proof. destruct ls; [done|]. apply zip_rows_submseteq. Qed.

Lemma zip_rows_lookup {A} n : ∀ (ls : list (list A)) j,
  zip_rows n ls !! j
  = if decide (j < n) then mapM (λ l, l !! j) ls else None.
Proof.
  induction n as [|n IH]; intros ls j; cbn.
  { by rewrite decide_False by lia. }
  destruct (mapM head ls) as [hs|] eqn:Hhs.
  - destruct j as [|j]; cbn.
    + rewrite decide_True by lia. rewrite <- Hhs.
      apply mapM_ext. intros l. apply head_lookup.
    + rewrite IH, mapM_fmap.
      destruct (decide (j < n)) as [Hj|Hj].
      * rewrite decide_True by lia. apply mapM_ext. intros r.
        apply lookup_tail.
      * by rewrite decide_False by lia.
  - rewrite lookup_nil. case_decide; [|done]. symmetry.
    apply mapM_None_2. apply mapM_None_1 in Hhs.
    eapply Exists_impl; [exact Hhs|]. cbn. by intros [|??] ?.
Qed.

(** Row [j] of the transpose holds entry [j] of every list, and there is
    such a row as long as every list has an entry [j]. *)
Lemma zip_star_lookup {A} (l0 : list A) ls j :
  zip_star (l0 :: ls) !! j = mapM (λ l, l !! j) (l0 :: ls).
Proof.
  unfold zip_star. rewrite zip_rows_lookup. case_decide as Hj; [done|].
  cbn. by rewrite lookup_ge_None_2 by lia.
Qed.

(** *** The comprehension over the columns *)

Abbreviation aggregate_column :=
  (λ t, let* r := aggregate_traces add inplace_ops t ∅ "strict" in
        match r with
        | PTrace tr => ret tr
        | _ => out_of_model
        end).

Lemma aggregate_columns_run (σ : ApplianceTrace → option (Series V))
    (idx : list Timestamp) cols : ∀ w,
  Forall (λ col, col ≠ []) cols →
  Forall (λ t, ∃ s, σ t = Some s ∧ series_of w t = Some s ∧ index s = idx)
    (concat cols) →
  (inplace_ops = true → NoDup (series <$> concat cols)) →
  ∃ out w',
    comprehension aggregate_column cols w = (Returns out, w')
    ∧ stdout w' = stdout w
    ∧ (∀ l s, (inplace_ops = true → l ∉ series <$> concat cols) →
              store w !! l = Some s → store w' !! l = Some s)
    ∧ Forall2 (λ col t,
         metadata t = ∅
         ∧ ∃ s' ss, series_of w' t = Some s' ∧ index s' = idx
                    ∧ mapM σ col = Some ss
                    ∧ sum_columns add ss = Some (values s')) cols out.
Proof.
  induction cols as [|col cols IH]; intros w Hne Hal Hnd.
  { exists [], w. by split_and!. }
  apply Forall_cons in Hne as [Hcol Hne].
  destruct col as [|t0 rest]; [done|]. clear Hcol.
  cbn [concat] in Hal, Hnd. rewrite <- app_comm_cons in Hal, Hnd.
  apply Forall_cons in Hal as [(s0 & Hσ0 & Hs0 & Hi0) Hal].
  apply Forall_app in Hal as [Hrest Hal].
  assert (inplace_ops = true →
          series t0 ∉ series <$> rest ++ concat cols) as Hfirst.
  { intros Hin. specialize (Hnd Hin). rewrite fmap_cons in Hnd.
    by apply NoDup_cons in Hnd as []. }
  assert (inplace_ops = true → NoDup (series <$> concat cols)) as Hnd'.
  { intros Hin. specialize (Hnd Hin). rewrite fmap_cons, fmap_app in Hnd.
    apply NoDup_cons in Hnd as [_ Hnd]. by apply NoDup_app in Hnd as (_&_&?). }
  assert (∃ ss, Forall2 (λ t s, (inplace_ops = true → series t ≠ series t0)
                                ∧ store w !! series t = Some s
                                ∧ index s = index s0) rest ss
                ∧ mapM σ rest = Some ss) as (ss & Hss & Hσss).
  { clear Hnd Hnd' IH Hal.
    induction Hrest as [|t rest (s & Hσ & Hs & Hi) _ IHr].
    { by exists []. }
    destruct IHr as (ss & Hss & Hσss).
    { intros Hin Hel. apply (Hfirst Hin). rewrite fmap_app in *.
      rewrite fmap_cons. rewrite elem_of_app in *. rewrite elem_of_cons.
      tauto. }
    exists (s :: ss). split.
    - constructor; [|done]. split_and!; [|done|congruence].
      intros Hin Heq. apply (Hfirst Hin). rewrite fmap_app, fmap_cons.
      rewrite elem_of_app, elem_of_cons. left. by left.
    - cbn. by rewrite Hσ, Hσss. }
  destruct (aggregate_traces_run add inplace_ops t0 rest ∅ s0 ss w Hs0 Hss)
    as (l1 & w1 & acc1 & Hrun & Hl1 & Hi1 & Hv1 & Hout1 & Hl1' & Hframe1).
  destruct (IH w1) as (out & w' & Hrun' & Hout' & Hframe' & Hall');
    [done| |done|].
  { apply Forall_forall. intros t Ht.
    destruct (proj1 (Forall_forall _ _) Hal t Ht) as (s & Hσ & Hs & Hi).
    exists s. split_and!; [done| |done]. apply Hframe1; [|done].
    intros Hin Heq. apply (Hfirst Hin). rewrite fmap_app, elem_of_app.
    right. rewrite <- Heq. by apply list_elem_of_fmap_2. }
  exists (mkTrace l1 ∅ :: out), w'. split_and!.
  - cbn [comprehension].
    assert (aggregate_column (t0 :: rest) w = (Returns (mkTrace l1 ∅), w1))
      as Hbody by by rewrite (bind_returns _ _ _ _ _ Hrun).
    rewrite (bind_returns _ _ _ _ _ Hbody).
    by rewrite (bind_returns _ _ _ _ _ Hrun').
  - congruence.
  - intros l s Hl Hs. apply Hframe'.
    + intros Hin Hel. apply (Hl Hin). cbn [concat].
      rewrite fmap_app, elem_of_app. by right.
    + apply Hframe1; [|done]. intros Hin Heq. apply (Hl Hin). cbn [concat].
      rewrite <- app_comm_cons, fmap_cons, Heq. by left.
  - constructor; [|done]. split; [done|].
    exists acc1, (s0 :: ss). split_and!.
    + apply Hframe'; [|done]. intros Hin. cbn. rewrite (Hl1' Hin).
      intros Hel. apply (Hfirst Hin). rewrite fmap_app, elem_of_app.
      by right.
    + congruence.
    + cbn. by rewrite Hσ0, Hσss.
    + cbn. by rewrite Hv1.
Qed.

(** X6. For a non-empty list of instances whose traces are all in the
    store with the same timestamps (and, where [+=] works in place, in
    distinct series objects), strict [aggregate_instances] returns an
    instance with the supplied metadata.  Its trace number j exists exactly
    when every input instance has a trace number j, so the shortest
    instance decides how many traces come out and the extra traces of
    longer instances are dropped without a word; that trace carries an
    empty metadata mapping, and its samples are the position-wise sum of
    the j-th traces of the instances.  Nothing is printed. *)
Theorem aggregate_instances_strict
    (i0 : ApplianceInstance) (more : list ApplianceInstance) (md : dict)
    (idx : list Timestamp) w :
  Forall (λ t, ∃ s, series_of w t = Some s ∧ index s = idx)
    (concat (traces <$> (i0 :: more))) →
  (inplace_ops = true → NoDup (series <$> concat (traces <$> (i0 :: more)))) →
  ∃ out w',
    aggregate_instances add inplace_ops (i0 :: more) md "strict" w
    = (Returns (PInstance (mkInstance out md)), w')
    ∧ stdout w' = stdout w
    ∧ ∀ j, match mapM (λ i, traces i !! j) (i0 :: more) with
           | Some col =>
               ∃ t s' ss,
                 out !! j = Some t
                 ∧ metadata t = ∅
                 ∧ series_of w' t = Some s'
                 ∧ index s' = idx
                 ∧ mapM (series_of w) col = Some ss
                 ∧ sum_columns add ss = Some (values s')
           | None => out !! j = None
           end.
Proof.
  intros Hal Hnd.
  set (cols := zip_star (traces <$> (i0 :: more))).
  assert (∀ j, cols !! j = mapM (λ i, traces i !! j) (i0 :: more)) as Hcols.
  { intros j. unfold cols. rewrite fmap_cons, zip_star_lookup.
    by rewrite <- fmap_cons, mapM_fmap. }
  destruct (aggregate_columns_run (series_of w) idx cols w)
    as (out & w' & Hrun & Hout & _ & Hall).
  { apply Forall_lookup. intros j col Hj. rewrite Hcols in Hj.
    apply length_mapM in Hj. by destruct col. }
  { apply Forall_forall. intros t Ht.
    destruct (proj1 (Forall_forall _ _) Hal t) as (s & Hs & Hi).
    - eapply elem_of_submseteq; [exact Ht|apply zip_star_submseteq].
    - by exists s. }
  { intros Hin. eapply submseteq_NoDup; [|exact (Hnd Hin)].
    apply fmap_submseteq, zip_star_submseteq. }
  exists out, w'. split_and!; [|done|].
  - unfold aggregate_instances. rewrite decide_True by done.
    fold cols. by rewrite (bind_returns _ _ _ _ _ Hrun).
  - intros j. rewrite <- Hcols. destruct (cols !! j) as [col|] eqn:Hj.
    + destruct (Forall2_lookup_l _ _ _ _ _ Hall Hj)
        as (t & Ht & Hmd & s' & ss & ?).
      by exists t, s', ss.
    + apply lookup_ge_None. apply lookup_ge_None in Hj.
      by rewrite <- (Forall2_length _ _ _ Hall).
Qed.

End AggregateInstances.

(** Two instances, of three and of two traces, all aligned and in
    distinct series objects. *)
Lemma aggregate_instances_strict_witness :
  let w := mkWorld [mkSeries [(0, 1); (60, 2)]%Z None;
                    mkSeries [(0, 10); (60, 20)]%Z None;
                    mkSeries [(0, 100); (60, 200)]%Z None;
                    mkSeries [(0, 3); (60, 4)]%Z None;
                    mkSeries [(0, 30); (60, 40)]%Z None] [] in
  let i0 := mkInstance [mkTrace 0 ∅; mkTrace 1 ∅; mkTrace 2 ∅] ∅ in
  let i1 := mkInstance [mkTrace 3 ∅; mkTrace 4 ∅] ∅ in
  ∃ out w',
    aggregate_instances Z.add true [i0; i1] {["name" := MStr "sum"]}
      "strict" w
    = (Returns (PInstance (mkInstance out {["name" := MStr "sum"]})), w')
    ∧ stdout w' = stdout w
    ∧ ∀ j, match mapM (λ i, traces i !! j) [i0; i1] with
           | Some col =>
               ∃ t s' ss,
                 out !! j = Some t
                 ∧ metadata t = ∅
                 ∧ series_of w' t = Some s'
                 ∧ index s' = [0; 60]%Z
                 ∧ mapM (series_of w) col = Some ss
                 ∧ sum_columns Z.add ss = Some (values s')
           | None => out !! j = None
           end.
Proof.
  intros w i0 i1.
  apply (aggregate_instances_strict Z.add true i0 [i1]
           {["name" := MStr "sum"]} [0; 60]%Z w).
  - repeat (constructor; [eexists; split; reflexivity|]). constructor.
  - intros _. apply (bool_decide_unpack _). by vm_compute.
Defined.

(** ** concatenate_traces: which objects it touches *)

Section ConcatenateFrame.

Context {V : Type}.
Implicit Types w : world V.

Lemma settled_metadata (t0 : ApplianceTrace) rest (md : option dict) w :
  (match md with
   | Some m => if truthy md then ret m else first_metadata (t0 :: rest)
   | None => first_metadata (t0 :: rest)
   end) w
  = (Returns (if truthy md then default ∅ md else metadata t0), w).
Proof. destruct md as [m|]; [|done]. by destruct (truthy (Some m)). Qed.

(** X7. Strict [concatenate_traces] on a non-empty list of traces creates
    exactly one series object and writes no other: the trace returned
    refers to the new object, so it shares its series with none of the
    inputs, every series object that existed is left as it was, and nothing
    is printed.  The metadata it carries is the argument when that is a
    non-empty mapping, and the metadata of the first trace otherwise. *)
Theorem concatenate_traces_allocates
    (t0 : ApplianceTrace) (rest : list ApplianceTrace) (md : option dict) w :
  Forall (λ t, is_Some (series_of w t)) (t0 :: rest) →
  ∃ tr s',
    concatenate_traces (t0 :: rest) md "strict" w
    = (Returns tr, mkWorld (store w ++ [s']) (stdout w))
    ∧ series tr = length (store w)
    ∧ (series tr ∉ series <$> (t0 :: rest))
    ∧ metadata tr = (if truthy md then default ∅ md else metadata t0).
Proof.
  intros Hall. destruct (series_of_all _ _ Hall) as [ss Hss].
  eexists _, _. split_and!.
  - apply (concatenate_strict_run w t0 rest md
             (if truthy md then default ∅ md else metadata t0) ss Hss).
    apply settled_metadata.
  - done.
  - cbn [series]. intros Hin.
    apply list_elem_of_fmap_1 in Hin as (t & Heq & Ht).
    apply (proj1 (Forall_forall _ _) Hall) in Ht as [s Hs].
    apply lookup_lt_Some in Hs. lia.
  - done.
Qed.

End ConcatenateFrame.

Lemma concatenate_traces_allocates_witness :
  let w := mkWorld [mkSeries [(0, 1); (60, 2)]%Z (Some "use");
                    mkSeries [(120, 3)]%Z (Some "use")] [] in
  let t0 := mkTrace 0 {["name" := MStr "fridge"]} in
  let t1 := mkTrace 1 ∅ in
  let md := Some {["name" := MStr "both"]} in
  ∃ tr s',
    concatenate_traces [t0; t1] md "strict" w
    = (Returns tr, mkWorld (store w ++ [s']) (stdout w))
    ∧ series tr = length (store w)
    ∧ (series tr ∉ series <$> [t0; t1])
    ∧ metadata tr = (if truthy md then default ∅ md else metadata t0).
Proof.
  intros w t0 t1 md. apply (concatenate_traces_allocates t0 [t1] md w).
  repeat (constructor; [by eexists|]). constructor.
Defined.

(** ** concatenate_traces_lists *)

Section ConcatenateLists.

Context {V : Type}.
Implicit Types w : world V.

Lemma lookup_app_cons_Some {A} (l k : list A) (x : A) i y :
  (l ++ [x]) !! i = Some y → (l ++ x :: k) !! i = Some y.
Proof.
  intros H. rewrite (assoc_L (++) l [x] k : l ++ x :: k = (l ++ [x]) ++ k).
  by apply lookup_app_l_Some.
Qed.

(** The metadata a column ends up with: the one zipped to it, or, when
    that is empty, the metadata of the first trace of the column. *)
Lemma concatenate_columns_run (σ : ApplianceTrace → option (Series V))
    pairs : ∀ w,
  Forall (λ cm : list ApplianceTrace * dict,
            cm.1 ≠ []
            ∧ Forall (λ t, ∃ s, σ t = Some s ∧ series_of w t = Some s) cm.1)
    pairs →
  ∃ out fresh,
    comprehension (λ tm, concatenate_traces tm.1 (Some tm.2) "strict")
      pairs w
    = (Returns out, mkWorld (store w ++ fresh) (stdout w))
    ∧ length fresh = length pairs
    ∧ (∀ j t, out !! j = Some t → series t = length (store w) + j)
    ∧ Forall2 (λ (cm : list ApplianceTrace * dict) t,
         ∃ ss s', mapM σ cm.1 = Some ss
                  ∧ (store w ++ fresh) !! series t = Some s'
                  ∧ rows s' = concat (rows <$> ss)
                  ∧ metadata t
                    = (if decide (cm.2 = ∅)
                       then default ∅ (metadata <$> head cm.1) else cm.2))
        pairs out.
Proof.
  induction pairs as [|[col m] pairs IH]; intros w Hall.
  { exists [], []. cbn. by rewrite app_nil_r, world_eta. }
  apply Forall_cons in Hall as [[Hne Hcol] Hall]. cbn in Hne, Hcol.
  destruct col as [|t0 rest]; [done|]. clear Hne.
  assert (∃ ss, Forall2 (λ t s, series_of w t = Some s) (t0 :: rest) ss
                ∧ mapM σ (t0 :: rest) = Some ss) as (ss & Hss & Hσ).
  { clear IH Hall. induction Hcol as [|t col (s & Hσ & Hs) _ (ss & ? & Hm)].
    - by exists [].
    - exists (s :: ss). split; [by constructor|]. cbn in *.
      by rewrite Hσ, Hm. }
  pose proof (concatenate_strict_run w t0 rest (Some m)
                (if truthy (Some m) then default ∅ (Some m) else metadata t0)
                ss Hss (settled_metadata t0 rest (Some m) w)) as Hrun.
  set (s1 := mkSeries (concat (rows <$> ss)) (consensus_name ss)) in Hrun.
  set (w1 := mkWorld (store w ++ [s1]) (stdout w)) in Hrun.
  destruct (IH w1) as (out & fresh & Hrun' & Hlen' & Hloc' & Hall').
  { eapply Forall_impl; [exact Hall|]. cbn. intros [col' m'] [? Hc].
    split; [done|]. eapply Forall_impl; [exact Hc|]. cbn.
    intros t (s & ? & Hs). exists s. split; [done|].
    by apply lookup_app_l_Some. }
  exists (mkTrace (length (store w))
            (if truthy (Some m) then default ∅ (Some m) else metadata t0)
          :: out), (s1 :: fresh).
  split_and!.
  - cbn [comprehension fst snd].
    rewrite (bind_returns _ _ _ _ _ Hrun).
    rewrite (bind_returns _ _ _ _ _ Hrun'). cbn.
    by rewrite <- app_assoc.
  - cbn. by rewrite Hlen'.
  - intros [|j] t Ht; simplify_eq/=; [lia|].
    rewrite (Hloc' j t Ht). cbn. rewrite length_app. cbn. lia.
  - constructor.
    + exists ss, s1. split_and!; [done| |done|].
      * cbn. apply lookup_app_cons_Some, list_lookup_middle. done.
      * cbn. unfold truthy. by repeat case_decide; case_bool_decide.
    + cbn in Hall'. rewrite <- app_assoc in Hall'. exact Hall'.
Qed.

(** X8. Strict [concatenate_traces_lists] on a non-empty list of lists of
    traces that are all in the store: trace number j of the result exists
    exactly when every list has a trace number j and the metadata list has
    an entry j (the metadata list being the argument when that is a
    non-empty list, and the metadata of the traces of the first list
    otherwise); its series is a new object, number j of the objects the
    call creates, one per trace of the result, after those that existed; it
    holds the rows of the j-th traces of the lists one after the other, in
    the order of the lists, and the trace carries entry j of the metadata
    list, or the metadata of the j-th trace of the first list when that
    entry is empty.  The series objects that existed are left as they were
    and nothing is printed. *)
Theorem concatenate_traces_lists_strict
    (l0 : list ApplianceTrace) (more : list (list ApplianceTrace))
    (metadata_arg : option (list dict)) w :
  let mds := match metadata_arg with
             | Some (m :: ms) => m :: ms
             | _ => metadata <$> l0
             end in
  Forall (λ t, is_Some (series_of w t)) (concat (l0 :: more)) →
  ∃ out fresh,
    concatenate_traces_lists (l0 :: more) metadata_arg "strict" w
    = (Returns out, mkWorld (store w ++ fresh) (stdout w))
    ∧ length fresh = length out
    ∧ ∀ j, match mapM (λ l, l !! j) (l0 :: more), mds !! j with
           | Some col, Some m =>
               ∃ t t0 ss s',
                 out !! j = Some t
                 ∧ series t = length (store w) + j
                 ∧ l0 !! j = Some t0
                 ∧ mapM (series_of w) col = Some ss
                 ∧ (store w ++ fresh) !! series t = Some s'
                 ∧ rows s' = concat (rows <$> ss)
                 ∧ metadata t = (if decide (m = ∅) then metadata t0 else m)
           | _, _ => out !! j = None
           end.
Proof.
  intros mds Hal.
  set (cols := zip_star (l0 :: more)).
  destruct (concatenate_columns_run (series_of w) (zip cols mds) w)
    as (out & fresh & Hrun & Hlen & Hloc & Hall).
  { apply Forall_forall. intros [col m] Hin.
    apply elem_of_zip_l in Hin. cbn. split.
    - apply list_elem_of_lookup_1 in Hin as [j Hj]. unfold cols in Hj.
      rewrite zip_star_lookup in Hj. apply length_mapM in Hj.
      by destruct col.
    - apply Forall_forall. intros t Ht.
      destruct (proj1 (Forall_forall _ _) Hal t) as [s Hs]; [|by exists s].
      eapply elem_of_submseteq; [|apply zip_star_submseteq].
      by apply (elem_of_concat t col). }
  exists out, fresh. split_and!.
  - unfold concatenate_traces_lists.
    assert ((match metadata_arg with
             | Some (m :: ms) => ret (m :: ms)
             | _ => first_list_metadata (l0 :: more)
             end) w = (Returns mds, w)) as Hmd.
    { unfold mds. by destruct metadata_arg as [[|??]|]. }
    rewrite (bind_returns _ _ _ _ _ Hmd). rewrite decide_True by done.
    fold cols. by rewrite (bind_returns _ _ _ _ _ Hrun).
  - by rewrite Hlen, (Forall2_length _ _ _ Hall).
  - intros j. rewrite <- zip_star_lookup. fold cols.
    destruct (cols !! j) as [col|] eqn:Hcol.
    + destruct (mds !! j) as [m|] eqn:Hm.
      * assert (zip cols mds !! j = Some (col, m)) as Hj.
        { rewrite lookup_zip_with. by rewrite Hcol, Hm. }
        destruct (Forall2_lookup_l _ _ _ _ _ Hall Hj)
          as (t & Ht & ss & s' & Hss & Hs' & Hrows & Hmeta).
        cbn in Hss, Hmeta.
        assert (∃ t0, l0 !! j = Some t0 ∧ head col = Some t0) as (t0 & ? & Hh).
        { unfold cols in Hcol. rewrite zip_star_lookup in Hcol. cbn in Hcol.
          destruct (l0 !! j) as [t0|]; [|done]. exists t0. split; [done|].
          cbn in Hcol. apply bind_Some in Hcol as (k & _ & Hk).
          change (Some (t0 :: k) = Some col) in Hk. by injection Hk as <-. }
        exists t, t0, ss, s'. split_and!; try done.
        -- by apply Hloc.
        -- by rewrite Hh in Hmeta.
      * apply lookup_ge_None. rewrite <- (Forall2_length _ _ _ Hall).
        rewrite length_zip. apply lookup_ge_None in Hm. lia.
    + apply lookup_ge_None. rewrite <- (Forall2_length _ _ _ Hall).
      rewrite length_zip. apply lookup_ge_None in Hcol. lia.
Qed.

(** X9. In a mode other than ["strict"], [concatenate_traces_lists] raises
    [NotImplementedError] and touches nothing when the list of lists is not
    empty or a non-empty metadata list was supplied; with an empty list and
    no metadata, [traces[0]] raises [IndexError] first, whatever the
    mode. *)
Theorem concatenate_traces_lists_not_strict
    (traces : list (list ApplianceTrace)) (metadata_arg : option (list dict))
    (how : string) w :
  how ≠ "strict" →
  concatenate_traces_lists traces metadata_arg how w
  = (if bool_decide (traces = [] ∧ default [] metadata_arg = [])
     then Raises (Exc IndexError "list index out of range")
     else Raises (Exc NotImplementedError ""), w).
Proof.
  intros Hhow. unfold concatenate_traces_lists.
  destruct metadata_arg as [[|m ms]|]; destruct traces as [|l0 more]; cbn;
    try done; unfold bind; cbn; by rewrite ?decide_False by done.
Qed.

End ConcatenateLists.

(** Two periods of a house with two circuits each. *)
Lemma concatenate_traces_lists_strict_witness :
  let w := mkWorld [mkSeries [(0, 1); (60, 2)]%Z (Some "use");
                    mkSeries [(0, 5); (60, 6)]%Z (Some "gen");
                    mkSeries [(120, 3)]%Z (Some "use");
                    mkSeries [(120, 7)]%Z (Some "gen")] [] in
  let l0 := [mkTrace 0 {["name" := MStr "use"]};
             mkTrace 1 {["name" := MStr "gen"]}] in
  let l1 := [mkTrace 2 ∅; mkTrace 3 ∅] in
  let mds := metadata <$> l0 in
  ∃ out fresh,
    concatenate_traces_lists [l0; l1] None "strict" w
    = (Returns out, mkWorld (store w ++ fresh) (stdout w))
    ∧ length fresh = length out
    ∧ ∀ j, match mapM (λ l, l !! j) [l0; l1], mds !! j with
           | Some col, Some m =>
               ∃ t t0 ss s',
                 out !! j = Some t
                 ∧ series t = length (store w) + j
                 ∧ l0 !! j = Some t0
                 ∧ mapM (series_of w) col = Some ss
                 ∧ (store w ++ fresh) !! series t = Some s'
                 ∧ rows s' = concat (rows <$> ss)
                 ∧ metadata t = (if decide (m = ∅) then metadata t0 else m)
           | _, _ => out !! j = None
           end.
Proof.
  intros w l0 l1 mds.
  apply (concatenate_traces_lists_strict l0 [l1] None w).
  repeat (constructor; [by eexists|]). constructor.
Defined.

Lemma concatenate_traces_lists_not_strict_witness :
  let w : world Z := mkWorld [] [] in
  concatenate_traces_lists [[mkTrace 0 ∅]] None "loose" w
  = (if bool_decide ([[mkTrace 0 ∅]] = []
                     ∧ default [] (@None (list dict)) = [])
     then Raises (Exc IndexError "list index out of range")
     else Raises (Exc NotImplementedError ""), w).
Proof.
  intros w.
  apply (concatenate_traces_lists_not_strict [[mkTrace 0 ∅]] None "loose" w).
  discriminate.
Defined.

(** ** split_trace_into_rate: nothing lost, and the way back *)

Section GroupConcat.

Context {A : Type} (key : A → Z).

Lemma concat_groups_nil (ks : list Z) :
  concat ((λ k, filter (λ r, key r = k) []) <$> ks) = [].
Proof.
  induction ks as [|k ks IH]; [done|].
  rewrite fmap_cons. cbn [concat]. by rewrite IH.
Qed.

Lemma groups_cons_other (r : A) rs (ks : list Z) :
  key r ∉ ks →
  (λ k, filter (λ r, key r = k) (r :: rs)) <$> ks
  = (λ k, filter (λ r, key r = k) rs) <$> ks.
Proof.
  intros Hk. apply Forall_fmap_ext, Forall_forall. intros k Hin.
  rewrite filter_cons, decide_False; [done|]. by intros <-.
Qed.

Lemma concat_groups_cons_perm (r : A) rs (ks : list Z) :
  NoDup ks → key r ∈ ks →
  concat ((λ k, filter (λ r, key r = k) (r :: rs)) <$> ks)
  ≡ₚ r :: concat ((λ k, filter (λ r, key r = k) rs) <$> ks).
Proof.
  induction 1 as [|k ks Hk Hnd IH]; intros Hin;
    [by apply elem_of_nil in Hin|].
  rewrite !fmap_cons. cbn [concat]. rewrite filter_cons. case_decide as Hd.
  - rewrite groups_cons_other; [done|by rewrite Hd].
  - apply elem_of_cons in Hin as [?|Hin]; [done|].
    rewrite (IH Hin). symmetry. apply Permutation_middle.
Qed.

Lemma concat_groups_cons_sorted (r : A) rs (ks : list Z) :
  StronglySorted Z.lt ks → key r ∈ ks →
  Forall (λ r', (key r ≤ key r')%Z) rs →
  concat ((λ k, filter (λ r, key r = k) (r :: rs)) <$> ks)
  = r :: concat ((λ k, filter (λ r, key r = k) rs) <$> ks).
Proof.
  induction 1 as [|k ks Hs IH Hall]; intros Hin Hle;
    [by apply elem_of_nil in Hin|].
  rewrite Forall_forall in Hall.
  rewrite !fmap_cons. cbn [concat]. rewrite filter_cons. case_decide as Hd.
  - rewrite groups_cons_other; [done|].
    intros Hin'. specialize (Hall _ Hin'). lia.
  - apply elem_of_cons in Hin as [?|Hin]; [done|].
    specialize (Hall _ Hin).
    assert (filter (λ r', key r' = k) rs = []) as ->.
    { clear IH. induction Hle as [|r' rs Hr' _ IHr]; [done|].
      rewrite filter_cons, decide_False by lia. done. }
    by rewrite (IH Hin Hle).
Qed.

(** Reading the groups of a list one after the other gives the list back up
    to the order, *)
Lemma concat_groups_perm (ks : list Z) rows :
  NoDup ks → Forall (λ r, key r ∈ ks) rows →
  concat ((λ k, filter (λ r, key r = k) rows) <$> ks) ≡ₚ rows.
Proof.
  intros Hnd. induction 1 as [|r rs Hr _ IH]; [by rewrite concat_groups_nil|].
  by rewrite concat_groups_cons_perm, IH.
Qed.

(** and the very list when its keys never go down. *)
Lemma concat_groups_sorted (ks : list Z) rows :
  StronglySorted Z.lt ks → Forall (λ r, key r ∈ ks) rows →
  StronglySorted (λ a b, (key a ≤ key b)%Z) rows →
  concat ((λ k, filter (λ r, key r = k) rows) <$> ks) = rows.
Proof.
  intros Hks Hin Hs. induction Hs as [|r rs _ IH Hle];
    [by rewrite concat_groups_nil|].
  apply Forall_cons in Hin as [Hr Hin].
  by rewrite concat_groups_cons_sorted, IH.
Qed.

End GroupConcat.

Section SplitRoundTrip.

Context {V : Type}.
Implicit Types w : world V.

Lemma keys_covered (key : Timestamp → Z) (s : Series V) ks :
  distinct_ascending (key <$> index s) ks →
  Forall (λ r : Timestamp * V, key r.1 ∈ ks) (rows s).
Proof.
  intros [_ Hks]. apply Forall_forall. intros r Hr. apply Hks.
  unfold index. rewrite <- list_fmap_compose.
  by apply (list_elem_of_fmap_2 (key ∘ fst)).
Qed.

(** What the pieces of a split hold. *)
Lemma splits_by_pieces (key : Timestamp → Z) trace (s : Series V) w out w' :
  splits_by key trace s w (Returns out, w') →
  ∃ gs,
    Forall2 (λ t g, series_of w' t = Some g) out gs
    ∧ Forall (λ g, rows g ≠ []) gs
    ∧ concat (rows <$> gs) ≡ₚ rows s
    ∧ (StronglySorted (λ a b, (key a.1 ≤ key b.1)%Z) (rows s) →
       concat (rows <$> gs) = rows s)
    ∧ (rows s = [] ↔ out = []).
Proof.
  intros (out' & w'' & ks & [= <- <-] & _ & _ & Hks & Hall & _).
  assert (∃ gs, Forall2 (λ t g, series_of w' t = Some g) out gs
                ∧ rows <$> gs
                  = (λ k, filter (λ r, key r.1 = k) (rows s)) <$> ks)
    as (gs & Hgs & Heq).
  { clear Hks. induction Hall as [|t k out ks (_ & g & Hg & Hr) _ IH].
    - by exists [].
    - destruct IH as (gs & ? & Heq). exists (g :: gs).
      split; [by constructor|]. cbn. by rewrite Hr, Heq. }
  pose proof (keys_covered key s ks Hks) as Hcov.
  exists gs. split_and!; [done|..].
  - assert (Forall (λ rs : list (Timestamp * V), rs ≠ []) (rows <$> gs))
      as Hne.
    2:{ rewrite Forall_forall in Hne. apply Forall_forall. intros g Hg.
        by apply Hne, list_elem_of_fmap_2. }
    rewrite Heq. apply Forall_fmap, Forall_forall. intros k Hk. cbn.
    apply Hks in Hk. unfold index in Hk. rewrite <- list_fmap_compose in Hk.
    apply list_elem_of_fmap_1 in Hk as (r & -> & Hr). cbn.
    intros Hnil. eapply filter_nil_not_elem_of; [exact Hnil| |exact Hr]. done.
  - rewrite Heq. apply (concat_groups_perm (λ r, key r.1)); [|done].
    by eapply distinct_ascending_NoDup.
  - intros Hs. rewrite Heq.
    apply (concat_groups_sorted (λ r, key r.1)); [apply Hks|done..].
  - split.
    + intros Hnil. destruct Hall as [|t k out ks _ _]; [done|].
      assert (k ∈ key <$> index s) as Hk by (apply Hks; by left).
      unfold index in Hk. rewrite Hnil in Hk. by apply elem_of_nil in Hk.
    + intros ->. inversion Hall; subst.
      destruct (rows s) as [|r rs]; [done|].
      apply Forall_cons in Hcov as [Hr _]. by apply elem_of_nil in Hr.
Qed.

Lemma split_trace_into_rate_known (trace : ApplianceTrace) (s : Series V)
    rate w :
  series_of w trace = Some s → rate = "D" ∨ rate = "W" →
  splits_by (rate_key rate) trace s w (split_trace_into_rate trace rate w).
Proof.
  intros Hs [->| ->]; [by apply split_trace_into_rate_D|].
  by apply split_trace_into_rate_W.
Qed.

(** X10. Splitting by day or by week loses and repeats no sample: the
    pieces returned for ['D'] or ['W'] are in the store, none of them is
    empty, and their rows taken together are the rows of the source series
    up to the order; an empty series gives no piece at all, and only an
    empty series does. *)
Theorem split_trace_into_rate_partition
    (trace : ApplianceTrace) (s : Series V) (rate : string) w :
  series_of w trace = Some s →
  rate = "D" ∨ rate = "W" →
  ∃ pieces w' gs,
    split_trace_into_rate trace rate w = (Returns pieces, w')
    ∧ mapM (series_of w') pieces = Some gs
    ∧ Forall (λ g, rows g ≠ []) gs
    ∧ concat (rows <$> gs) ≡ₚ rows s
    ∧ (rows s = [] ↔ pieces = []).
Proof.
  intros Hs Hrate.
  pose proof (split_trace_into_rate_known trace s rate w Hs Hrate) as Hsp.
  pose proof Hsp as (out & w' & ks & Hrun & _). rewrite Hrun in Hsp.
  destruct (splits_by_pieces _ _ _ _ _ _ Hsp)
    as (gs & Hgs & Hne & Hperm & _ & Hnil).
  exists out, w', gs. split_and!; try done. by apply mapM_Some_2.
Qed.

Lemma rows_sorted_by_date (s : Series V) :
  Sorted Z.le (index s) →
  StronglySorted (λ a b : Timestamp * V, (date_of a.1 ≤ date_of b.1)%Z)
    (rows s).
Proof.
  intros H. apply Sorted_StronglySorted in H; [|intros x y z; lia].
  unfold index in H. induction (rows s) as [|r rs IH]; [constructor|].
  rewrite fmap_cons in H. apply StronglySorted_inv in H as [Hs Hall].
  constructor; [by apply IH|]. rewrite Forall_forall in Hall.
  apply Forall_forall. intros r' Hr'.
  pose proof (Hall r'.1 (list_elem_of_fmap_2 fst _ _ Hr')) as Hle.
  unfold date_of, NS_PER_DAY. by apply Z.div_le_mono.
Qed.

(** X11. Splitting a trace by day and concatenating the pieces again:
    for a series with at least one sample the result is a new trace, its
    series a new object, created after the pieces and all that existed
    before them, and so not the series object of the source; its rows are
    those of the source up to the order, and exactly those of the source
    when its timestamps never go back; its metadata is not the
    metadata of the source but that of the first piece, the source metadata
    with [trace_num] set to 0; the source series is left as it was.  For a
    series without samples the split returns no piece and the concatenation
    raises [IndexError]. *)
Theorem split_then_concatenate
    (trace : ApplianceTrace) (s : Series V) w :
  series_of w trace = Some s →
  ∃ pieces w1,
    split_trace_into_rate trace "D" w = (Returns pieces, w1)
    ∧ if decide (rows s = []) then
        concatenate_traces pieces None "strict" w1
        = (Raises (Exc IndexError "list index out of range"), w1)
      else
        ∃ tr w2 s',
          concatenate_traces pieces None "strict" w1 = (Returns tr, w2)
          ∧ length (store w1) ≤ series tr
          ∧ series tr ≠ series trace
          ∧ series_of w2 tr = Some s'
          ∧ rows s' ≡ₚ rows s
          ∧ (Sorted Z.le (index s) → rows s' = rows s)
          ∧ metadata tr = <["trace_num" := MInt 0]> (metadata trace)
          ∧ series_of w2 trace = Some s.
Proof.
  intros Hs.
  pose proof (split_trace_into_rate_D trace s w Hs) as Hsp.
  pose proof Hsp as (out & w1 & ks & Hrun & _ & Hpre & _ & _ & Hmd).
  rewrite Hrun in Hsp.
  destruct (splits_by_pieces _ _ _ _ _ _ Hsp)
    as (gs & Hgs & _ & Hperm & Hsorted & Hnil).
  exists out, w1. split; [done|]. case_decide as Hrows.
  - apply Hnil in Hrows as ->. done.
  - destruct out as [|t0 rest]; [by destruct Hrows; apply Hnil|].
    assert (length (store w) ≤ length (store w1)) as Hlen
      by by apply prefix_length.
    eexists _, _, _. split_and!.
    + by apply (concatenate_strict_run w1 t0 rest None (metadata t0) gs).
    + done.
    + cbn. unfold series_of in Hs. apply lookup_lt_Some in Hs. lia.
    + unfold series_of. cbn. by apply list_lookup_middle.
    + done.
    + intros Hchron. cbn. by apply Hsorted, rows_sorted_by_date.
    + cbn. by apply (Hmd 0).
    + unfold series_of in *. cbn. apply lookup_app_l_Some.
      by eapply prefix_lookup_Some.
Qed.

End SplitRoundTrip.

(** Samples on the first and on the second day of 1970, by day and by
    week. *)
Lemma split_trace_into_rate_partition_witness :
  let s := mkSeries [(0, 1); (86400000000000, 2); (86400000000060, 3)]%Z
             None in
  let w := mkWorld [s] [] in
  let trace := mkTrace 0 {["name" := MStr "fridge"]} in
  ∃ pieces w' gs,
    split_trace_into_rate trace "W" w = (Returns pieces, w')
    ∧ mapM (series_of w') pieces = Some gs
    ∧ Forall (λ g, rows g ≠ []) gs
    ∧ concat (rows <$> gs) ≡ₚ rows s
    ∧ (rows s = [] ↔ pieces = []).
Proof.
  intros s w trace.
  apply (split_trace_into_rate_partition trace s "W" w); [done|by right].
Defined.

Lemma split_then_concatenate_witness :
  let s := mkSeries [(0, 1); (86400000000000, 2); (86400000000060, 3)]%Z
             None in
  let w := mkWorld [s] [] in
  let trace := mkTrace 0 {["name" := MStr "fridge"]} in
  ∃ pieces w1,
    split_trace_into_rate trace "D" w = (Returns pieces, w1)
    ∧ if decide (rows s = []) then
        concatenate_traces pieces None "strict" w1
        = (Raises (Exc IndexError "list index out of range"), w1)
      else
        ∃ tr w2 s',
          concatenate_traces pieces None "strict" w1 = (Returns tr, w2)
          ∧ length (store w1) ≤ series tr
          ∧ series tr ≠ series trace
          ∧ series_of w2 tr = Some s'
          ∧ rows s' ≡ₚ rows s
          ∧ (Sorted Z.le (index s) → rows s' = rows s)
          ∧ metadata tr = <["trace_num" := MInt 0]> (metadata trace)
          ∧ series_of w2 trace = Some s.
Proof.
  intros s w trace. by apply (split_then_concatenate trace s w).
Defined.

(** ** split_instance_traces_into_rate, split_type_traces_into_rate *)

Section SplitHierarchy.

Context {V : Type}.
Implicit Types w : world V.

Lemma series_of_prefix w w' t (s : Series V) :
  store w `prefix_of` store w' →
  series_of w t = Some s → series_of w' t = Some s.
Proof. unfold series_of. intros Hpre Hs. by eapply prefix_lookup_Some. Qed.

Lemma split_of_prefix (key : Timestamp → Z) trace (s : Series V) w w' out :
  store w `prefix_of` store w' →
  split_of key trace s w out → split_of key trace s w' out.
Proof.
  intros Hpre (ks & Hks & Hall & Hmd). exists ks. split_and!; [done| |done].
  eapply Forall2_impl; [exact Hall|]. cbn. intros t k (g & Hg & Hr).
  exists g. split; [|done]. by eapply series_of_prefix.
Qed.

Lemma splits_by_split_of (key : Timestamp → Z) trace (s : Series V) w r :
  splits_by key trace s w r →
  ∃ out w', r = (Returns out, w')
            ∧ stdout w' = stdout w
            ∧ store w `prefix_of` store w'
            ∧ split_of key trace s w' out.
Proof.
  intros (out & w' & ks & -> & Hstd & Hpre & Hks & Hall & Hmd).
  exists out, w'. split_and!; [done..|]. exists ks. split_and!; [done| |done].
  eapply Forall2_impl; [exact Hall|]. cbn. by intros t k (_ & ?).
Qed.

Lemma split_traces_loop_known (rate : string) ts :
  rate = "D" ∨ rate = "W" →
  ∀ acc w,
    Forall (λ t, is_Some (series_of w t)) ts →
    ∃ outs w',
      split_traces_loop ts rate acc w = (Returns (acc ++ concat outs), w')
      ∧ stdout w' = stdout w
      ∧ store w `prefix_of` store w'
      ∧ Forall2 (λ t out, ∃ s, series_of w t = Some s
                               ∧ split_of (rate_key rate) t s w' out) ts outs.
Proof.
  intros Hrate. induction ts as [|t ts IH]; intros acc w Hall.
  { exists [], w. cbn. by rewrite app_nil_r. }
  apply Forall_cons in Hall as [[s Hs] Hall].
  destruct (splits_by_split_of _ _ _ _ _
              (split_trace_into_rate_known t s rate w Hs Hrate))
    as (out1 & w1 & Hrun1 & Hstd1 & Hpre1 & Hsp1).
  destruct (IH (acc ++ out1) w1) as (outs & w' & Hrun' & Hstd' & Hpre' & Hall').
  { eapply Forall_impl; [exact Hall|]. cbn. intros t' [s' Hs'].
    exists s'. by eapply series_of_prefix. }
  exists (out1 :: outs), w'. split_and!.
  - cbn [split_traces_loop]. rewrite (bind_returns _ _ _ _ _ Hrun1).
    rewrite Hrun'. cbn. by rewrite app_assoc.
  - congruence.
  - by etrans.
  - constructor.
    + exists s. split; [done|]. by eapply split_of_prefix.
    + clear -Hall Hall' Hpre1.
      induction Hall' as [|t' out ts outs (s' & Hs' & Hsp) _ IH'];
        [constructor|].
      apply Forall_cons in Hall as [[s0 Hs0] Hall].
      constructor; [|by apply IH']. exists s'. split; [|done].
      pose proof (series_of_prefix _ _ _ _ Hpre1 Hs0). congruence.
Qed.

Abbreviation looking_for := "Looking for 'week' or 'day'".

Lemma split_traces_loop_unknown (rate : string) ts :
  rate ≠ "D" → rate ≠ "W" →
  ∀ acc w,
    split_traces_loop ts rate acc w
    = (Returns acc,
       mkWorld (store w) (stdout w ++ replicate (length ts) looking_for)).
Proof.
  intros HD HW. induction ts as [|t ts IH]; intros acc w.
  { cbn. by rewrite app_nil_r, world_eta. }
  cbn [split_traces_loop].
  assert (split_trace_into_rate t rate w
          = (Returns [], mkWorld (store w) (stdout w ++ [looking_for])))
    as Hrun.
  { unfold split_trace_into_rate. by rewrite !decide_False by done. }
  rewrite (bind_returns _ _ _ _ _ Hrun), IH. cbn.
  by rewrite app_nil_r, <- app_assoc.
Qed.

(** X12. With a token other than ['D'] and ['W'],
    [split_instance_traces_into_rate] returns an instance that has lost
    all its traces (the metadata is kept) and prints the message once per
    trace of the input, and [split_type_traces_into_rate] returns a type
    whose instances have all lost their traces, printing once per trace of
    the type; no series object is read, created or written, and nothing is
    raised. *)
Theorem split_hierarchy_unknown_rate
    (device_instance : ApplianceInstance) (device_type : ApplianceType)
    (rate : string) w :
  rate ≠ "D" → rate ≠ "W" →
  split_instance_traces_into_rate device_instance rate w
  = (Returns (mkInstance [] (instance_metadata device_instance)),
     mkWorld (store w)
       (stdout w ++ replicate (length (traces device_instance)) looking_for))
  ∧ split_type_traces_into_rate device_type rate w
    = (Returns (mkType ((λ i, mkInstance [] (instance_metadata i))
                          <$> instances device_type)
                  (type_metadata device_type)),
       mkWorld (store w)
         (stdout w
          ++ replicate (sum_list_with (λ i, length (traces i))
                          (instances device_type)) looking_for)).
Proof.
  intros HD HW.
  assert (∀ i w,
    split_instance_traces_into_rate i rate w
    = (Returns (mkInstance [] (instance_metadata i)),
       mkWorld (store w)
         (stdout w ++ replicate (length (traces i)) looking_for))) as Hinst.
  { intros i w0. unfold split_instance_traces_into_rate.
    by rewrite (bind_returns _ _ _ _ _
                  (split_traces_loop_unknown rate (traces i) HD HW [] w0)). }
  split; [apply Hinst|].
  unfold split_type_traces_into_rate.
  assert (∀ l w,
    comprehension (λ instance, split_instance_traces_into_rate instance rate)
      l w
    = (Returns ((λ i, mkInstance [] (instance_metadata i)) <$> l),
       mkWorld (store w)
         (stdout w ++ replicate (sum_list_with (λ i, length (traces i)) l)
                        looking_for))) as Hcomp.
  { induction l as [|i l IH]; intros w0.
    - cbn. by rewrite app_nil_r, world_eta.
    - cbn [comprehension]. rewrite (bind_returns _ _ _ _ _ (Hinst i w0)).
      rewrite (bind_returns _ _ _ _ _ (IH _)). cbn.
      by rewrite replicate_add, app_assoc. }
  by rewrite (bind_returns _ _ _ _ _ (Hcomp _ w)).
Qed.

(** X13. With ['D'] or ['W'], [split_instance_traces_into_rate] on an
    instance whose traces are in the store returns an instance with the
    metadata of the input whose traces are the splits of the input traces
    one after the other, in the order of the input traces; [trace_num]
    starts again at 0 for every input trace, so it does not number the
    traces of the result.  The series objects that existed are left as they
    were and nothing is printed. *)
Theorem split_instance_traces_into_rate_known
    (device_instance : ApplianceInstance) (rate : string) w :
  rate = "D" ∨ rate = "W" →
  Forall (λ t, is_Some (series_of w t)) (traces device_instance) →
  ∃ outs w',
    split_instance_traces_into_rate device_instance rate w
    = (Returns (mkInstance (concat outs) (instance_metadata device_instance)),
       w')
    ∧ stdout w' = stdout w
    ∧ store w `prefix_of` store w'
    ∧ Forall2 (λ t out, ∃ s, series_of w t = Some s
                             ∧ split_of (rate_key rate) t s w' out)
        (traces device_instance) outs.
Proof.
  intros Hrate Hall.
  destruct (split_traces_loop_known rate (traces device_instance) Hrate [] w
              Hall) as (outs & w' & Hrun & Hstd & Hpre & Hsp).
  exists outs, w'. split_and!; [|done..].
  unfold split_instance_traces_into_rate.
  by rewrite (bind_returns _ _ _ _ _ Hrun).
Qed.

(** X14. With ['D'] or ['W'], [split_type_traces_into_rate] on a type
    whose traces are all in the store returns a type with the metadata of
    the input and one instance per input instance, in the same order, each
    with the metadata of its input instance and, as traces, the splits of
    the traces of that instance one after the other.  The series objects
    that existed are left as they were and nothing is printed. *)
Theorem split_type_traces_into_rate_known
    (device_type : ApplianceType) (rate : string) w :
  rate = "D" ∨ rate = "W" →
  Forall (λ i, Forall (λ t, is_Some (series_of w t)) (traces i))
    (instances device_type) →
  ∃ new_instances w',
    split_type_traces_into_rate device_type rate w
    = (Returns (mkType new_instances (type_metadata device_type)), w')
    ∧ stdout w' = stdout w
    ∧ store w `prefix_of` store w'
    ∧ Forall2 (λ i i',
         instance_metadata i' = instance_metadata i
         ∧ ∃ outs,
             traces i' = concat outs
             ∧ Forall2 (λ t out, ∃ s, series_of w t = Some s
                                      ∧ split_of (rate_key rate) t s w' out)
                 (traces i) outs)
        (instances device_type) new_instances.
Proof.
  intros Hrate Hall. unfold split_type_traces_into_rate.
  assert (∃ new_instances w',
    comprehension (λ instance, split_instance_traces_into_rate instance rate)
      (instances device_type) w = (Returns new_instances, w')
    ∧ stdout w' = stdout w
    ∧ store w `prefix_of` store w'
    ∧ Forall2 (λ i i',
         instance_metadata i' = instance_metadata i
         ∧ ∃ outs,
             traces i' = concat outs
             ∧ Forall2 (λ t out, ∃ s, series_of w t = Some s
                                      ∧ split_of (rate_key rate) t s w' out)
                 (traces i) outs)
        (instances device_type) new_instances)
    as (new_instances & w' & Hrun & Hstd & Hpre & Hnew).
  { revert w Hall. induction (instances device_type) as [|i l IH];
      intros w Hall.
    { by exists [], w. }
    apply Forall_cons in Hall as [Hi Hall].
    destruct (split_instance_traces_into_rate_known i rate w Hrate Hi)
      as (outs & w1 & Hrun1 & Hstd1 & Hpre1 & Hsp1).
    destruct (IH w1) as (new_instances & w' & Hrun' & Hstd' & Hpre' & Hnew).
    { eapply Forall_impl; [exact Hall|]. cbn. intros i' Hi'.
      eapply Forall_impl; [exact Hi'|]. cbn. intros t [s Hs].
      exists s. by eapply series_of_prefix. }
    exists (mkInstance (concat outs) (instance_metadata i) :: new_instances),
           w'.
    split_and!.
    - cbn [comprehension]. rewrite (bind_returns _ _ _ _ _ Hrun1).
      by rewrite (bind_returns _ _ _ _ _ Hrun').
    - congruence.
    - by etrans.
    - constructor.
      + split; [done|]. exists outs. split; [done|].
        eapply Forall2_impl; [exact Hsp1|]. cbn. intros t out (s & Hs & Hsp).
        exists s. split; [done|]. by eapply split_of_prefix.
      + clear -Hall Hnew Hpre1.
        induction Hnew as [|i' n l ns (Hmd & outs' & Ht & Hsp) _ IH'];
          [constructor|].
        apply Forall_cons in Hall as [Hi' Hall].
        constructor; [|by apply IH']. split; [done|].
        exists outs'. split; [done|]. clear -Hi' Hsp Hpre1.
        induction Hsp as [|t out ts outs (s' & Hs' & Hsp') _ IH''];
          [constructor|].
        apply Forall_cons in Hi' as [[s0 Hs0] Hi'].
        constructor; [|by apply IH'']. exists s'. split; [|done].
        pose proof (series_of_prefix _ _ _ _ Hpre1 Hs0). congruence. }
  exists new_instances, w'. split_and!; [|done..].
  by rewrite (bind_returns _ _ _ _ _ Hrun).
Qed.

End SplitHierarchy.

Lemma split_hierarchy_unknown_rate_witness :
  let w : world Z := mkWorld [mkSeries [(0, 1)]%Z None] [] in
  let i := mkInstance [mkTrace 0 ∅; mkTrace 0 ∅] {["name" := MStr "fridge"]} in
  let ty := mkType [i; i] ∅ in
  split_instance_traces_into_rate i "day" w
  = (Returns (mkInstance [] (instance_metadata i)),
     mkWorld (store w)
       (stdout w ++ replicate (length (traces i))
                      "Looking for 'week' or 'day'"))
  ∧ split_type_traces_into_rate ty "day" w
    = (Returns (mkType ((λ i, mkInstance [] (instance_metadata i))
                          <$> instances ty)
                  (type_metadata ty)),
       mkWorld (store w)
         (stdout w
          ++ replicate (sum_list_with (λ i, length (traces i))
                          (instances ty)) "Looking for 'week' or 'day'")).
Proof.
  intros w i ty.
  apply (split_hierarchy_unknown_rate i ty "day" w); discriminate.
Defined.

(** An instance of two traces: one with samples on two days, one with a
    single sample. *)
Lemma split_instance_traces_into_rate_known_witness :
  let w := mkWorld [mkSeries [(0, 1); (86400000000000, 2)]%Z None;
                    mkSeries [(60, 5)]%Z None] [] in
  let i := mkInstance [mkTrace 0 ∅; mkTrace 1 ∅] {["name" := MStr "fridge"]} in
  ∃ outs w',
    split_instance_traces_into_rate i "D" w
    = (Returns (mkInstance (concat outs) (instance_metadata i)), w')
    ∧ stdout w' = stdout w
    ∧ store w `prefix_of` store w'
    ∧ Forall2 (λ t out, ∃ s, series_of w t = Some s
                             ∧ split_of (rate_key "D") t s w' out)
        (traces i) outs.
Proof.
  intros w i.
  apply (split_instance_traces_into_rate_known i "D" w); [by left|].
  repeat (constructor; [by eexists|]). constructor.
Defined.

Lemma split_type_traces_into_rate_known_witness :
  let w := mkWorld [mkSeries [(0, 1); (86400000000000, 2)]%Z None;
                    mkSeries [(60, 5)]%Z None] [] in
  let ty := mkType [mkInstance [mkTrace 0 ∅] ∅; mkInstance [mkTrace 1 ∅] ∅]
              {["name" := MStr "fridge"]} in
  ∃ new_instances w',
    split_type_traces_into_rate ty "W" w
    = (Returns (mkType new_instances (type_metadata ty)), w')
    ∧ stdout w' = stdout w
    ∧ store w `prefix_of` store w'
    ∧ Forall2 (λ i i',
         instance_metadata i' = instance_metadata i
         ∧ ∃ outs,
             traces i' = concat outs
             ∧ Forall2 (λ t out, ∃ s, series_of w t = Some s
                                      ∧ split_of (rate_key "W") t s w' out)
                 (traces i) outs)
        (instances ty) new_instances.
Proof.
  intros w ty.
  apply (split_type_traces_into_rate_known ty "W" w); [by right|].
  repeat (constructor; [repeat (constructor; [by eexists|]); constructor|]).
  constructor.
Defined.

(** ** resample_trace and the resampling of instances and types *)

Section ResampleMore.

Context {V : Type} (as_float to_decimal : V → V).
Variable pd_resample_mean : string → Series V → exn + Series V.
Implicit Types w : world V.

Lemma read_last w (s : Series V) l :
  l = length (store w) →
  read l (mkWorld (store w ++ [s]) (stdout w))
  = (Returns s, mkWorld (store w ++ [s]) (stdout w)).
Proof. intros ->. unfold read. cbn. by rewrite list_lookup_middle. Qed.

Lemma write_last w (s s' : Series V) l :
  l = length (store w) →
  write l s' (mkWorld (store w ++ [s]) (stdout w))
  = (Returns (), mkWorld (store w ++ [s']) (stdout w)).
Proof.
  intros ->. unfold write. cbn. do 2 f_equal.
  by rewrite <- (Nat.add_0_r (length (store w))), insert_app_r.
Qed.

(** One run of [resample_trace], whatever pandas answers. *)
Lemma resample_trace_run (trace : ApplianceTrace) (s : Series V)
    (sample_rate : string) w :
  series_of w trace = Some s →
  resample_trace as_float to_decimal pd_resample_mean trace sample_rate w
  = match pd_resample_mean sample_rate (map_values as_float s) with
    | inr s2 =>
        (Returns (mkTrace (length (store w) + 2) (metadata trace)),
         mkWorld (store w ++ [map_values as_float s; s2;
                              set_name (name s) (map_values to_decimal s2)])
           (stdout w))
    | inl (Exc c msg) =>
        (Raises (if issubclass c ValueError
                 then Exc NameError "global name 'SampleError' is not defined"
                 else Exc c msg),
         mkWorld (store w ++ [map_values as_float s]) (stdout w))
    end.
Proof.
  intros Hs. unfold resample_trace, try_except.
  rewrite (bind_returns _ _ _ _ _ (read_series_of _ _ _ Hs)).
  unfold bind at 1, alloc at 1.
  rewrite (bind_returns _ _ _ _ _ (read_last w _ _ eq_refl)).
  destruct (pd_resample_mean _ _) as [[c msg]|s2].
  - unfold bind at 1, raise at 1. by destruct (issubclass c ValueError).
  - set (w1 := mkWorld (store w ++ [map_values as_float s]) (stdout w)).
    unfold bind at 1, alloc at 1.
    rewrite (bind_returns _ _ _ _ _ (read_last w1 _ _ eq_refl)).
    set (w2 := mkWorld (store w1 ++ [s2]) (stdout w1)).
    unfold bind at 1, alloc at 1.
    rewrite (bind_returns _ _ _ _ _ (read_last w2 _ _ eq_refl)).
    assert (∀ w3, w3 = mkWorld (store w2 ++ [map_values to_decimal s2])
                           (stdout w2) →
            read (series trace) w3 = (Returns s, w3)) as Hr.
    { intros w3 ->. unfold read. cbn. unfold series_of in Hs.
      by rewrite (lookup_app_l_Some _ _ _ _
                    (lookup_app_l_Some _ _ _ _
                       (lookup_app_l_Some _ _ _ _ Hs))). }
    rewrite (bind_returns _ _ _ _ _ (Hr _ eq_refl)).
    rewrite (bind_returns _ _ _ _ _ (write_last w2 _ _ _ eq_refl)).
    unfold ret. cbn. rewrite !length_app, <- !app_assoc. cbn.
    do 3 f_equal. lia.
Qed.

(** X15. When pandas accepts the rate, [resample_trace] returns a new
    trace: its series is a new object holding what pandas' mean resampling
    makes of the samples converted to float, every value converted to
    [Decimal], under the name of the input series; it carries the metadata
    of the input trace; the series objects that existed, the input
    included, are left as they were, and nothing is printed. *)
Theorem resample_trace_resamples
    (trace : ApplianceTrace) (s s2 : Series V) (sample_rate : string) w :
  series_of w trace = Some s →
  pd_resample_mean sample_rate (map_values as_float s) = inr s2 →
  ∃ tr w',
    resample_trace as_float to_decimal pd_resample_mean trace sample_rate w
    = (Returns tr, w')
    ∧ series_of w' tr = Some (set_name (name s) (map_values to_decimal s2))
    ∧ metadata tr = metadata trace
    ∧ length (store w) ≤ series tr
    ∧ store w `prefix_of` store w'
    ∧ stdout w' = stdout w.
Proof.
  intros Hs Hok. eexists _, _. split.
  { rewrite (resample_trace_run trace s sample_rate w Hs), Hok. done. }
  cbn. split_and!; [|done|lia|by apply prefix_app_r|done].
  unfold series_of. cbn.
  rewrite lookup_app_r by lia.
  by replace (length (store w) + 2 - length (store w)) with 2 by lia.
Qed.

(** X16. Which exceptions of the resampling [resample_trace] intercepts:
    a [ValueError] and every exception whose class derives from
    [ValueError] (the [OutOfBoundsDatetime] of pandas, [UnicodeError]), and
    for all of them the handler ends in the [NameError]; an exception of
    any other class reaches the caller as it is. *)
Theorem resample_trace_exceptions
    (trace : ApplianceTrace) (s : Series V) (sample_rate : string)
    (c : exc_class) (msg : string) w :
  series_of w trace = Some s →
  pd_resample_mean sample_rate (map_values as_float s) = inl (Exc c msg) →
  ∃ w',
    resample_trace as_float to_decimal pd_resample_mean trace sample_rate w
    = (Raises (if issubclass c ValueError
               then Exc NameError "global name 'SampleError' is not defined"
               else Exc c msg), w').
Proof.
  intros Hs Hbad. eexists.
  by rewrite (resample_trace_run trace s sample_rate w Hs), Hbad.
Qed.

Lemma resample_all (sample_rate : string) ts :
  ∀ w,
    Forall (λ t, ∃ s s2,
              series_of w t = Some s
              ∧ pd_resample_mean sample_rate (map_values as_float s) = inr s2)
      ts →
    ∃ new_traces w',
      comprehension
        (λ trace, resample_trace as_float to_decimal pd_resample_mean trace
                    sample_rate) ts w
      = (Returns new_traces, w')
      ∧ stdout w' = stdout w
      ∧ store w `prefix_of` store w'
      ∧ Forall2 (λ t t',
           metadata t' = metadata t
           ∧ length (store w) ≤ series t'
           ∧ ∃ s s2,
               series_of w t = Some s
               ∧ pd_resample_mean sample_rate (map_values as_float s) = inr s2
               ∧ series_of w' t'
                 = Some (set_name (name s) (map_values to_decimal s2)))
          ts new_traces.
Proof.
  induction ts as [|t ts IH]; intros w Hall.
  { by exists [], w. }
  apply Forall_cons in Hall as [(s & s2 & Hs & Hok) Hall].
  destruct (resample_trace_resamples t s s2 sample_rate w Hs Hok)
    as (tr & w1 & Hrun1 & Htr & Hmd & Hnew1 & Hpre1 & Hstd1).
  destruct (IH w1) as (new_traces & w' & Hrun' & Hstd' & Hpre' & Hnew).
  { eapply Forall_impl; [exact Hall|]. cbn. intros t' (s' & s2' & Hs' & ?).
    exists s', s2'. split; [|done]. by eapply series_of_prefix. }
  exists (tr :: new_traces), w'. split_and!.
  - cbn [comprehension]. rewrite (bind_returns _ _ _ _ _ Hrun1).
    by rewrite (bind_returns _ _ _ _ _ Hrun').
  - congruence.
  - by etrans.
  - constructor.
    + split_and!; [done..|]. exists s, s2. split_and!; [done..|].
      by eapply series_of_prefix.
    + clear -Hall Hnew Hpre1.
      induction Hnew
        as [|t' n ts ns (Hmd & Hloc & s' & s2' & Hs' & Hok' & Hn) _ IH'];
        [constructor|].
      apply Forall_cons in Hall as [(s0 & _ & Hs0 & _) Hall].
      constructor; [|by apply IH']. split_and!; [done| |].
      { apply prefix_length in Hpre1. lia. }
      exists s', s2'. split_and!; [|done..].
      pose proof (series_of_prefix _ _ _ _ Hpre1 Hs0). congruence.
Qed.

(** X17. When pandas accepts the rate for every trace of an instance,
    [resample_instance_traces] returns an instance with the metadata of the
    input and, in the order of the input, one resampled trace per input
    trace, each in a new series object and with the metadata of its input
    trace; the series objects that existed are left as they were. *)
Theorem resample_instance_traces_resamples
    (device_instance : ApplianceInstance) (sample_rate : string) w :
  Forall (λ t, ∃ s s2,
            series_of w t = Some s
            ∧ pd_resample_mean sample_rate (map_values as_float s) = inr s2)
    (traces device_instance) →
  ∃ new_traces w',
    resample_instance_traces as_float to_decimal pd_resample_mean
      device_instance sample_rate w
    = (Returns (mkInstance new_traces (instance_metadata device_instance)),
       w')
    ∧ stdout w' = stdout w
    ∧ store w `prefix_of` store w'
    ∧ Forall2 (λ t t',
         metadata t' = metadata t
         ∧ length (store w) ≤ series t'
         ∧ ∃ s s2,
             series_of w t = Some s
             ∧ pd_resample_mean sample_rate (map_values as_float s) = inr s2
             ∧ series_of w' t'
               = Some (set_name (name s) (map_values to_decimal s2)))
        (traces device_instance) new_traces.
Proof.
  intros Hall.
  destruct (resample_all sample_rate (traces device_instance) w Hall)
    as (new_traces & w' & Hrun & Hstd & Hpre & Hnew).
  exists new_traces, w'. split_and!; [|done..].
  unfold resample_instance_traces.
  by rewrite (bind_returns _ _ _ _ _ Hrun).
Qed.

Abbreviation sample_error_unbound :=
  (Exc NameError "global name 'SampleError' is not defined").

(** X18. A rate that pandas rejects with a [ValueError] is only noticed
    where there is a trace to resample.  On an instance with at least one
    trace [resample_instance_traces] ends in the [NameError] of
    [resample_trace], returning no instance; on an instance without traces
    it returns that instance and raises nothing.  Likewise
    [resample_type_traces] ends in the [NameError] as soon as one instance
    of the type has a trace, and returns the type otherwise. *)
Theorem resample_hierarchy_invalid_rate
    (device_instance : ApplianceInstance) (device_type : ApplianceType)
    (sample_rate : string) w :
  (∀ s, ∃ msg, pd_resample_mean sample_rate s = inl (Exc ValueError msg)) →
  Forall (λ t, is_Some (series_of w t)) (traces device_instance) →
  Forall (λ i, Forall (λ t, is_Some (series_of w t)) (traces i))
    (instances device_type) →
  (if decide (traces device_instance = []) then
     resample_instance_traces as_float to_decimal pd_resample_mean
       device_instance sample_rate w
     = (Returns (mkInstance [] (instance_metadata device_instance)), w)
   else
     ∃ w', resample_instance_traces as_float to_decimal pd_resample_mean
             device_instance sample_rate w
           = (Raises sample_error_unbound, w'))
  ∧ (if decide (Forall (λ i, traces i = []) (instances device_type)) then
       resample_type_traces as_float to_decimal pd_resample_mean
         device_type sample_rate w
       = (Returns (mkType ((λ i, mkInstance [] (instance_metadata i))
                             <$> instances device_type)
                     (type_metadata device_type)), w)
     else
       ∃ w', resample_type_traces as_float to_decimal pd_resample_mean
               device_type sample_rate w
             = (Raises sample_error_unbound, w')).
Proof.
  intros Hbad Hinst Htype.
  assert (∀ i, Forall (λ t, is_Some (series_of w t)) (traces i) →
    if decide (traces i = []) then
      resample_instance_traces as_float to_decimal pd_resample_mean
        i sample_rate w
      = (Returns (mkInstance [] (instance_metadata i)), w)
    else
      ∃ w', resample_instance_traces as_float to_decimal pd_resample_mean
              i sample_rate w
            = (Raises sample_error_unbound, w')) as Hone.
  { intros i Hi. unfold resample_instance_traces.
    destruct (traces i) as [|t ts]; [done|]. rewrite decide_False by done.
    apply Forall_cons in Hi as [[s Hs] _].
    destruct (Hbad (map_values as_float s)) as [msg Hmsg].
    eexists. cbn [comprehension]. unfold bind at 1. unfold bind at 1.
    rewrite (resample_trace_run t s sample_rate w Hs), Hmsg.
    done. }
  split; [by apply Hone|].
  unfold resample_type_traces.
  assert (if decide (Forall (λ i, traces i = []) (instances device_type)) then
            comprehension
              (λ instance, resample_instance_traces as_float to_decimal
                             pd_resample_mean instance sample_rate)
              (instances device_type) w
            = (Returns ((λ i, mkInstance [] (instance_metadata i))
                          <$> instances device_type), w)
          else
            ∃ w', comprehension
                    (λ instance, resample_instance_traces as_float to_decimal
                                   pd_resample_mean instance sample_rate)
                    (instances device_type) w
                  = (Raises sample_error_unbound, w')) as Hcomp.
  { induction (instances device_type) as [|i l IH].
    { by rewrite decide_True by constructor. }
    apply Forall_cons in Htype as [Hi Htype].
    specialize (Hone i Hi). specialize (IH Htype). cbn [comprehension].
    destruct (decide (traces i = [])) as [Hnil|Hsome]; cbv beta iota in Hone.
    - rewrite (bind_returns _ _ _ _ _ Hone).
      destruct (decide (Forall (λ i, traces i = []) l)) as [Hl|Hl];
        cbv beta iota in IH.
      + rewrite decide_True by by constructor.
        by rewrite (bind_returns _ _ _ _ _ IH).
      + rewrite decide_False by by intros [_ ?]%Forall_cons.
        destruct IH as [w' IH]. exists w'. unfold bind at 1. by rewrite IH.
    - rewrite decide_False by by intros [? _]%Forall_cons.
      destruct Hone as [w' Hone]. exists w'. unfold bind at 1.
      by rewrite Hone. }
  case_decide.
  - by rewrite (bind_returns _ _ _ _ _ Hcomp).
  - destruct Hcomp as [w' Hcomp]. exists w'. unfold bind. by rewrite Hcomp.
Qed.

End ResampleMore.

(** Hourly means of two samples, with pandas giving the mean of all
    samples at the first timestamp. *)
Lemma resample_trace_resamples_witness :
  let s := mkSeries [(0, 2); (60, 4)]%Z (Some "use") in
  let s2 := mkSeries [(0, 3)]%Z None in
  let w := mkWorld [s] [] in
  let pandas := λ (rule : string) (_ : Series Z), inr s2 in
  let trace := mkTrace 0 {["name" := MStr "fridge"]} in
  ∃ tr w',
    resample_trace id id pandas trace "H" w = (Returns tr, w')
    ∧ series_of w' tr = Some (set_name (name s) (map_values id s2))
    ∧ metadata tr = metadata trace
    ∧ length (store w) ≤ series tr
    ∧ store w `prefix_of` store w'
    ∧ stdout w' = stdout w.
Proof.
  intros s s2 w pandas trace.
  by apply (resample_trace_resamples id id pandas trace s s2 "H" w).
Defined.

(** A date that pandas cannot hold, and a rule that pandas has not
    implemented. *)
Lemma resample_trace_exceptions_witness :
  let s := mkSeries [(0, 2); (60, 4)]%Z (Some "use") in
  let w := mkWorld [s] [] in
  let out_of_bounds := Derived "OutOfBoundsDatetime" ValueError in
  let pandas := λ (rule : string) (_ : Series Z),
                  if decide (rule = "H")
                  then inl (Exc out_of_bounds "Out of bounds nanosecond timestamp")
                  else inl (Exc NotImplementedError "no such rule") in
  (∃ w',
     resample_trace id id pandas (mkTrace 0 ∅) "H" w
     = (Raises (if issubclass out_of_bounds ValueError
                then Exc NameError "global name 'SampleError' is not defined"
                else Exc out_of_bounds "Out of bounds nanosecond timestamp"),
        w'))
  ∧ issubclass out_of_bounds ValueError = true
  ∧ ∃ w',
      resample_trace id id pandas (mkTrace 0 ∅) "X" w
      = (Raises (if issubclass NotImplementedError ValueError
                 then Exc NameError "global name 'SampleError' is not defined"
                 else Exc NotImplementedError "no such rule"), w').
Proof.
  intros s w out_of_bounds pandas. split_and!.
  - by apply (resample_trace_exceptions id id pandas (mkTrace 0 ∅) s "H"
                out_of_bounds "Out of bounds nanosecond timestamp" w).
  - reflexivity.
  - by apply (resample_trace_exceptions id id pandas (mkTrace 0 ∅) s "X"
                NotImplementedError "no such rule" w).
Defined.

Lemma resample_instance_traces_resamples_witness :
  let s := mkSeries [(0, 2); (60, 4)]%Z (Some "use") in
  let s2 := mkSeries [(0, 3)]%Z None in
  let w := mkWorld [s; s] [] in
  let pandas := λ (rule : string) (_ : Series Z), inr s2 in
  let i := mkInstance [mkTrace 0 ∅; mkTrace 1 ∅] {["name" := MStr "fridge"]} in
  ∃ new_traces w',
    resample_instance_traces id id pandas i "H" w
    = (Returns (mkInstance new_traces (instance_metadata i)), w')
    ∧ stdout w' = stdout w
    ∧ store w `prefix_of` store w'
    ∧ Forall2 (λ t t',
         metadata t' = metadata t
         ∧ length (store w) ≤ series t'
         ∧ ∃ s s2,
             series_of w t = Some s
             ∧ pandas "H" (map_values id s) = inr s2
             ∧ series_of w' t'
               = Some (set_name (name s) (map_values id s2)))
        (traces i) new_traces.
Proof.
  intros s s2 w pandas i.
  apply (resample_instance_traces_resamples id id pandas i "H" w).
  repeat (constructor; [by exists s, s2|]). constructor.
Defined.

Lemma resample_hierarchy_invalid_rate_witness :
  let s := mkSeries [(0, 2); (60, 4)]%Z (Some "use") in
  let w := mkWorld [s] [] in
  let pandas := λ (rule : string) (_ : Series Z),
                  inl (Exc ValueError ("Could not evaluate " +:+ rule)) in
  let i := mkInstance [mkTrace 0 ∅] ∅ in
  let ty := mkType [mkInstance [] ∅; i] ∅ in
  (if decide (traces i = []) then
     resample_instance_traces id id pandas i "bogus" w
     = (Returns (mkInstance [] (instance_metadata i)), w)
   else
     ∃ w', resample_instance_traces id id pandas i "bogus" w
           = (Raises (Exc NameError
                        "global name 'SampleError' is not defined"), w'))
  ∧ (if decide (Forall (λ i, traces i = []) (instances ty)) then
       resample_type_traces id id pandas ty "bogus" w
       = (Returns (mkType ((λ i, mkInstance [] (instance_metadata i))
                             <$> instances ty)
                     (type_metadata ty)), w)
     else
       ∃ w', resample_type_traces id id pandas ty "bogus" w
             = (Raises (Exc NameError
                          "global name 'SampleError' is not defined"), w')).
Proof.
  intros s w pandas i ty.
  apply (resample_hierarchy_invalid_rate id id pandas i ty "bogus" w).
  - intros s'. by eexists.
  - repeat (constructor; [by eexists|]). constructor.
  - repeat (constructor; [repeat (constructor; [by eexists|]); constructor|]).
    constructor.
Defined.

(** ** order_traces: ordered input, and traces without samples *)

Section OrderMore.

Context {V : Type}.
Variable SMALL_QUICKSORT : nat.
Hypothesis cutoff_ge_2 : 2 ≤ SMALL_QUICKSORT.
Implicit Types w : world V.

(** X19. Traces that are already in chronological order, their first
    timestamps being strictly ascending, come back from [order_traces] as
    they were given, whichever numpy cut-off (at least 2) is in force. *)
Theorem order_traces_already_ordered
    (traces : list ApplianceTrace) (keys : list Z) w :
  mapM (first_ts w) traces = Some keys →
  StronglySorted Z.lt keys →
  order_traces SMALL_QUICKSORT traces w = (Returns traces, w).
Proof.
  intros Hk Hs. apply strict_sorted_le in Hs as [Hs Hnd].
  destruct (np_argsort_sorts _ cutoff_ge_2 keys) as (order & Ho & Hso).
  assert (order = seq 0 (length keys)) as ->
    by (eapply sorts_sorted_distinct; eauto).
  erewrite (order_traces_run _ cutoff_ge_2); [|exact Hk|exact Ho|done].
  assert (length traces = length keys) as <-.
  { apply mapM_Some_1 in Hk. by eapply Forall2_length. }
  by rewrite (gather_all _ cutoff_ge_2).
Qed.

Lemma comprehension_raises {A B} (f : A → Py V B) w pre x post e :
  Forall (λ a, ∃ b, f a w = (Returns b, w)) pre →
  f x w = (Raises e, w) →
  comprehension f (pre ++ x :: post) w = (Raises e, w).
Proof.
  intros Hpre Hx. induction Hpre as [|a pre [b Ha] _ IH].
  - cbn. unfold bind at 1. by rewrite Hx.
  - cbn [app comprehension]. rewrite (bind_returns _ _ _ _ _ Ha).
    unfold bind at 1. by rewrite IH.
Qed.

(** X20. A trace without samples makes [order_traces] fail: when the
    traces before it all have a first timestamp, reading the first
    timestamp of a trace whose series is empty raises [IndexError], and
    nothing is returned or changed. *)
Theorem order_traces_empty_series
    (pre post : list ApplianceTrace) (t : ApplianceTrace) (s : Series V) w :
  Forall (λ t', is_Some (first_ts w t')) pre →
  series_of w t = Some s →
  rows s = [] →
  order_traces SMALL_QUICKSORT (pre ++ t :: post) w
  = (Raises (Exc IndexError
               "index 0 is out of bounds for axis 0 with size 0"), w).
Proof.
  intros Hpre Hs Hrows. unfold order_traces. unfold bind at 1.
  rewrite (comprehension_raises first_timestamp w pre t post
             (Exc IndexError
                "index 0 is out of bounds for axis 0 with size 0")); [done| |].
  - eapply Forall_impl; [exact Hpre|]. cbn. intros t' [ts Hts].
    exists ts. by apply first_timestamp_run.
  - unfold first_timestamp.
    rewrite (bind_returns _ _ _ _ _ (read_series_of _ _ _ Hs)).
    unfold index. by rewrite Hrows.
Qed.

End OrderMore.

(** Three traces starting at 3, 4 and 5, under numpy 1.8. *)
Lemma order_traces_already_ordered_witness :
  let w := mkWorld [mkSeries [(3, 1); (6, 1)]%Z None; mkSeries [(4, 1)]%Z None;
                    mkSeries [(5, 1)]%Z None] [] in
  let traces := [mkTrace 0 ∅; mkTrace 1 ∅; mkTrace 2 ∅] in
  order_traces 15 traces w = (Returns traces, w).
Proof.
  intros w traces.
  apply (order_traces_already_ordered 15 ltac:(lia) traces [3; 4; 5]%Z w).
  - reflexivity.
  - repeat (constructor; [|repeat constructor; lia]). constructor.
Defined.

Lemma order_traces_empty_series_witness :
  let w := mkWorld [mkSeries [(3, 1)]%Z None; mkSeries [] None] [] in
  order_traces 16 ([mkTrace 0 ∅] ++ mkTrace 1 ∅ :: [mkTrace 0 ∅]) w
  = (Raises (Exc IndexError
               "index 0 is out of bounds for axis 0 with size 0"), w).
Proof.
  intros w.
  apply (order_traces_empty_series 16 [mkTrace 0 ∅] [mkTrace 0 ∅]
           (mkTrace 1 ∅) (mkSeries [] None) w); [|done|done].
  repeat (constructor; [by eexists|]). constructor.
Defined.

(** ** get_trace_windows: the step zero, and the last window *)

Section WindowsMore.

Context {V : Type} (as_float : V → V).
Implicit Types w : world V.

(** X21. A [window_step] of zero makes [get_trace_windows] raise
    [ZeroDivisionError], whatever the window length; nothing is changed. *)
Theorem get_trace_windows_zero_step
    (trace : ApplianceTrace) (window_length : Z) w :
  is_Some (series_of w trace) →
  get_trace_windows as_float trace window_length 0 w
  = (Raises (Exc ZeroDivisionError "integer division or modulo by zero"), w).
Proof.
  intros [s Hs]. unfold get_trace_windows.
  by rewrite (bind_returns _ _ _ _ _ (read_series_of _ _ _ Hs)).
Qed.

(** X22. The last full window is never returned.  For a series of L
    samples and positive [window_length <= L] and [window_step], the window
    that would come next, at offset (number of rows) * window_step, still
    lies fully inside the series, and every window returned ends at least
    [window_step] samples before the end; so a series of exactly
    [window_length] samples gives no window at all. *)
Theorem get_trace_windows_misses_last
    (trace : ApplianceTrace) (s : Series V) (window_length window_step : Z) w :
  series_of w trace = Some s →
  (0 < window_length ≤ Z.of_nat (length (values s)))%Z →
  (0 < window_step)%Z →
  ∃ arr,
    get_trace_windows as_float trace window_length window_step w
    = (Returns arr, w)
    ∧ (Z.of_nat (length arr) * window_step + window_length
       ≤ Z.of_nat (length (values s)))%Z
    ∧ (∀ i, i < length arr →
         (Z.of_nat i * window_step + window_length
          ≤ Z.of_nat (length (values s)) - window_step)%Z)
    ∧ (Z.of_nat (length (values s)) = window_length → arr = []).
Proof.
  intros Hs [Hwl HL] Hws.
  set (L := Z.of_nat (length (values s))) in *.
  set (n_steps := ((L - window_length) / window_step)%Z).
  assert (0 ≤ n_steps)%Z as Hn by (apply Z.div_pos; lia).
  set (windows :=
         (λ step, slice (values s) (step * window_step)
                    (step * window_step + window_length)%Z) <$> range n_steps).
  assert (Hrect : Forall (λ r, length r = Z.to_nat window_length) windows).
  { unfold windows. rewrite range_nat, <- list_fmap_compose.
    apply Forall_fmap, Forall_forall. intros i Hi. cbn.
    apply elem_of_seq in Hi.
    pose proof (window_inside L window_length window_step i Hws Hwl
                  ltac:(lia)) as Hin.
    rewrite slice_inside by (fold L; lia).
    rewrite length_take, length_drop. fold L in Hin |- *. lia. }
  assert (length windows = Z.to_nat n_steps) as Hlen.
  { unfold windows, range. by rewrite !length_fmap, length_seq. }
  exists (map (map as_float) windows). rewrite length_map, Hlen.
  split_and!.
  - unfold get_trace_windows.
    rewrite (bind_returns _ _ _ _ _ (read_series_of _ _ _ Hs)).
    unfold int_div. rewrite decide_False by lia.
    rewrite (bind_returns _ _ w ((L - window_length) / window_step)%Z w)
      by done.
    by apply np_array_float_rect with (n := Z.to_nat window_length).
  - pose proof (Z.mul_div_le (L - window_length) window_step Hws) as Hq.
    fold n_steps in Hq. lia.
  - intros i Hi.
    by apply (window_inside L window_length window_step i Hws Hwl).
  - intros HLw. unfold windows, n_steps.
    replace (L - window_length)%Z with 0%Z by lia. done.
Qed.

End WindowsMore.

Lemma get_trace_windows_zero_step_witness :
  let s := mkSeries ((λ i, (i, 10 * i)) <$> range 10)%Z None in
  let w := mkWorld [s] [] in
  get_trace_windows id (mkTrace 0 ∅) 3 0 w
  = (Raises (Exc ZeroDivisionError "integer division or modulo by zero"), w).
Proof.
  intros s w. apply (get_trace_windows_zero_step id (mkTrace 0 ∅) 3 w).
  by eexists.
Defined.

(** Ten samples, windows of four every three samples: the windows at 0
    and 3 are returned, the one at 6 is not. *)
Lemma get_trace_windows_misses_last_witness :
  let s := mkSeries ((λ i, (i, 10 * i)) <$> range 10)%Z None in
  let w := mkWorld [s] [] in
  ∃ arr,
    get_trace_windows id (mkTrace 0 ∅) 4 3 w = (Returns arr, w)
    ∧ (Z.of_nat (length arr) * 3 + 4 ≤ Z.of_nat (length (values s)))%Z
    ∧ (∀ i, i < length arr →
         (Z.of_nat i * 3 + 4 ≤ Z.of_nat (length (values s)) - 3)%Z)
    ∧ (Z.of_nat (length (values s)) = 4%Z → arr = []).
Proof.
  intros s w.
  apply (get_trace_windows_misses_last id (mkTrace 0 ∅) s 4 3 w);
    [done|by vm_compute|lia].
Defined.

(** ** generate_random_appliance_sets *)

Section RandomSetsFacts.

Variable draws : nat → nat.

Lemma picks_S (pool : list ApplianceInstance) c k :
  picks draws pool c (S k)
  = pool !!! (draws c `mod` length pool) :: picks draws pool (S c) k.
Proof.
  unfold picks. cbn. rewrite Nat.add_0_r. f_equal. rewrite <- fmap_S_seq.
  rewrite <- list_fmap_compose. apply list_fmap_ext. intros _ i _. cbn.
  do 3 f_equal. lia.
Qed.

Lemma sample_instances_S (pool : list ApplianceInstance) k c instances
    appliance_set :
  pool ≠ [] →
  sample_instances draws pool (S k) c instances appliance_set
  = sample_instances draws pool k (S c)
      (instances ++ [pool !!! (draws c `mod` length pool)])
      (Some (mkSet (instances ++ [pool !!! (draws c `mod` length pool)])
               random_sample_metadata)).
Proof.
  intros Hpool. cbn [sample_instances]. unfold randrange.
  rewrite decide_False by by destruct pool.
  rewrite list_lookup_lookup_total_lt; [done|].
  apply Nat.mod_upper_bound. by destruct pool.
Qed.

Lemma sample_instances_run (pool : list ApplianceInstance) k :
  pool ≠ [] →
  ∀ c instances appliance_set,
    sample_instances draws pool (S k) c instances appliance_set
    = Some (Some (mkSet (instances ++ picks draws pool c (S k))
                    random_sample_metadata), c + S k).
Proof.
  intros Hpool.
  induction k as [|k IH]; intros c instances appliance_set.
  - rewrite sample_instances_S by done. cbn.
    rewrite Nat.add_0_r. do 3 f_equal. lia.
  - rewrite picks_S, sample_instances_S by done.
    rewrite IH. rewrite <- app_assoc. cbn [app]. do 2 f_equal. lia.
Qed.

Lemma sample_sets_run (pool : list ApplianceInstance) k :
  pool ≠ [] →
  ∀ n c appliance_set all_sets,
    sample_sets draws pool (S k) n c appliance_set all_sets
    = Sampled (all_sets
               ++ ((λ j, mkSet (picks draws pool (c + j * S k) (S k))
                           random_sample_metadata) <$> seq 0 n)).
Proof.
  intros Hpool. induction n as [|n IH]; intros c appliance_set all_sets.
  - cbn. by rewrite app_nil_r.
  - cbn [sample_sets]. rewrite (sample_instances_run pool k Hpool).
    rewrite IH. rewrite <- app_assoc. cbn [app seq fmap list_fmap].
    do 3 f_equal.
    + do 2 f_equal. lia.
    + rewrite <- fmap_S_seq, <- list_fmap_compose.
      apply list_fmap_ext. intros _ j _. cbn [compose].
      do 2 f_equal. lia.
Qed.

(** X23. From a non-empty pool of instances and with k > 0,
    [generate_random_appliance_sets] returns [n] sets (none for n <= 0),
    whatever the random source draws: every set carries the metadata
    [{'name': None, 'source': 'random sample'}] and k instances of the
    pool, the instance number i of set number j being the one at the index
    given by draw number j*k + i; nothing prevents an instance from being
    drawn more than once. *)
Theorem generate_random_appliance_sets_samples
    (appliance_sets : list ApplianceSet) (k n : Z) :
  let pool := appliance_set ← appliance_sets; set_instances appliance_set in
  pool ≠ [] → (0 < k)%Z →
  ∃ all_sets,
    generate_random_appliance_sets draws appliance_sets k n = Sampled all_sets
    ∧ length all_sets = Z.to_nat n
    ∧ Forall (λ s, set_metadata s = random_sample_metadata
                   ∧ length (set_instances s) = Z.to_nat k
                   ∧ Forall (λ i, i ∈ pool) (set_instances s)) all_sets
    ∧ ∀ j i, j < Z.to_nat n → i < Z.to_nat k →
        all_sets !! j ≫= (λ s, set_instances s !! i)
        = pool !! (draws (j * Z.to_nat k + i) `mod` length pool).
Proof.
  intros pool Hpool Hk.
  destruct (Z.to_nat k) as [|k'] eqn:Hk'; [lia|].
  eexists. split.
  { unfold generate_random_appliance_sets. fold pool. rewrite Hk'.
    rewrite (sample_sets_run pool k' Hpool). cbn [app]. done. }
  unfold picks.
  assert (∀ c, draws c `mod` length pool < length pool) as Hlt.
  { intros c. apply Nat.mod_upper_bound. by destruct pool. }
  split_and!.
  - by rewrite length_fmap, length_seq.
  - apply Forall_fmap, Forall_forall. intros j _. cbn [set_metadata
      set_instances compose]. split_and!; [done|..].
    + by rewrite length_fmap, length_seq.
    + apply Forall_fmap, Forall_forall. intros i _. cbn [compose].
      apply list_elem_of_lookup_total_2, Hlt.
  - intros j i Hj Hi. rewrite list_lookup_fmap, lookup_seq_lt by done.
    cbn [fmap option_fmap option_map mbind option_bind set_instances].
    rewrite list_lookup_fmap, lookup_seq_lt by done. cbn.
    symmetry. apply list_lookup_lookup_total_lt, Hlt.
Qed.

(** Without a draw, every round appends what [appliance_set] is bound
    to. *)
Lemma sample_sets_no_draw (pool : list ApplianceInstance)
    (given : ApplianceSet) n :
  ∀ c all_sets,
    sample_sets draws pool 0 n c (Some given) all_sets
    = Sampled (all_sets ++ replicate n given).
Proof.
  induction n as [|n IH]; intros c all_sets.
  - cbn. by rewrite app_nil_r.
  - change (sample_sets draws pool 0 (S n) c (Some given) all_sets)
      with (sample_sets draws pool 0 n c (Some given) (all_sets ++ [given])).
    rewrite IH. by rewrite <- app_assoc.
Qed.

(** X24. The degenerate calls.  With n <= 0 the result is the empty
    list.  With n > 0 and k <= 0 the inner loop never runs and every round
    appends what the name [appliance_set] is bound to since the list
    comprehension at the head of the function: the last of the given sets,
    so that the result is n times that set, whatever the pool; only when no
    set was given is the name unbound, and the call ends in
    [UnboundLocalError].  With n > 0, k > 0 and no instance in any of the
    given sets, [random.randrange(0)] raises [ValueError]. *)
Theorem generate_random_appliance_sets_degenerate
    (appliance_sets : list ApplianceSet) (k n : Z) :
  (n ≤ 0)%Z ∨ (k ≤ 0)%Z
  ∨ (appliance_set ← appliance_sets; set_instances appliance_set) = [] →
  generate_random_appliance_sets draws appliance_sets k n
  = if decide (n ≤ 0)%Z then Sampled []
    else if decide (k ≤ 0)%Z then
      match last appliance_sets with
      | Some given => Sampled (replicate (Z.to_nat n) given)
      | None => UnboundLocal
      end
    else EmptyRange.
Proof.
  intros Hdeg. unfold generate_random_appliance_sets.
  case_decide as Hn.
  { by replace (Z.to_nat n) with 0 by lia. }
  case_decide as Hk.
  { replace (Z.to_nat k) with 0 by lia.
    destruct (last appliance_sets) as [given|].
    - by rewrite sample_sets_no_draw.
    - destruct (Z.to_nat n) as [|n'] eqn:Hn'; [lia|]. done. }
  destruct (Z.to_nat n) as [|n'] eqn:Hn'; [lia|].
  destruct (Z.to_nat k) as [|k'] eqn:Hk'; [lia|].
  destruct Hdeg as [?|[?|Hpool]]; [lia..|]. by rewrite Hpool.
Qed.

End RandomSetsFacts.

(** Two sets of three instances from a pool of two, the draws being 0, 1,
    2, ... *)
Lemma generate_random_appliance_sets_samples_witness :
  let a := mkInstance [] {["name" := MStr "fridge"]} in
  let b := mkInstance [] {["name" := MStr "oven"]} in
  let appliance_sets := [mkSet [a] ∅; mkSet [] ∅; mkSet [b] ∅] in
  let pool := appliance_set ← appliance_sets; set_instances appliance_set in
  ∃ all_sets,
    generate_random_appliance_sets id appliance_sets 3 2 = Sampled all_sets
    ∧ length all_sets = 2
    ∧ Forall (λ s, set_metadata s = random_sample_metadata
                   ∧ length (set_instances s) = 3
                   ∧ Forall (λ i, i ∈ pool) (set_instances s)) all_sets
    ∧ ∀ j i, j < 2 → i < 3 →
        all_sets !! j ≫= (λ s, set_instances s !! i)
        = pool !! (id (j * 3 + i) `mod` length pool).
Proof.
  intros a b appliance_sets pool.
  apply (generate_random_appliance_sets_samples id appliance_sets 3 2);
    [done|lia].
Defined.

(** Three sets of no instance asked of two given sets, and of none. *)
Lemma generate_random_appliance_sets_degenerate_witness :
  let first := mkSet [mkInstance [] ∅] {["name" := MStr "first"]} in
  let second := mkSet [mkInstance [] ∅] {["name" := MStr "second"]} in
  generate_random_appliance_sets id [first; second] 0 3
  = Sampled [second; second; second]
  ∧ generate_random_appliance_sets id [] 0 3 = UnboundLocal.
Proof.
  intros first second. split.
  - apply (generate_random_appliance_sets_degenerate id [first; second] 0 3).
    right. left. lia.
  - apply (generate_random_appliance_sets_degenerate id [] 0 3).
    right. left. lia.
Defined.
